(** * Snap prompting helper: the velocity-driven trigger engine

    A shallow embedding of [src/utils/velocityTracker.ts] (class
    [VelocityTracker]) and of the glue of [src/content/index.tsx] that drives
    it, with the properties the specification states about them.

    Conventions.
    - A JavaScript string is its sequence of UTF-16 code units ([list N]);
      [length] is [String.prototype.length].
    - [Date.now()] and timer delays are integers ([Z], milliseconds).
    - Fractions ([distance / maxLength], the thresholds [0.2], [0.5], ...) are
      rationals ([Q]).  The source computes them in binary floating point;
      the comparisons the engine makes ([count >= threshold] on an integer
      count, [distance / maxLength < 0.2] on integers below [2^50]) have the
      same outcome on the rationals.
    - An array indexed and updated in place is a list with stdpp's lookup
      [l !! i] and insert [<[i:=v]> l]. *)

From Stdlib Require Import ZArith QArith Qminmax Lia.
From stdpp Require Import base decidable option numbers list strings.

Set Default Proof Using "Type".

(** ** Strings *)

Module JS.

(** A string as its UTF-16 code units. *)
Abbreviation jsstring := (list N) (only parsing).

(** [WhiteSpace] and [LineTerminator] code points of ECMAScript, the ones
    [String.prototype.trim] strips (all lie in the basic plane). *)
Definition isWhiteSpace (c : N) : bool :=
  match c with
  | 9 | 10 | 11 | 12 | 13 | 32 | 160 | 5760
  | 8192 | 8193 | 8194 | 8195 | 8196 | 8197 | 8198 | 8199 | 8200 | 8201 | 8202
  | 8232 | 8233 | 8239 | 8287 | 12288 | 65279 => true
  | _ => false
  end%N.

Fixpoint trimStart (s : jsstring) : jsstring :=
  match s with
  | c :: s' => if isWhiteSpace c then trimStart s' else s
  | [] => []
  end.

Definition trimEnd (s : jsstring) : jsstring := reverse (trimStart (reverse s)).

(** [String.prototype.trim]. *)
Definition trim (s : jsstring) : jsstring := trimEnd (trimStart s).

(** [Array.prototype.includes] on code units. *)
Definition includes (l : list N) (c : N) : bool := bool_decide (c ∈ l).

(** [s1 === s2] on strings. *)
Definition str_eqb (s1 s2 : jsstring) : bool := bool_decide (s1 = s2).

(** Lower-casing of the Basic Latin block: what [toLowerCase] does to a
    string of code units below 128. *)
Definition lower_basic_latin (c : N) : N :=
  if ((65 <=? c) && (c <=? 90))%N then (c + 32)%N else c.

End JS.
Export JS.

(** ** Change-distance evaluator *)

(** The table [dp] of [levenshteinDistance]: [m + 1] rows of [n + 1] cells. *)
Abbreviation table := (list (list nat)) (only parsing).

(** [Array(m + 1).fill(null).map(() => Array(n + 1).fill(0))]. *)
Definition dp_alloc (m n : nat) : table := replicate (S m) (replicate (S n) 0).

(** [dp[i][j]], read inside the table (a read outside would be [undefined];
    the loops below never make one). *)
Definition dp_get (dp : table) (i j : nat) : nat :=
  default 0 (dp !! i ≫= (.!! j)).

(** [dp[i][j] = v], written inside the table (the loops below never write
    outside of it, where JavaScript would extend the row). *)
Definition dp_set (dp : table) (i j v : nat) : table :=
  alter (<[j:=v]>) i dp.

(** [for (let k = lo; k < lo + cnt; k++) body]. *)
Definition for_loop {S : Type} (lo cnt : nat) (body : nat → S → S) (s : S) : S :=
  foldl (λ s k, body k s) s (seq lo cnt).

(** [Math.min(x, y, z)]. *)
Definition min3 (x y z : nat) : nat := (x `min` y) `min` z.

(** The cell computed by the body of the inner loop. *)
Definition dp_cell (str1 str2 : jsstring) (dp : table) (i j : nat) : nat :=
  if bool_decide (str1 !! (i - 1) = str2 !! (j - 1))
  then dp_get dp (i - 1) (j - 1)
  else min3 (dp_get dp (i - 1) j) (dp_get dp i (j - 1))
            (dp_get dp (i - 1) (j - 1)) + 1.

(** The table after the three loops. *)
Definition dp_fill (str1 str2 : jsstring) : table :=
  let m := length str1 in
  let n := length str2 in
  let dp := dp_alloc m n in
  let dp := for_loop 0 (S m) (λ i dp, dp_set dp i 0 i) dp in
  let dp := for_loop 0 (S n) (λ j dp, dp_set dp 0 j j) dp in
  for_loop 1 m (λ i dp,
    for_loop 1 n (λ j dp, dp_set dp i j (dp_cell str1 str2 dp i j)) dp) dp.

Definition levenshteinDistance (str1 str2 : jsstring) : nat :=
  dp_get (dp_fill str1 str2) (length str1) (length str2).

(** [calculateChangePercent]: [!text2] holds of the empty string only. *)
Definition calculateChangePercent (text1 text2 : jsstring) : Q :=
  match text2 with
  | [] => 1
  | _ =>
    let distance := levenshteinDistance text1 text2 in
    let maxLength := length text1 `max` length text2 in
    if (0 <? maxLength)%nat
    then inject_Z (Z.of_nat distance) / inject_Z (Z.of_nat maxLength)
    else 0
  end.


(** ** Edit distance, as the specification words it *)

Section EditDistance.
Context {A : Type} `{EqDecision A}.

(** A script of single-character edits turning [a] into [b], with its cost:
    an insertion, a deletion and a substitution cost one each, keeping a
    character costs nothing. *)
Inductive edit_script : list A → list A → nat → Prop :=
  | es_nil : edit_script [] [] 0
  | es_keep x a b n : edit_script a b n → edit_script (x :: a) (x :: b) n
  | es_subst x y a b n : edit_script a b n → edit_script (x :: a) (y :: b) (S n)
  | es_delete x a b n : edit_script a b n → edit_script (x :: a) b (S n)
  | es_insert y a b n : edit_script a b n → edit_script a (y :: b) (S n).

(** The classic edit distance: the cost of a cheapest script. *)
Definition is_edit_distance (a b : list A) (d : nat) : Prop :=
  edit_script a b d ∧ ∀ n, edit_script a b n → d ≤ n.

(** The recurrence the table of [levenshteinDistance] follows, read on the
    strings themselves. *)
Fixpoint lev (a b : list A) : nat :=
  match a with
  | [] => length b
  | x :: a' =>
    (fix lev_row (b : list A) : nat :=
       match b with
       | [] => length a
       | y :: b' =>
         if decide (x = y) then lev a' b'
         else min3 (lev a' b) (lev_row b') (lev a' b') + 1
       end) b
  end.

End EditDistance.

(** ** Data model of the tracker *)

Inductive VelocityState : Set := FLOW | EDITING | REVIEWING | STOPPED.

#[global] Instance VelocityState_eq_dec : EqDecision VelocityState.
Proof. solve_decision. Defined.

Record VelocityConfig : Type := {
  sampleInterval : Z;
  charBufferSize : nat;
  flowThreshold : Q;
  editingThreshold : Q;
  reviewingThreshold : Q;
  microPauseIgnoreThreshold : Z;
  naturalCompletionWait : Z;
  planningPauseWait : Z;
  cooldownPeriod : Z;
  minPromptLength : nat;
  minChangePercent : Q }.

Definition DEFAULT_CONFIG : VelocityConfig := {|
  sampleInterval := 500;
  charBufferSize := 10;
  flowThreshold := 2;
  editingThreshold := 1 # 2;
  reviewingThreshold := 1 # 10;
  microPauseIgnoreThreshold := 1500;
  naturalCompletionWait := 6000;
  planningPauseWait := 8000;
  cooldownPeriod := 30000;
  minPromptLength := 15;
  minChangePercent := 2 # 10 |}.

Record CharTimestamp : Type := { char : jsstring; timestamp : Z }.

(** A string literal of Basic Latin characters. *)
Definition lit (s : string) : jsstring :=
  Ascii.N_of_ascii <$> String.list_ascii_of_string s.

(** ['hello', 'hi', 'test', 'testing', '测试', '你好']. *)
Definition THROWAWAY_PHRASES : list jsstring :=
  [ lit "hello"; lit "hi"; lit "test"; lit "testing";
    [27979; 35797]%N; [20320; 22909]%N ].

(** ['.', '?', '!', '。', '？', '！']. *)
Definition PUNCTUATION : list N := [46; 63; 33; 12290; 65311; 65281]%N.

(** ** The runtime: clock, timers, what the callbacks receive *)

(** What a pending timer runs when it fires. *)
Inductive timer_action : Set :=
  | TSample                      (* the interval of [start] *)
  | TGrace                       (* the timeout of [onStateChange] *)
  | TMidpoint                    (* [midpointTimer] of [startCountdown] *)
  | TCountdown (midpointTimer : positive) (* [countdownTimer] of [startCountdown] *)
  | TVelocityPoll                (* the interval of [activateVelocityTracker] *)
  | TInactivity.                 (* the timeout of [resetInactivityTimer] *)

(** A pending timer: its handle, the time from which it may fire, its period
    when it was made by [setInterval], and its callback. *)
Record timer : Type := {
  tid : positive;
  due : Z;
  repeat : option Z;
  action : timer_action }.

(** What the engine hands to its consumers. *)
Inductive output : Type :=
  | OutStateChange (state : VelocityState) (opacity : Q)
  | OutTrigger (text : jsstring)
  | OutAssess (text : jsstring)
  | OutError.

(** The fields of class [VelocityTracker].  A callback field records whether
    a callback is registered ([false] is [null]); the callbacks themselves
    are the ones [index.tsx] passes to [start]. *)
Record VelocityTracker : Type := {
  config : VelocityConfig;
  charTimestamps : list CharTimestamp;
  currentState : VelocityState;
  previousState : VelocityState;
  countdownTimer : option positive;
  sampleTimer : option positive;
  isComposing : bool;
  lastAssessedText : jsstring;
  lastAssessmentTime : Z;
  triggerCallback : bool;
  stateChangeCallback : bool;
  getCurrentText : bool }.

(** The page: the runtime ([clock] is [Date.now()], timer handles are the
    positive integers [setTimeout] returns), the tracker, and the state of
    component [App] that the glue code uses. *)
Record world : Type := {
  clock : Z;
  nextTimer : positive;
  timers : list timer;
  out : list output;
  tracker : VelocityTracker;
  promptText : jsstring;
  previousTextForTracking : jsstring;
  isTrackerActive : bool;
  inactivityTimer : option positive;
  velocityPollTimer : option positive;
  typingVelocity : nat }.

(** *** Field updates *)

Definition set_charTimestamps v (t : VelocityTracker) :=
  let '(Build_VelocityTracker c _ cs ps ct st ic lt la tc sc gt) := t in
  Build_VelocityTracker c v cs ps ct st ic lt la tc sc gt.
Definition set_currentState v (t : VelocityTracker) :=
  let '(Build_VelocityTracker c b _ ps ct st ic lt la tc sc gt) := t in
  Build_VelocityTracker c b v ps ct st ic lt la tc sc gt.
Definition set_previousState v (t : VelocityTracker) :=
  let '(Build_VelocityTracker c b cs _ ct st ic lt la tc sc gt) := t in
  Build_VelocityTracker c b cs v ct st ic lt la tc sc gt.
Definition set_countdownTimer v (t : VelocityTracker) :=
  let '(Build_VelocityTracker c b cs ps _ st ic lt la tc sc gt) := t in
  Build_VelocityTracker c b cs ps v st ic lt la tc sc gt.
Definition set_sampleTimer v (t : VelocityTracker) :=
  let '(Build_VelocityTracker c b cs ps ct _ ic lt la tc sc gt) := t in
  Build_VelocityTracker c b cs ps ct v ic lt la tc sc gt.
Definition set_isComposing v (t : VelocityTracker) :=
  let '(Build_VelocityTracker c b cs ps ct st _ lt la tc sc gt) := t in
  Build_VelocityTracker c b cs ps ct st v lt la tc sc gt.
Definition set_lastAssessedText v (t : VelocityTracker) :=
  let '(Build_VelocityTracker c b cs ps ct st ic _ la tc sc gt) := t in
  Build_VelocityTracker c b cs ps ct st ic v la tc sc gt.
Definition set_lastAssessmentTime v (t : VelocityTracker) :=
  let '(Build_VelocityTracker c b cs ps ct st ic lt _ tc sc gt) := t in
  Build_VelocityTracker c b cs ps ct st ic lt v tc sc gt.
Definition set_triggerCallback v (t : VelocityTracker) :=
  let '(Build_VelocityTracker c b cs ps ct st ic lt la _ sc gt) := t in
  Build_VelocityTracker c b cs ps ct st ic lt la v sc gt.
Definition set_stateChangeCallback v (t : VelocityTracker) :=
  let '(Build_VelocityTracker c b cs ps ct st ic lt la tc _ gt) := t in
  Build_VelocityTracker c b cs ps ct st ic lt la tc v gt.
Definition set_getCurrentText v (t : VelocityTracker) :=
  let '(Build_VelocityTracker c b cs ps ct st ic lt la tc sc _) := t in
  Build_VelocityTracker c b cs ps ct st ic lt la tc sc v.

Definition set_clock v (w : world) :=
  let '(Build_world _ n ts o t p pv a it vt tv) := w in
  Build_world v n ts o t p pv a it vt tv.
Definition set_nextTimer v (w : world) :=
  let '(Build_world c _ ts o t p pv a it vt tv) := w in
  Build_world c v ts o t p pv a it vt tv.
Definition set_timers v (w : world) :=
  let '(Build_world c n _ o t p pv a it vt tv) := w in
  Build_world c n v o t p pv a it vt tv.
Definition set_out v (w : world) :=
  let '(Build_world c n ts _ t p pv a it vt tv) := w in
  Build_world c n ts v t p pv a it vt tv.
Definition set_tracker v (w : world) :=
  let '(Build_world c n ts o _ p pv a it vt tv) := w in
  Build_world c n ts o v p pv a it vt tv.
Definition set_promptText v (w : world) :=
  let '(Build_world c n ts o t _ pv a it vt tv) := w in
  Build_world c n ts o t v pv a it vt tv.
Definition set_previousTextForTracking v (w : world) :=
  let '(Build_world c n ts o t p _ a it vt tv) := w in
  Build_world c n ts o t p v a it vt tv.
Definition set_isTrackerActive v (w : world) :=
  let '(Build_world c n ts o t p pv _ it vt tv) := w in
  Build_world c n ts o t p pv v it vt tv.
Definition set_inactivityTimer v (w : world) :=
  let '(Build_world c n ts o t p pv a _ vt tv) := w in
  Build_world c n ts o t p pv a v vt tv.
Definition set_velocityPollTimer v (w : world) :=
  let '(Build_world c n ts o t p pv a it _ tv) := w in
  Build_world c n ts o t p pv a it v tv.
Definition set_typingVelocity v (w : world) :=
  let '(Build_world c n ts o t p pv a it vt _) := w in
  Build_world c n ts o t p pv a it vt v.

(** Update of the tracker inside the page. *)
Definition on_tracker (f : VelocityTracker → VelocityTracker) (w : world) : world :=
  set_tracker (f (tracker w)) w.

(** A callback receives a value. *)
Definition emit (o : output) (w : world) : world := set_out (out w ++ [o]) w.

(** *** Timers *)

Definition add_timer (a : timer_action) (delay : Z) (period : option Z)
    (w : world) : positive * world :=
  let id := nextTimer w in
  let t := {| tid := id; due := (clock w + delay)%Z; repeat := period; action := a |} in
  (id, set_nextTimer (Pos.succ id) (set_timers (timers w ++ [t]) w)).

(** [window.setTimeout(callback, delay)], returning the handle. *)
Definition setTimeout (a : timer_action) (delay : Z) : world → positive * world :=
  add_timer a delay None.

(** [window.setInterval(callback, delay)], returning the handle. *)
Definition setInterval (a : timer_action) (delay : Z) : world → positive * world :=
  add_timer a delay (Some delay).

(** [clearTimeout(id)] and [clearInterval(id)]: the timer, if it is still
    pending, will not fire. *)
Definition clearTimeout (id : positive) (w : world) : world :=
  set_timers (filter (λ t, tid t ≠ id) (timers w)) w.

(** The pending timers that are countdowns, and the inactivity timers. *)
Definition is_countdown (t : timer) : bool :=
  match action t with TCountdown _ => true | _ => false end.
Definition is_inactivity (t : timer) : bool :=
  match action t with TInactivity => true | _ => false end.
Definition is_grace (t : timer) : bool :=
  match action t with TGrace => true | _ => false end.
Definition active_countdowns (w : world) : list timer :=
  filter (λ t, is_countdown t = true) (timers w).
Definition active_inactivity (w : world) : list timer :=
  filter (λ t, is_inactivity t = true) (timers w).
Definition pending_grace (w : world) : list timer :=
  filter (λ t, is_grace t = true) (timers w).

(** ** The engine *)

Section Engine.

(** [String.prototype.toLowerCase] of the JavaScript runtime. *)
Variable toLowerCase : jsstring → jsstring.

(** *** Pure helpers of the tracker *)

(** [x >= y] and [x < y] on fractions. *)
Definition Qgeb (x y : Q) : bool := Qle_bool y x.
Definition Qltb (x y : Q) : bool := negb (Qle_bool y x).

(** [this.charTimestamps.filter((t) => now - t.timestamp < 1000).length]. *)
Definition recentChars (now : Z) (buf : list CharTimestamp) : list CharTimestamp :=
  filter (λ t, (now - timestamp t < 1000)%Z) buf.

(** The state [sampleVelocity] derives from the rate. *)
Definition classify (cfg : VelocityConfig) (charsPerSecond : nat) : VelocityState :=
  let r := inject_Z (Z.of_nat charsPerSecond) in
  if Qgeb r (flowThreshold cfg) then FLOW
  else if Qgeb r (editingThreshold cfg) then EDITING
  else if Qgeb r (reviewingThreshold cfg) then REVIEWING
  else STOPPED.

Definition getOpacityForState (state : VelocityState) : Q :=
  match state with
  | FLOW => 2 # 10
  | EDITING => 6 # 10
  | REVIEWING => 6 # 10
  | STOPPED => 8 # 10
  end.

(** [endsWithPunctuation]. *)
Definition endsWithPunctuation (text : jsstring) : bool :=
  match last (trim text) with
  | None => false
  | Some lastChar => includes PUNCTUATION lastChar
  end.

(** The diagnostic a failed pre-filter logs. *)
Inductive prefilter_log : Set :=
  | TooShort | CooldownActive | InsufficientChange | ThrowawayPhrase.

(** [THROWAWAY_PHRASES.some((phrase) => lowerText === phrase)]. *)
Definition isThrowaway (text : jsstring) : bool :=
  let lowerText := trim (toLowerCase text) in
  existsb (λ phrase, str_eqb lowerText phrase) THROWAWAY_PHRASES.

(** [passesPreFilters], with the message of the check that failed: the
    message is [None] exactly when the result is [true]. *)
Definition preFilterFailure (t : VelocityTracker) (now : Z) (text : jsstring)
    : option prefilter_log :=
  if (length text <? minPromptLength (config t))%nat then Some TooShort
  else if (now - lastAssessmentTime t <? cooldownPeriod (config t))%Z
  then Some CooldownActive
  else if Qltb (calculateChangePercent text (lastAssessedText t))
               (minChangePercent (config t))
  then Some InsufficientChange
  else if isThrowaway text then Some ThrowawayPhrase
  else None.

Definition passesPreFilters (t : VelocityTracker) (now : Z) (text : jsstring) : bool :=
  match preFilterFailure t now text with None => true | Some _ => false end.

(** *** Methods of the tracker and functions of the content script

    Each takes the page before and gives the page after.  [getCurrentText()]
    is [() => promptTextRef.current]. *)

(** [start(getCurrentText, onTrigger, onStateChange?)]. *)
Definition start (onStateChange : bool) (w : world) : world :=
  let w := on_tracker (set_getCurrentText true) w in
  let w := on_tracker (set_triggerCallback true) w in
  let w := on_tracker (set_stateChangeCallback onStateChange) w in
  let '(id, w) := setInterval TSample (sampleInterval (config (tracker w))) w in
  on_tracker (set_sampleTimer (Some id)) w.

Definition cancelCountdown (w : world) : world :=
  match countdownTimer (tracker w) with
  | Some id => on_tracker (set_countdownTimer None) (clearTimeout id w)
  | None => w
  end.

Definition stop (w : world) : world :=
  let w := match sampleTimer (tracker w) with
           | Some id => on_tracker (set_sampleTimer None) (clearTimeout id w)
           | None => w
           end in
  cancelCountdown w.

Definition trackKeystroke (c : jsstring) (w : world) : world :=
  if isComposing (tracker w) then w
  else
    let now := clock w in
    let w := on_tracker (λ t, set_charTimestamps
               (charTimestamps t ++ [{| char := c; timestamp := now |}]) t) w in
    if (charBufferSize (config (tracker w)) <? length (charTimestamps (tracker w)))%nat
    then on_tracker (λ t, set_charTimestamps (tail (charTimestamps t)) t) w
    else w.

Definition setComposing (b : bool) (w : world) : world :=
  on_tracker (set_isComposing b) w.

Definition getCurrentVelocity (w : world) : nat :=
  length (recentChars (clock w) (charTimestamps (tracker w))).

(** [this.stateChangeCallback?.(state, opacity)]. *)
Definition notifyStateChange (state : VelocityState) (opacity : Q) (w : world) : world :=
  if stateChangeCallback (tracker w) then emit (OutStateChange state opacity) w else w.

Definition resetInactivityTimer (w : world) : world :=
  let w := match inactivityTimer w with
           | Some id => clearTimeout id w
           | None => w
           end in
  let '(id, w) := setTimeout TInactivity (15 * 60 * 1000)%Z w in
  set_inactivityTimer (Some id) w.

Definition activateVelocityTracker (w : world) : world :=
  if isTrackerActive w then resetInactivityTimer w
  else
    let w := set_isTrackerActive true w in
    let w := start false w in
    let '(id, w) := setInterval TVelocityPoll 500 w in
    let w := set_velocityPollTimer (Some id) w in
    resetInactivityTimer w.

(** [handleAssess(textOverride?)], up to its first [await]: what follows
    talks to the assessment service and the panel only.  The state
    [promptText] and [promptTextRef.current] are set together, to the same
    text, and are one field here; [OutAssess] stands for the request that
    follows, [OutError] for [setError('PROMPT_TOO_SHORT')]. *)
Definition handleAssess (textOverride : option jsstring) (w : world) : world :=
  let textToAssess :=
    match textOverride with
    | Some ((_ :: _) as t) => t
    | _ => promptText w
    end in
  if (length textToAssess <? 10)%nat then emit OutError w
  else emit (OutAssess textToAssess) (activateVelocityTracker w).

(** The [onTrigger] callback that [activateVelocityTracker] registers. *)
Definition onTrigger (text : jsstring) (w : world) : world :=
  handleAssess (Some text) w.

Definition executeAssessment (text : jsstring) (w : world) : world :=
  let w := on_tracker (set_lastAssessedText text) w in
  let w := on_tracker (set_lastAssessmentTime (clock w)) w in
  if triggerCallback (tracker w) then onTrigger text (emit (OutTrigger text) w) else w.

Definition forceTrigger (w : world) : world :=
  if negb (getCurrentText (tracker w)) || negb (triggerCallback (tracker w)) then w
  else
    let text := promptText w in
    if (10 <=? length text)%nat
    then executeAssessment text (cancelCountdown w)
    else w.

Definition startCountdown (w : world) : world :=
  if negb (getCurrentText (tracker w)) then w
  else
    let promptText := promptText w in
    let hasPunctuation := endsWithPunctuation promptText in
    let waitTime :=
      if hasPunctuation then naturalCompletionWait (config (tracker w))
      else planningPauseWait (config (tracker w)) in
    let '(midpointTimer, w) := setTimeout TMidpoint 3000 w in
    let '(id, w) := setTimeout (TCountdown midpointTimer) waitTime w in
    on_tracker (set_countdownTimer (Some id)) w.

Definition onStateChange (newState : VelocityState) (w : world) : world :=
  let w := on_tracker (λ t, set_previousState (currentState t) t) w in
  let w := on_tracker (set_currentState newState) w in
  let opacity := getOpacityForState newState in
  let w := notifyStateChange newState opacity w in
  if bool_decide (newState = STOPPED)
     && bool_decide (previousState (tracker w) ≠ STOPPED)
  then snd (setTimeout TGrace (microPauseIgnoreThreshold (config (tracker w))) w)
  else if bool_decide (newState ≠ STOPPED) then cancelCountdown w
  else w.

Definition sampleVelocity (w : world) : world :=
  let charsPerSecond := length (recentChars (clock w) (charTimestamps (tracker w))) in
  let newState := classify (config (tracker w)) charsPerSecond in
  if bool_decide (newState ≠ currentState (tracker w))
  then onStateChange newState w
  else w.

(** *** Timer callbacks *)

(** The grace-period check scheduled by [onStateChange]. *)
Definition graceCheck (w : world) : world :=
  if bool_decide (currentState (tracker w) = STOPPED) then startCountdown w else w.

(** The midpoint tick scheduled by [startCountdown]. *)
Definition midpointTick (w : world) : world :=
  if bool_decide (currentState (tracker w) = STOPPED)
  then notifyStateChange (currentState (tracker w)) (8 # 10) w
  else w.

(** The expiry of the countdown scheduled by [startCountdown]. *)
Definition countdownExpiry (midpointTimer : positive) (w : world) : world :=
  let w :=
    if bool_decide (currentState (tracker w) = STOPPED) && getCurrentText (tracker w)
    then
      let text := promptText w in
      if passesPreFilters (tracker w) (clock w) text
      then executeAssessment text (notifyStateChange (currentState (tracker w)) 1 w)
      else w
    else w in
  clearTimeout midpointTimer w.

(** The velocity poll of [activateVelocityTracker]. *)
Definition velocityPoll (w : world) : world :=
  if isTrackerActive w then set_typingVelocity (getCurrentVelocity w) w else w.

(** The expiry of the inactivity timer. *)
Definition inactivityExpiry (w : world) : world :=
  let w := set_isTrackerActive false w in
  let w := set_typingVelocity 0 w in
  let w := match velocityPollTimer w with
           | Some id => set_velocityPollTimer None (clearTimeout id w)
           | None => w
           end in
  stop w.

Definition run_action (a : timer_action) : world → world :=
  match a with
  | TSample => sampleVelocity
  | TGrace => graceCheck
  | TMidpoint => midpointTick
  | TCountdown midpointTimer => countdownExpiry midpointTimer
  | TVelocityPoll => velocityPoll
  | TInactivity => inactivityExpiry
  end.

(** *** Other event handlers of the content script *)

Definition isHighSurrogate (c : N) : bool := ((55296 <=? c) && (c <=? 56319))%N.
Definition isLowSurrogate (c : N) : bool := ((56320 <=? c) && (c <=? 57343))%N.

(** The characters [for (const char of newChars)] visits: code points. *)
Fixpoint codePoints (s : jsstring) : list jsstring :=
  match s with
  | [] => []
  | c :: s' =>
    match s' with
    | d :: s'' =>
      if isHighSurrogate c && isLowSurrogate d
      then [c; d] :: codePoints s''
      else [c] :: codePoints s'
    | [] => [[c]]
    end
  end.

(** The callback given to [platform.observeChanges]. *)
Definition onTextChanged (text : jsstring) (w : world) : world :=
  let w := set_promptText text w in
  let w :=
    if (length (previousTextForTracking w) <? length text)%nat
    then
      let newChars := drop (length (previousTextForTracking w)) text in
      if isTrackerActive w
      then resetInactivityTimer
             (foldl (λ w c, trackKeystroke c w) w (codePoints newChars))
      else w
    else w in
  set_previousTextForTracking text w.

(** [handleKeyboardShortcut] on Cmd+Shift+S or Ctrl+Shift+S. *)
Definition handleKeyboardShortcut (w : world) : world :=
  if isTrackerActive w then forceTrigger w else w.

(** *** The platform detectors

    The text the callback of [observeChanges] receives is the result of
    [extractPromptText], which reads
    [input.textContent?.trim() || input.value?.trim() || ''] on the input
    element found and [''] when there is none, in every detector. *)

(** The input element: its [textContent] and its [value], [None] standing
    for [null] and [undefined]. *)
Record input_element : Type := {
  textContent : option jsstring;
  value : option jsstring }.

(** [a || b] on strings, [a] possibly [undefined]: [b] when [a] is
    [undefined] or empty. *)
Definition or_else (a : option jsstring) (b : jsstring) : jsstring :=
  match a with
  | Some ((_ :: _) as s) => s
  | _ => b
  end.

Definition extractPromptText (input : option input_element) : jsstring :=
  match input with
  | None => []
  | Some input =>
    or_else (trim <$> textContent input) (or_else (trim <$> value input) [])
  end.

(** *** The event loop *)

(** What can happen to the page: time passes, a pending timer whose time
    has come fires, the monitored field changes, the user asks for an
    assessment (panel button or keyboard shortcut), an input method opens
    or closes a composition. *)
Inductive event : Type :=
  | EvAdvance (dt : N)
  | EvFire (id : positive)
  | EvTextChanged (text : jsstring)
  | EvAssessClick
  | EvShortcut
  | EvSetComposing (b : bool).

Definition find_timer (id : positive) (w : world) : option timer :=
  snd <$> list_find (λ t, tid t = id) (timers w).

(** A timer fires: a timeout leaves the pending timers, an interval is
    scheduled again one period later; then its callback runs.  A timer that
    is not pending, or whose time has not come, does not fire. *)
Definition fire (id : positive) (w : world) : world :=
  match find_timer id w with
  | Some t =>
    if (due t <=? clock w)%Z
    then
      let w :=
        match repeat t with
        | Some period =>
          set_timers ((λ t', if bool_decide (tid t' = id)
                             then {| tid := id; due := (clock w + period)%Z;
                                     repeat := repeat t'; action := action t' |}
                             else t') <$> timers w) w
        | None => clearTimeout id w
        end in
      run_action (action t) w
    else w
  | None => w
  end.

Definition step (e : event) (w : world) : world :=
  match e with
  | EvAdvance dt => set_clock (clock w + Z.of_N dt)%Z w
  | EvFire id => fire id w
  | EvTextChanged text => onTextChanged text w
  | EvAssessClick => handleAssess None w
  | EvShortcut => handleKeyboardShortcut w
  | EvSetComposing b => setComposing b w
  end.

Definition run (evs : list event) (w : world) : world :=
  foldl (λ w e, step e w) w evs.

(** [new VelocityTracker(cfg)]. *)
Definition new_tracker (cfg : VelocityConfig) : VelocityTracker := {|
  config := cfg;
  charTimestamps := [];
  currentState := STOPPED;
  previousState := STOPPED;
  countdownTimer := None;
  sampleTimer := None;
  isComposing := false;
  lastAssessedText := [];
  lastAssessmentTime := 0;
  triggerCallback := false;
  stateChangeCallback := false;
  getCurrentText := false |}.

(** The page once [App] is mounted at time [now], before any event. *)
Definition init (now : Z) : world := {|
  clock := now;
  nextTimer := 1;
  timers := [];
  out := [];
  tracker := new_tracker DEFAULT_CONFIG;
  promptText := [];
  previousTextForTracking := [];
  isTrackerActive := false;
  inactivityTimer := None;
  velocityPollTimer := None;
  typingVelocity := 0 |}.

(** The pages an execution can reach. *)
Inductive reachable (now : Z) : world → Prop :=
  | reachable_init : reachable now (init now)
  | reachable_step e w : reachable now w → reachable now (step e w).

(** An event as the program produces it: a change of the text carries a
    result of [extractPromptText]. *)
Definition delivered (e : event) : Prop :=
  match e with
  | EvTextChanged text => ∃ input, text = extractPromptText input
  | _ => True
  end.

(** The pages an execution of the program can reach: the text comes from a
    platform detector. *)
Inductive observed (now : Z) : world → Prop :=
  | observed_init : observed now (init now)
  | observed_step e w : observed now w → delivered e → observed now (step e w).

(** The texts [onTrigger] was called with, oldest first. *)
Definition triggers (w : world) : list jsstring :=
  omap (λ o, match o with OutTrigger text => Some text | _ => None end) (out w).

End Engine.

(** ** Invariants and observations *)

(** The table has [m + 1] rows of [n + 1] cells. *)
Definition table_wf (m n : nat) (dp : table) : Prop :=
  length dp = S m ∧ Forall (λ r, length r = S n) dp.

(** What cell [(i, j)] of the table is to hold: the recurrence on the
    reversed prefixes of lengths [i] and [j]. *)
Definition cell_spec (str1 str2 : jsstring) (i j : nat) : nat :=
  lev (reverse (take i str1)) (reverse (take j str2)).

(** Last-Sent Text and Last-Sent Timestamp. *)
Definition last_sent (w : world) : list N * Z :=
  (lastAssessedText (tracker w), lastAssessmentTime (tracker w)).

(** The text accessor is registered only together with [onTrigger]. *)
Definition cb_ok (w : world) : Prop :=
  getCurrentText (tracker w) = true → triggerCallback (tracker w) = true.

(** The registered callbacks stay, or [start] registers them. *)
Definition flags_rel (w w' : world) : Prop :=
  (getCurrentText (tracker w') = getCurrentText (tracker w)
   ∧ triggerCallback (tracker w') = triggerCallback (tracker w))
  ∨ (getCurrentText (tracker w') = true ∧ triggerCallback (tracker w') = true).

(** A handler that forwards nothing to the trigger consumer. *)
Record same (w w' : world) : Prop := {
  same_clock : clock w' = clock w;
  same_promptText : promptText w' = promptText w;
  same_config : config (tracker w') = config (tracker w);
  same_flags : flags_rel w w';
  same_buffer : charTimestamps (tracker w') = charTimestamps (tracker w);
  same_sent : last_sent w' = last_sent w;
  same_triggers : triggers w' = triggers w }.

(** A handler that forwards [text] to the trigger consumer, once. *)
Record forwards (text : list N) (w w' : world) : Prop := {
  fw_clock : clock w' = clock w;
  fw_promptText : promptText w' = promptText w;
  fw_config : config (tracker w') = config (tracker w);
  fw_flags : flags_rel w w';
  fw_buffer : charTimestamps (tracker w') = charTimestamps (tracker w);
  fw_sent : last_sent w' = (text, clock w);
  fw_triggers : triggers w' = triggers w ++ [text] }.

(** What one event does to the Last-Sent pair and to the trigger consumer:
    nothing, or one forward together with the update of both. *)
Definition sent_step (w w' : world) : Prop :=
  (last_sent w' = last_sent w ∧ triggers w' = triggers w)
  ∨ ∃ text, last_sent w' = (text, clock w) ∧ triggers w' = triggers w ++ [text].

(** Timer handles are fresh and pairwise distinct. *)
Definition timers_ok (w : world) : Prop :=
  Forall (λ t, (tid t < nextTimer w)%positive) (timers w)
  ∧ NoDup (tid <$> timers w).

(** The Recent-History Buffer respects its cap. *)
Definition buffer_ok (w : world) : Prop :=
  length (charTimestamps (tracker w)) ≤ charBufferSize (config (tracker w)).

(** The handle held in [inactivityTimerRef] is the only inactivity timer
    that can be pending. *)
Definition inactivity_ok (w : world) : Prop :=
  ∀ t, t ∈ timers w → is_inactivity t = true → inactivityTimer w = Some (tid t).

(** What one event does: time does not go back, the configuration and the
    registered callbacks stay, and the Last-Sent pair moves only with a
    forward. *)
Record step_rel (w w' : world) : Prop := {
  sr_clock : (clock w ≤ clock w')%Z;
  sr_config : config (tracker w') = config (tracker w);
  sr_flags : flags_rel w w';
  sr_sent : sent_step w w' }.

Definition tm_ok (w : world) : Prop := timers_ok w ∧ inactivity_ok w.

(** Since [w0] the page has only issued fresh handles: a pending timer of
    [w], and the countdown handle [w] holds, is one of [w0] or was issued
    after [w0]. *)
Definition grows (w0 w : world) : Prop :=
  (nextTimer w0 ≤ nextTimer w)%positive
  ∧ (∀ t, t ∈ timers w →
       (∃ t0, t0 ∈ timers w0 ∧ tid t0 = tid t)
       ∨ (nextTimer w0 ≤ tid t < nextTimer w)%positive)
  ∧ (∀ id, countdownTimer (tracker w) = Some id →
       countdownTimer (tracker w0) = Some id
       ∨ (nextTimer w0 ≤ id < nextTimer w)%positive).

(** Handle [id] was issued and is pending no more. *)
Definition retired (id : positive) (w : world) : Prop :=
  (id < nextTimer w)%positive ∧ ∀ t, t ∈ timers w → tid t ≠ id.

Record Inv (w : world) : Prop := {
  inv_config : config (tracker w) = DEFAULT_CONFIG;
  inv_cb : cb_ok w;
  inv_timers : timers_ok w;
  inv_buffer : buffer_ok w;
  inv_inactivity : inactivity_ok w }.

(** ** Proof automation *)

(** Case analysis on a page: all its fields, and those of its tracker. *)
Ltac wdestruct w :=
  destruct w as [?clk ?nxt ?tms ?o [?cfg ?buf ?cs ?ps ?ct ?st ?ic ?lt ?la ?tc ?sc ?gt]
                 ?p ?pv ?act ?it ?vt ?tv].

(** Goals of the form [same w w'] once the page is a constructor. *)
Ltac same_solve := split; simpl; try done; try (by left); try (by right).
Ltac same_prim w := wdestruct w; same_solve.

(** Preservation of the timer invariant, from the lemmas in database [tm]. *)
Create HintDb tm discriminated.
Ltac tm_solve := cbv beta iota zeta; repeat case_match; eauto 12 with tm.

(** Freshness of the handles issued, from the lemmas in database [gr]. *)
Create HintDb gr discriminated.
Ltac gr_solve := cbv beta iota zeta; repeat case_match; eauto 12 with gr.

(** The cases of the gate, each an arithmetic or propositional triviality. *)
Ltac gate_case :=
  repeat split; intros; try done; try lia; intuition (lia || congruence || done).

(** Unfolding of the definitions that take the runtime's [toLowerCase]. *)
Ltac unfold_gate := unfold passesPreFilters, preFilterFailure.
Ltac unfold_gate_in H := unfold passesPreFilters, preFilterFailure in H.
Ltac unfold_isThrowaway := unfold isThrowaway.
Ltac unfold_countdownExpiry := unfold countdownExpiry.
Ltac unfold_fire := unfold fire.

(** ** Scenarios *)

(** [toLowerCase] on strings of the Basic Latin block. *)
Definition toLowerCase_basic_latin (s : list N) : list N := lower_basic_latin <$> s.

(** A moment of the page's life, in milliseconds since the epoch. *)
Definition epoch : Z := 1700000000000.

(** A draft the user has typed into the monitored field. *)
Definition draft : list N := lit "How do I sort a list.".

(** ['testing'] padded with three trailing spaces to raw length 10. *)
Definition testing_padded : list N := lit "testing   ".

(** The user types [draft] and asks for an assessment by hand: the engine
    is activated. *)
Definition activation_trace : list event := [EvTextChanged draft; EvAssessClick].

(** The scenarios below list the events that matter to the tracker, with
    the handle of each timer that fires.  The velocity poll and the midpoint
    ticks, which only feed the display, are left pending; times are in
    milliseconds after [epoch].

    After activation the user types a character and pauses: the classifier
    reaches [STOPPED] (at 1500) and schedules grace check 5 (for 3000). *)
Definition stopped_once_trace : list event :=
  activation_trace ++
  [ EvAdvance 100; EvTextChanged (draft ++ lit " ");
    EvAdvance 400; EvFire 1;            (* sample: EDITING *)
    EvAdvance 500; EvFire 1;
    EvAdvance 500; EvFire 1 ].          (* sample: STOPPED, grace check 5 *)

(** Three milliseconds later the user types one more character: the next
    sample (at 2001) leaves [STOPPED], during the grace period. *)
Definition left_stopped_trace : list event :=
  stopped_once_trace ++
  [ EvAdvance 3; EvTextChanged (draft ++ lit " W");
    EvAdvance 498; EvFire 1 ].          (* sample: EDITING *)

(** The user pauses again: the classifier re-enters [STOPPED] (at 2504,
    grace check 7 for 4004) while grace check 5 is still pending. *)
Definition stopped_again_trace : list event :=
  left_stopped_trace ++
  [ EvAdvance 503; EvFire 1 ].          (* sample: STOPPED, grace check 7 *)

(** Grace check 5 comes due and fires (at 3001): it arms countdown 9,
    due at 11001. *)
Definition stale_grace_trace : list event :=
  stopped_again_trace ++
  [ EvAdvance 497; EvFire 5;            (* grace check 5: arms countdown 9 *)
    EvAdvance 3; EvFire 1 ].

(** Then grace check 7 fires too (at 4004) and arms countdown 11. *)
Definition two_countdowns_trace : list event :=
  stale_grace_trace ++
  [ EvAdvance 500; EvFire 1;
    EvAdvance 500; EvFire 1; EvFire 7 ]. (* grace check 7: arms countdown 11 *)

(** The user resumes typing (at 4104); the classifier leaves [STOPPED]
    (at 4504). *)
Definition resumed_trace : list event :=
  two_countdowns_trace ++
  [ EvAdvance 100; EvTextChanged (draft ++ lit " Wh");
    EvAdvance 400; EvFire 1 ].          (* sample: EDITING, cancelCountdown *)

(** The user pauses again (the classifier is back in [STOPPED] at 5504);
    countdown 9 comes due. *)
Definition late_trigger_trace : list event :=
  resumed_trace ++
  [ EvAdvance 500; EvFire 1;
    EvAdvance 500; EvFire 1;            (* sample: STOPPED, grace check 13 *)
    EvAdvance 1500; EvFire 13;          (* grace check 13: arms countdown 15 *)
    EvAdvance 4000 ].                   (* countdown 9 is due *)

(** After activation the field is emptied and ['testing   '] is typed. *)
Definition testing_trace : list event :=
  activation_trace ++ [EvTextChanged []; EvTextChanged testing_padded].

(** One keystroke, then samples until it is older than the lookback. *)
Definition old_entry_trace : list event :=
  activation_trace ++
  [ EvAdvance 100; EvTextChanged (draft ++ lit " ");
    EvAdvance 400; EvFire 1;
    EvAdvance 500; EvFire 1;
    EvAdvance 500; EvFire 1 ].

(** ** Further invariants and scenarios *)

(** The pending timers that are sampling intervals, and velocity polls. *)
Definition is_sample (t : timer) : bool :=
  match action t with TSample => true | _ => false end.
Definition is_poll (t : timer) : bool :=
  match action t with TVelocityPoll => true | _ => false end.
Definition active_samples (w : world) : list timer :=
  filter (λ t, is_sample t = true) (timers w).
Definition active_polls (w : world) : list timer :=
  filter (λ t, is_poll t = true) (timers w).

(** A sampling interval is pending only under the handle the tracker
    holds, a velocity poll only under the handle [App] holds, and while the
    engine is inactive neither handle is held. *)
Definition intervals_ok (w : world) : Prop :=
  (∀ t, t ∈ timers w → is_sample t = true → sampleTimer (tracker w) = Some (tid t))
  ∧ (∀ t, t ∈ timers w → is_poll t = true → velocityPollTimer w = Some (tid t))
  ∧ (isTrackerActive w = false →
     sampleTimer (tracker w) = None ∧ velocityPollTimer w = None).

(** The default configuration, states other than [REVIEWING], and the
    discipline of the two intervals. *)
Record Kinv (w : world) : Prop := {
  k_config : config (tracker w) = DEFAULT_CONFIG;
  k_current : currentState (tracker w) ≠ REVIEWING;
  k_previous : previousState (tracker w) ≠ REVIEWING;
  k_intervals : intervals_ok w }.

Create HintDb kinv discriminated.
Ltac kinv_solve := cbv beta iota zeta; repeat case_match; eauto 12 with kinv.

(** The arrival times in the buffer are not in the future. *)
Definition stamps_ok (w : world) : Prop :=
  Forall (λ e, (timestamp e ≤ clock w)%Z) (charTimestamps (tracker w)).

(** The events by which the user or the clock acts on the page, as opposed
    to a timer firing or a request for an assessment. *)
Definition is_input (e : event) : bool :=
  match e with
  | EvAdvance _ | EvTextChanged _ | EvShortcut | EvSetComposing _ => true
  | EvFire _ | EvAssessClick => false
  end.

(** The entries [onTextChanged] hands to [trackKeystroke], one for each
    character of the text beyond the length of the previous text. *)
Definition new_entries (text : list N) (w : world) : list CharTimestamp :=
  (λ c, {| char := c; timestamp := clock w |})
    <$> codePoints (drop (length (previousTextForTracking w)) text).

(** The values the state-change consumer receives. *)
Definition is_state_change (o : output) : bool :=
  match o with OutStateChange _ _ => true | _ => false end.

(** The arrival of a change of the monitored text. *)
Definition is_text_change (e : event) : bool :=
  match e with EvTextChanged _ => true | _ => false end.

(** A handler that hands the values [os] to the consumers, in this order:
    no state-change consumer being registered before, none is afterwards,
    and the displayed velocity is left alone or set to at most 10. *)
Definition says (os : list output) (w w' : world) : Prop :=
  stateChangeCallback (tracker w) = false →
  stateChangeCallback (tracker w') = false
  ∧ out w' = out w ++ os
  ∧ (typingVelocity w' = typingVelocity w ∨ typingVelocity w' ≤ 10).

(** What [onTrigger] hands on for a text: the text to the trigger consumer,
    then the request for its assessment. *)
Definition forwarded (text : list N) : list output :=
  [OutTrigger text; OutAssess text].

(** No state-change consumer is registered and none has received a value;
    the arrival times in the buffer are not in the future; the displayed
    velocity is at most 10. *)
Record Vinv (w : world) : Prop := {
  v_callback : stateChangeCallback (tracker w) = false;
  v_out : Forall (λ o, is_state_change o = false) (out w);
  v_stamps : stamps_ok w;
  v_shown : typingVelocity w ≤ 10 }.

Create HintDb says discriminated.
Ltac says_solve := cbv beta iota zeta; repeat case_match; eauto 12 with says.

(** The inactivity timer [resetInactivityTimer] arms at time [now] under
    handle [id]. *)
Definition inactivity_timer (id : positive) (now : Z) : timer :=
  {| tid := id; due := now + 15 * 60 * 1000; repeat := None; action := TInactivity |}.

(** The one pending inactivity timer was armed at time [now], and [App]
    holds its handle. *)
Definition rearmed (now : Z) (w : world) : Prop :=
  ∃ id, active_inactivity w = [inactivity_timer id now]
        ∧ inactivityTimer w = Some id.

(** A handler that does not deactivate the engine. *)
Definition stays (w w' : world) : Prop :=
  isTrackerActive w = true → isTrackerActive w' = true.

Create HintDb stays discriminated.
Ltac stays_solve := cbv beta iota zeta; repeat case_match; eauto 12 with stays.

(** After activation the user types one character. *)
Definition keystroke_trace : list event :=
  activation_trace ++ [EvAdvance 100; EvTextChanged (draft ++ lit " ")].

(** Two countdowns are pending and the user has resumed typing 400 ms ago;
    the next sample is about to run. *)
Definition typing_resumed_trace : list event :=
  two_countdowns_trace ++
  [EvAdvance 100; EvTextChanged (draft ++ lit " Wh"); EvAdvance 400].

(** After activation nothing happens for 15 minutes. *)
Definition idle_trace : list event := activation_trace ++ [EvAdvance 900000].

(** The countdown that was left pending has fired. *)
Definition triggered_trace : list event := late_trigger_trace ++ [EvFire 9].

(** The grace-period check [onStateChange] schedules at time [now] under
    handle [id]. *)
Definition grace_timer (id : positive) (now : Z) : timer :=
  {| tid := id; due := now + 1500; repeat := None; action := TGrace |}.

(** One keystroke after activation, two samples, and 1400 ms of silence:
    the next sample is about to run. *)
Definition pause_trace : list event :=
  keystroke_trace ++
  [ EvAdvance 400; EvFire 1;
    EvAdvance 500; EvFire 1;
    EvAdvance 500 ].

(** * Properties *)

(** ** Edit scripts and the recurrence *)

Section EditDistanceFacts.
Context {A : Type} `{EqDecision A}.
Implicit Types a b : list A.

Lemma lev_nil_l b : lev [] b = length b.
Proof. done. Qed.

Lemma lev_nil_r a : lev a [] = length a.
Proof. by destruct a. Qed.

Lemma lev_cons x y a b :
  lev (x :: a) (y :: b) =
    if decide (x = y) then lev a b
    else min3 (lev a (y :: b)) (lev (x :: a) b) (lev a b) + 1.
Proof. done. Qed.

Lemma es_insert_all b : edit_script [] b (length b).
Proof. induction b; simpl; by constructor. Qed.

Lemma es_delete_all a : edit_script a [] (length a).
Proof. induction a; simpl; by constructor. Qed.

Lemma es_refl a : edit_script a a 0.
Proof. induction a; by constructor. Qed.

(** A script changes the length by at most its cost. *)
Lemma es_length a b n :
  edit_script a b n → length b ≤ length a + n ∧ length a ≤ length b + n.
Proof. induction 1; simpl; lia. Qed.

(** Dropping the first character of the target, or of the source, costs at
    most one more edit. *)
Lemma es_drop_r a y b n :
  edit_script a (y :: b) n → ∃ n', n' ≤ S n ∧ edit_script a b n'.
Proof.
  intros Hs. remember (y :: b) as yb eqn:E.
  revert y b E. induction Hs as [|x a b0 n Hs IH|x y0 a b0 n Hs IH
                                |x a b0 n Hs IH|y0 a b0 n Hs IH]; intros y b E.
  - discriminate.
  - injection E as -> ->. exists (S n). split; [lia|by constructor].
  - injection E as -> ->. exists (S n). split; [lia|by constructor].
  - destruct (IH y b E) as (n' & Hle & Hs'). exists (S n').
    split; [lia|by constructor].
  - injection E as -> ->. exists n. split; [lia|done].
Qed.

Lemma es_drop_l x a b n :
  edit_script (x :: a) b n → ∃ n', n' ≤ S n ∧ edit_script a b n'.
Proof.
  intros Hs. remember (x :: a) as xa eqn:E.
  revert x a E. induction Hs as [|x0 a0 b n Hs IH|x0 y a0 b n Hs IH
                                |x0 a0 b n Hs IH|y a0 b n Hs IH]; intros x a E.
  - discriminate.
  - injection E as -> ->. exists (S n). split; [lia|by constructor].
  - injection E as -> ->. exists (S n). split; [lia|by constructor].
  - injection E as -> ->. exists n. split; [lia|done].
  - destruct (IH x a E) as (n' & Hle & Hs'). exists (S n').
    split; [lia|by constructor].
Qed.

(** The recurrence is the cost of a script ... *)
Lemma lev_sound a b : edit_script a b (lev a b).
Proof.
  revert b. induction a as [|x a IHa]; intros b.
  { rewrite lev_nil_l. apply es_insert_all. }
  induction b as [|y b IHb].
  { rewrite lev_nil_r. apply es_delete_all. }
  rewrite lev_cons. destruct (decide (x = y)) as [->|Hne].
  { by constructor. }
  unfold min3. rewrite Nat.add_1_r.
  destruct (Nat.min_spec (lev a (y :: b)) (lev (x :: a) b)) as [[_ ->]|[_ ->]].
  - destruct (Nat.min_spec (lev a (y :: b)) (lev a b)) as [[_ ->]|[_ ->]].
    + by apply es_delete.
    + by apply es_subst.
  - destruct (Nat.min_spec (lev (x :: a) b) (lev a b)) as [[_ ->]|[_ ->]].
    + by apply es_insert.
    + by apply es_subst.
Qed.

(** ... and no script is cheaper. *)
Lemma lev_min a b n : edit_script a b n → lev a b ≤ n.
Proof.
  remember (length a + length b) as s eqn:Hs.
  revert a b n Hs. induction (lt_wf s) as [s _ IH].
  intros a b n -> Hes.
  destruct a as [|x a].
  { rewrite lev_nil_l. apply es_length in Hes. simpl in Hes. lia. }
  destruct b as [|y b].
  { rewrite lev_nil_r. apply es_length in Hes. simpl in *. lia. }
  assert (Hsmall : ∀ a' b' n', length a' + length b' < length (x :: a) + length (y :: b) →
            edit_script a' b' n' → lev a' b' ≤ n').
  { intros a' b' n' Hlt Hes'. by eapply IH. }
  rewrite lev_cons. destruct (decide (x = y)) as [->|Hne].
  - inversion Hes as [|x0 a0 b0 n0 Hes'|x0 y0 a0 b0 n0 Hes'
                      |x0 a0 b0 n0 Hes'|y0 a0 b0 n0 Hes']; subst.
    + apply Hsmall; [simpl; lia|done].
    + etrans; [apply Hsmall; [simpl; lia|done]|lia].
    + destruct (es_drop_r _ _ _ _ Hes') as (n' & Hle & Hes'').
      etrans; [apply Hsmall; [simpl; lia|done]|lia].
    + destruct (es_drop_l _ _ _ _ Hes') as (n' & Hle & Hes'').
      etrans; [apply Hsmall; [simpl; lia|done]|lia].
  - unfold min3.
    inversion Hes as [|x0 a0 b0 n0 Hes'|x0 y0 a0 b0 n0 Hes'
                      |x0 a0 b0 n0 Hes'|y0 a0 b0 n0 Hes']; subst.
    + done.
    + assert (lev a b ≤ n0) by (apply Hsmall; [simpl; lia|done]). lia.
    + assert (lev a (y :: b) ≤ n0) by (apply Hsmall; [simpl; lia|done]). lia.
    + assert (lev (x :: a) b ≤ n0) by (apply Hsmall; [simpl; lia|done]). lia.
Qed.

Lemma lev_is_edit_distance a b : is_edit_distance a b (lev a b).
Proof. split; [apply lev_sound|apply lev_min]. Qed.

(** An edit distance is unique. *)
Lemma is_edit_distance_unique a b d1 d2 :
  is_edit_distance a b d1 → is_edit_distance a b d2 → d1 = d2.
Proof.
  intros [Hs1 Hm1] [Hs2 Hm2]. apply Hm1 in Hs2. apply Hm2 in Hs1. lia.
Qed.

(** Scripts compose along concatenation and survive reversal. *)
Lemma es_app a b n c d m :
  edit_script a b n → edit_script c d m → edit_script (a ++ c) (b ++ d) (n + m).
Proof. induction 1; intros; simpl; [done|constructor; auto..]. Qed.

Lemma es_reverse a b n : edit_script a b n → edit_script (reverse a) (reverse b) n.
Proof.
  induction 1 as [|x a b n _ IH|x y a b n _ IH|x a b n _ IH|y a b n _ IH];
    rewrite ?reverse_cons.
  - constructor.
  - replace n with (n + 0) by lia. apply es_app; [done|apply es_refl].
  - replace (S n) with (n + 1) by lia.
    apply es_app; [done|]. apply es_subst, es_nil.
  - replace (S n) with (n + 1) by lia. rewrite <-(app_nil_r (reverse b)).
    apply es_app; [done|]. apply es_delete, es_nil.
  - replace (S n) with (n + 1) by lia. rewrite <-(app_nil_r (reverse a)).
    apply es_app; [done|]. apply es_insert, es_nil.
Qed.

Lemma is_edit_distance_reverse a b d :
  is_edit_distance (reverse a) (reverse b) d → is_edit_distance a b d.
Proof.
  intros [Hs Hm]. split.
  - apply es_reverse in Hs. by rewrite !reverse_involutive in Hs.
  - intros n Hn. by apply Hm, es_reverse.
Qed.

(** Substituting along the common length and then deleting or inserting the
    rest is a script of cost [max (length a) (length b)]. *)
Lemma es_max a b : ∃ n, n ≤ length a `max` length b ∧ edit_script a b n.
Proof.
  revert b. induction a as [|x a IH]; intros b.
  { exists (length b). split; [simpl; lia|apply es_insert_all]. }
  destruct b as [|y b].
  { exists (length (x :: a)). split; [simpl; lia|apply es_delete_all]. }
  destruct (IH b) as (n & Hle & Hs). exists (S n).
  split; [simpl; lia|by constructor].
Qed.

Lemma is_edit_distance_max a b d :
  is_edit_distance a b d → d ≤ length a `max` length b.
Proof.
  intros [_ Hm]. destruct (es_max a b) as (n & Hle & Hs). apply Hm in Hs. lia.
Qed.

Lemma is_edit_distance_same a d : is_edit_distance a a d → d = 0.
Proof. intros [_ Hm]. specialize (Hm 0 (es_refl a)). lia. Qed.

End EditDistanceFacts.

(** ** The table of [levenshteinDistance] *)

Section Table.
Implicit Types dp : table.

Lemma for_loop_ind {S : Type} (P : nat → S → Prop) lo cnt body (s : S) :
  P lo s →
  (∀ k s, lo ≤ k < lo + cnt → P k s → P (Datatypes.S k) (body k s)) →
  P (lo + cnt) (for_loop lo cnt body s).
Proof.
  unfold for_loop. induction cnt as [|cnt IH]; intros H0 Hstep.
  { by rewrite Nat.add_0_r. }
  rewrite seq_S, foldl_app, Nat.add_succ_r. simpl.
  apply Hstep; [lia|]. apply IH; [done|].
  intros k s' Hk. apply Hstep. lia.
Qed.

Lemma dp_alloc_wf m n : table_wf m n (dp_alloc m n).
Proof.
  split; [apply length_replicate|].
  apply Forall_replicate, length_replicate.
Qed.

Lemma dp_set_wf m n dp i j v : table_wf m n dp → table_wf m n (dp_set dp i j v).
Proof.
  intros [Hlen Hrows]. unfold dp_set. split; [by rewrite length_alter|].
  apply Forall_alter; [done|]. intros r _ Hr. by rewrite length_insert.
Qed.

Lemma dp_get_set_eq m n dp i j v :
  table_wf m n dp → i ≤ m → j ≤ n → dp_get (dp_set dp i j v) i j = v.
Proof.
  intros [Hlen Hrows] Hi Hj. unfold dp_get, dp_set.
  rewrite list_lookup_alter_eq.
  destruct (lookup_lt_is_Some_2 dp i) as [r Hr]; [lia|].
  rewrite Hr. simpl.
  rewrite Forall_lookup in Hrows. specialize (Hrows _ _ Hr). simpl in Hrows.
  rewrite list_lookup_insert_eq by lia. done.
Qed.

Lemma dp_get_set_ne dp i j v i' j' :
  i ≠ i' ∨ j ≠ j' → dp_get (dp_set dp i j v) i' j' = dp_get dp i' j'.
Proof.
  intros Hne. unfold dp_get, dp_set.
  destruct (decide (i = i')) as [<-|Hi].
  - rewrite list_lookup_alter_eq. destruct (dp !! i) as [r|]; [simpl|done].
    destruct Hne as [?|?]; [done|]. by rewrite list_lookup_insert_ne.
  - by rewrite list_lookup_alter_ne.
Qed.

Variables str1 str2 : jsstring.

Local Abbreviation cell_spec := (cell_spec str1 str2).

Lemma cell_spec_0_r i : i ≤ length str1 → cell_spec i 0 = i.
Proof.
  intros Hi. unfold cell_spec. rewrite take_0, reverse_nil, lev_nil_r.
  by rewrite length_reverse, length_take_le.
Qed.

Lemma cell_spec_0_l j : j ≤ length str2 → cell_spec 0 j = j.
Proof.
  intros Hj. unfold cell_spec. rewrite take_0, reverse_nil, lev_nil_l.
  by rewrite length_reverse, length_take_le.
Qed.

Lemma cell_spec_step i j x y :
  str1 !! i = Some x → str2 !! j = Some y →
  cell_spec (S i) (S j) =
    if decide (x = y) then cell_spec i j
    else min3 (cell_spec i (S j)) (cell_spec (S i) j) (cell_spec i j) + 1.
Proof.
  intros Hx Hy. unfold cell_spec.
  rewrite (take_S_r _ _ _ Hx), (take_S_r _ _ _ Hy), !reverse_snoc.
  apply lev_cons.
Qed.

(** The body of the inner loop computes [cell_spec] from cells that hold
    theirs. *)
Lemma dp_cell_spec dp i j :
  1 ≤ i ≤ length str1 → 1 ≤ j ≤ length str2 →
  dp_get dp (i - 1) (j - 1) = cell_spec (i - 1) (j - 1) →
  dp_get dp (i - 1) j = cell_spec (i - 1) j →
  dp_get dp i (j - 1) = cell_spec i (j - 1) →
  dp_cell str1 str2 dp i j = cell_spec i j.
Proof.
  intros Hi Hj. destruct i as [|i]; [lia|]. destruct j as [|j]; [lia|].
  replace (S i - 1) with i by lia. replace (S j - 1) with j by lia.
  intros Hd Hu Hl. unfold dp_cell.
  replace (S i - 1) with i by lia. replace (S j - 1) with j by lia.
  rewrite Hd, Hu, Hl.
  destruct (lookup_lt_is_Some_2 str1 i) as [x Hx]; [lia|].
  destruct (lookup_lt_is_Some_2 str2 j) as [y Hy]; [lia|].
  rewrite (cell_spec_step _ _ _ _ Hx Hy), Hx, Hy.
  destruct (decide (x = y)) as [->|Hne].
  - by rewrite bool_decide_eq_true_2.
  - rewrite bool_decide_eq_false_2; [done|congruence].
Qed.

(** After the loops every cell holds the value of the recurrence. *)
Lemma dp_fill_spec i j :
  i ≤ length str1 → j ≤ length str2 →
  dp_get (dp_fill str1 str2) i j = cell_spec i j.
Proof.
  set (m := length str1). set (n := length str2).
  (* first column *)
  assert (H1 : ∃ dp, dp = for_loop 0 (S m) (λ i dp, dp_set dp i 0 i) (dp_alloc m n)
             ∧ table_wf m n dp ∧ ∀ i, i < 0 + S m → dp_get dp i 0 = i).
  { eexists. split; [done|].
    apply (for_loop_ind (λ k dp, table_wf m n dp ∧ ∀ i, i < k → dp_get dp i 0 = i)).
    - split; [apply dp_alloc_wf|]. lia.
    - intros k dp Hk [Hwf Hcol]. split; [by apply dp_set_wf|].
      intros i' Hi'. destruct (decide (i' = k)) as [->|Hne].
      + eapply dp_get_set_eq; [done|lia..].
      + rewrite dp_get_set_ne by lia. apply Hcol. lia. }
  destruct H1 as (dp1 & E1 & Hwf1 & Hcol1).
  (* first row *)
  assert (H2 : ∃ dp, dp = for_loop 0 (S n) (λ j dp, dp_set dp 0 j j) dp1
             ∧ table_wf m n dp ∧ (∀ i, i ≤ m → dp_get dp i 0 = i)
             ∧ ∀ j, j < 0 + S n → dp_get dp 0 j = j).
  { eexists. split; [done|].
    apply (for_loop_ind (λ k dp, table_wf m n dp ∧ (∀ i, i ≤ m → dp_get dp i 0 = i)
                                  ∧ ∀ j, j < k → dp_get dp 0 j = j)).
    - split; [done|]. split; [|lia]. intros i' Hi'. apply Hcol1. lia.
    - intros k dp Hk (Hwf & Hcol & Hrow). split; [by apply dp_set_wf|]. split.
      + intros i' Hi'. destruct (decide (i' = 0 ∧ k = 0)) as [[-> ->]|Hne].
        * eapply dp_get_set_eq; [done|lia..].
        * rewrite dp_get_set_ne by lia. by apply Hcol.
      + intros j' Hj'. destruct (decide (j' = k)) as [->|Hne].
        * eapply dp_get_set_eq; [done|lia..].
        * rewrite dp_get_set_ne by lia. apply Hrow. lia. }
  destruct H2 as (dp2 & E2 & Hwf2 & Hcol2 & Hrow2).
  (* the rows, one after the other *)
  assert (H3 : table_wf m n (dp_fill str1 str2)
             ∧ (∀ i, i ≤ m → dp_get (dp_fill str1 str2) i 0 = cell_spec i 0)
             ∧ ∀ i j, i < 1 + m → j ≤ n →
                 dp_get (dp_fill str1 str2) i j = cell_spec i j).
  { unfold dp_fill. fold m n. rewrite <-E1, <-E2.
    apply (for_loop_ind (λ k dp, table_wf m n dp
             ∧ (∀ i, i ≤ m → dp_get dp i 0 = cell_spec i 0)
             ∧ ∀ i j, i < k → j ≤ n → dp_get dp i j = cell_spec i j)).
    - split; [done|]. split.
      + intros i' Hi'. rewrite cell_spec_0_r by done. by apply Hcol2.
      + intros i' j' Hi' Hj'. replace i' with 0 by lia.
        rewrite cell_spec_0_l by done. apply Hrow2. lia.
    - intros k dp Hk (Hwf & Hcol & Hrows).
      assert (Hin : let dp' := for_loop 1 n
                 (λ j dp, dp_set dp k j (dp_cell str1 str2 dp k j)) dp in
               table_wf m n dp'
               ∧ (∀ i, i ≤ m → dp_get dp' i 0 = cell_spec i 0)
               ∧ (∀ i j, i < k → j ≤ n → dp_get dp' i j = cell_spec i j)
               ∧ ∀ j, j < 1 + n → dp_get dp' k j = cell_spec k j).
      { apply (for_loop_ind (λ l dp', table_wf m n dp'
                 ∧ (∀ i, i ≤ m → dp_get dp' i 0 = cell_spec i 0)
                 ∧ (∀ i j, i < k → j ≤ n → dp_get dp' i j = cell_spec i j)
                 ∧ ∀ j, j < l → dp_get dp' k j = cell_spec k j)).
        - split; [done|]. split; [done|]. split; [done|].
          intros j' Hj'. replace j' with 0 by lia. apply Hcol. lia.
        - intros l dp' Hl (Hwf' & Hcol' & Hrows' & Hrow').
          split; [by apply dp_set_wf|]. split; [|split].
          + intros i' Hi'. rewrite dp_get_set_ne by lia. by apply Hcol'.
          + intros i' j' Hi' Hj'. rewrite dp_get_set_ne by lia. by apply Hrows'.
          + intros j' Hj'. destruct (decide (j' = l)) as [->|Hne].
            * erewrite dp_get_set_eq; [|done|lia..].
              apply dp_cell_spec; [lia|lia|..].
              -- apply Hrows'; lia.
              -- apply Hrows'; lia.
              -- apply Hrow'. lia.
            * rewrite dp_get_set_ne by lia. apply Hrow'. lia. }
      destruct Hin as (Hwf' & Hcol' & Hrows' & Hrow').
      split; [done|]. split; [done|].
      intros i' j' Hi' Hj'. destruct (decide (i' = k)) as [->|Hne].
      + apply Hrow'. lia.
      + apply Hrows'; lia. }
  intros Hi Hj. apply H3; lia.
Qed.

End Table.

(** [levenshteinDistance] is the recurrence on the reversed strings ... *)
Lemma levenshteinDistance_lev str1 str2 :
  levenshteinDistance str1 str2 = lev (reverse str1) (reverse str2).
Proof.
  unfold levenshteinDistance. rewrite dp_fill_spec by done.
  unfold cell_spec. by rewrite !take_ge.
Qed.

(** ... hence the cost of a cheapest edit script between the strings. *)
Lemma levenshteinDistance_is_edit_distance str1 str2 :
  is_edit_distance str1 str2 (levenshteinDistance str1 str2).
Proof.
  apply is_edit_distance_reverse. rewrite levenshteinDistance_lev.
  apply lev_is_edit_distance.
Qed.

(** ** Change distance *)

Lemma calculateChangePercent_empty text1 : calculateChangePercent text1 [] = 1%Q.
Proof. done. Qed.

Lemma calculateChangePercent_nonempty text1 text2 :
  text2 ≠ [] →
  calculateChangePercent text1 text2 =
    (inject_Z (Z.of_nat (levenshteinDistance text1 text2))
     / inject_Z (Z.of_nat (length text1 `max` length text2)))%Q.
Proof.
  intros Hne. destruct text2 as [|c text2]; [done|].
  unfold calculateChangePercent.
  destruct (Nat.ltb_spec 0 (length text1 `max` length (c :: text2))) as [_|Hle];
    [done|simpl in Hle; lia].
Qed.

Lemma Qdiv_nat_bounds (d m : nat) :
  d ≤ m → 0 < m →
  (0 <= inject_Z (Z.of_nat d) / inject_Z (Z.of_nat m) <= 1)%Q.
Proof.
  intros Hle Hpos.
  assert (Hm : (0 < inject_Z (Z.of_nat m))%Q).
  { replace 0%Q with (inject_Z 0) by done. rewrite <-Zlt_Qlt. lia. }
  split.
  - apply Qle_shift_div_l; [done|]. rewrite Qmult_0_l.
    replace 0%Q with (inject_Z 0) by done. rewrite <-Zle_Qle. lia.
  - apply Qle_shift_div_r; [done|]. rewrite Qmult_1_l, <-Zle_Qle. lia.
Qed.

Lemma calculateChangePercent_range text1 text2 :
  (0 <= calculateChangePercent text1 text2 <= 1)%Q.
Proof.
  destruct text2 as [|c text2]; [done|].
  rewrite calculateChangePercent_nonempty by done.
  apply Qdiv_nat_bounds; [|simpl; lia].
  apply is_edit_distance_max, levenshteinDistance_is_edit_distance.
Qed.

(** C4. The change-distance function returns a fraction between 0 and 1;
    it is the classic single-character edit distance (the cost of a
    cheapest script of insertions, deletions and substitutions, one each)
    divided by the larger of the two lengths, whenever that length is not
    zero; and it is exactly 1 whenever the second string is empty.  It is a
    function of its two arguments alone. *)
Theorem C4_change_distance (a b : list N) :
  ∃ d : nat,
    is_edit_distance a b d
    ∧ (0 <= calculateChangePercent a b <= 1)%Q
    ∧ (length a `max` length b ≠ 0 →
       (calculateChangePercent a b ==
          inject_Z (Z.of_nat d) / inject_Z (Z.of_nat (length a `max` length b)))%Q)
    ∧ (b = [] → calculateChangePercent a b = 1%Q).
Proof.
  exists (levenshteinDistance a b).
  split; [apply levenshteinDistance_is_edit_distance|].
  split; [apply calculateChangePercent_range|].
  split; [|by intros ->].
  intros Hmax. destruct b as [|c b].
  - (* the guard returns 1, and so does the quotient: the distance to the
       empty string is the length *)
    rewrite calculateChangePercent_empty.
    pose proof (levenshteinDistance_is_edit_distance a []) as Hd.
    assert (E : levenshteinDistance a [] = length a).
    { eapply is_edit_distance_unique; [done|].
      rewrite <-(lev_nil_r a). apply lev_is_edit_distance. }
    rewrite E. simpl in *. rewrite Nat.max_0_r in *.
    symmetry. apply Qmult_inv_r.
    replace 0%Q with (inject_Z 0) by done. rewrite inject_Z_injective. lia.
  - by rewrite calculateChangePercent_nonempty.
Qed.

(** C5, amended.  For every non-empty string [a] the change distance from
    [a] to itself is 0; for every string [a], the empty one included, the
    change distance from [a] to the empty string is 1 (so that it is 1, not
    0, from the empty string to itself). *)
Theorem C5_change_distance_identities (a : list N) :
  (a ≠ [] → (calculateChangePercent a a == 0)%Q)
  ∧ calculateChangePercent a [] = 1%Q
  ∧ calculateChangePercent [] [] = 1%Q.
Proof.
  split; [|done]. intros Hne.
  rewrite calculateChangePercent_nonempty by done.
  rewrite (is_edit_distance_same a _ (levenshteinDistance_is_edit_distance a a)).
  unfold Qdiv. by rewrite Qmult_0_l.
Qed.

(** ** Handlers that forward nothing *)

Lemma triggers_emit o w :
  triggers (emit o w) =
    triggers w ++ match o with OutTrigger text => [text] | _ => [] end.
Proof. wdestruct w. unfold triggers. simpl. rewrite omap_app. by destruct o. Qed.

Lemma flags_rel_refl w : flags_rel w w.
Proof. by left. Qed.

Lemma flags_rel_trans w1 w2 w3 : flags_rel w1 w2 → flags_rel w2 w3 → flags_rel w1 w3.
Proof.
  intros [[H1 H2]|[H1 H2]] [[H3 H4]|[H3 H4]]; [left|right|right|right];
    split; congruence.
Qed.

Lemma cb_ok_flags w w' : flags_rel w w' → cb_ok w → cb_ok w'.
Proof. unfold cb_ok. intros [[H1 H2]|[H1 H2]] Hok; [rewrite H1, H2|]; done. Qed.

Lemma same_refl w : same w w.
Proof. split; auto using flags_rel_refl. Qed.

Lemma same_trans w1 w2 w3 : same w1 w2 → same w2 w3 → same w1 w3.
Proof.
  intros [] []. split; try congruence. by eapply flags_rel_trans.
Qed.

Lemma forwards_same text w1 w2 w3 : forwards text w1 w2 → same w2 w3 → forwards text w1 w3.
Proof.
  intros [] []. split; try congruence. by eapply flags_rel_trans.
Qed.

Lemma same_forwards text w1 w2 w3 : same w1 w2 → forwards text w2 w3 → forwards text w1 w3.
Proof.
  intros [] []. split; try congruence. by eapply flags_rel_trans.
Qed.


Lemma same_emit o w : (∀ text, o ≠ OutTrigger text) → same w (emit o w).
Proof.
  intros Ho. split; try (by wdestruct w).
  - left. by wdestruct w.
  - rewrite triggers_emit. destruct o; try apply app_nil_r. by destruct (Ho text).
Qed.

Lemma same_add_timer a delay period w : same w (add_timer a delay period w).2.
Proof. same_prim w. Qed.

Lemma same_clearTimeout id w : same w (clearTimeout id w).
Proof. same_prim w. Qed.

Lemma same_start b w : same w (start b w).
Proof. same_prim w. Qed.

Lemma same_cancelCountdown w : same w (cancelCountdown w).
Proof. unfold cancelCountdown. wdestruct w. simpl. destruct ct; same_solve. Qed.

Lemma same_stop w : same w (stop w).
Proof.
  unfold stop, cancelCountdown. wdestruct w. simpl.
  destruct st, ct; same_solve.
Qed.

(** [trackKeystroke] only touches the buffer. *)
Lemma trackKeystroke_buffer c w :
  trackKeystroke c w = on_tracker (set_charTimestamps
    (if isComposing (tracker w) then charTimestamps (tracker w)
     else let buf := charTimestamps (tracker w)
                       ++ [{| char := c; timestamp := clock w |}] in
          if (charBufferSize (config (tracker w)) <? length buf)%nat
          then tail buf else buf)) w.
Proof.
  unfold trackKeystroke. wdestruct w. simpl. destruct ic; [done|].
  simpl. by case_match.
Qed.

Lemma same_setComposing b w : same w (setComposing b w).
Proof. same_prim w. Qed.

Lemma same_notifyStateChange s o w : same w (notifyStateChange s o w).
Proof.
  unfold notifyStateChange. destruct (stateChangeCallback _); [|apply same_refl].
  by apply same_emit.
Qed.

Lemma same_resetInactivityTimer w : same w (resetInactivityTimer w).
Proof.
  unfold resetInactivityTimer, setTimeout, add_timer, clearTimeout.
  wdestruct w. simpl. destruct it; same_solve.
Qed.

Lemma same_activateVelocityTracker w : same w (activateVelocityTracker w).
Proof.
  unfold activateVelocityTracker.
  destruct (isTrackerActive w) eqn:E; [apply same_resetInactivityTimer|].
  unfold resetInactivityTimer, setInterval, setTimeout, add_timer, clearTimeout, start.
  wdestruct w. simpl. destruct it; same_solve.
Qed.

Lemma same_handleAssess textOverride w : same w (handleAssess textOverride w).
Proof.
  unfold handleAssess. case_match.
  - by apply same_emit.
  - eapply same_trans; [apply same_activateVelocityTracker|]. by apply same_emit.
Qed.

Lemma same_onTrigger text w : same w (onTrigger text w).
Proof. apply same_handleAssess. Qed.

Lemma same_startCountdown w : same w (startCountdown w).
Proof.
  unfold startCountdown, setTimeout, add_timer.
  wdestruct w. simpl. destruct gt; same_solve.
Qed.

Lemma same_onStateChange newState w : same w (onStateChange newState w).
Proof.
  unfold onStateChange.
  set (w1 := notifyStateChange _ _ _).
  assert (H1 : same w w1).
  { eapply same_trans; [|apply same_notifyStateChange]. same_prim w. }
  repeat case_match; [|by eapply same_trans, same_cancelCountdown|done].
  eapply same_trans; [done|]. apply same_add_timer.
Qed.

Lemma same_sampleVelocity w : same w (sampleVelocity w).
Proof.
  unfold sampleVelocity. case_match; [apply same_onStateChange|apply same_refl].
Qed.

Lemma same_graceCheck w : same w (graceCheck w).
Proof.
  unfold graceCheck. case_match; [apply same_startCountdown|apply same_refl].
Qed.

Lemma same_midpointTick w : same w (midpointTick w).
Proof.
  unfold midpointTick. case_match; [apply same_notifyStateChange|apply same_refl].
Qed.

Lemma same_velocityPoll w : same w (velocityPoll w).
Proof. unfold velocityPoll. wdestruct w. simpl. destruct act; same_solve. Qed.

Lemma same_inactivityExpiry w : same w (inactivityExpiry w).
Proof.
  unfold inactivityExpiry. eapply same_trans; [|apply same_stop].
  unfold clearTimeout. wdestruct w. simpl. destruct vt; same_solve.
Qed.

(** ** Handlers that may forward *)

Lemma forwards_executeAssessment text w :
  triggerCallback (tracker w) = true →
  forwards text w (executeAssessment text w).
Proof.
  intros Hcb. unfold executeAssessment.
  set (w1 := on_tracker (set_lastAssessmentTime _) _).
  assert (Hcb1 : triggerCallback (tracker w1) = true) by (by wdestruct w).
  rewrite Hcb1. eapply forwards_same; [|apply same_onTrigger].
  split; try (by wdestruct w).
  - left. by wdestruct w.
  - rewrite triggers_emit. by wdestruct w.
Qed.

Lemma forceTrigger_cases w :
  (forceTrigger w = w
   ∧ (getCurrentText (tracker w) && triggerCallback (tracker w)
      && (10 <=? length (promptText w))%nat) = false)
  ∨ (forwards (promptText w) w (forceTrigger w)
     ∧ getCurrentText (tracker w) = true ∧ triggerCallback (tracker w) = true
     ∧ 10 ≤ length (promptText w)).
Proof.
  unfold forceTrigger.
  destruct (getCurrentText (tracker w)) eqn:Hg; [|by left].
  destruct (triggerCallback (tracker w)) eqn:Ht; [|by left].
  destruct (10 <=? length (promptText w))%nat eqn:Hlen; [|by left].
  apply Nat.leb_le in Hlen. right. split; [|done]. cbn [negb orb].
  pose proof (same_cancelCountdown w) as Hs.
  eapply same_forwards; [done|]. rewrite <-(same_promptText _ _ Hs).
  apply forwards_executeAssessment.
  destruct (same_flags _ _ Hs) as [[_ ->]|[_ ?]]; done.
Qed.


(** ** One event *)

Lemma same_step_rel w w' : same w w' → step_rel w w'.
Proof. intros []. split; [lia|done|done|by left]. Qed.

Lemma forwards_step_rel text w w' : forwards text w w' → step_rel w w'.
Proof. intros []. split; [lia|done|done|right; by exists text]. Qed.

Lemma same_then_step_rel w w1 w2 : same w w1 → step_rel w1 w2 → step_rel w w2.
Proof.
  intros [Hc Hp Hcfg Hf Hb Hs Ht] [Hc' Hcfg' Hf' Hs']. split.
  - lia.
  - congruence.
  - by eapply flags_rel_trans.
  - destruct Hs' as [[? ?]|(text & ? & ?)]; [left|right; exists text];
      split; congruence.
Qed.

Lemma same_foldl_trackKeystroke cs w :
  let w' := foldl (λ w c, trackKeystroke c w) w cs in
  clock w' = clock w ∧ promptText w' = promptText w
  ∧ config (tracker w') = config (tracker w) ∧ flags_rel w w'
  ∧ last_sent w' = last_sent w ∧ triggers w' = triggers w
  ∧ timers w' = timers w ∧ nextTimer w' = nextTimer w
  ∧ inactivityTimer w' = inactivityTimer w
  ∧ isTrackerActive w' = isTrackerActive w.
Proof.
  revert w. induction cs as [|c cs IH]; intros w; simpl.
  { repeat split. by left. }
  destruct (IH (trackKeystroke c w)) as (H1&H2&H3&H4&H5&H6&H7&H8&H9&H10).
  rewrite H1, H2, H3, H5, H6, H7, H8, H9, H10.
  assert (Hf : flags_rel w (trackKeystroke c w)).
  { rewrite trackKeystroke_buffer. left. by wdestruct w. }
  repeat split; try (rewrite trackKeystroke_buffer; by wdestruct w).
  by eapply flags_rel_trans.
Qed.

Lemma step_rel_onTextChanged text w : step_rel w (onTextChanged text w).
Proof.
  unfold onTextChanged.
  set (w0 := set_promptText text w).
  assert (H0 : step_rel w w0).
  { subst w0. wdestruct w. split; simpl; [lia|done|by left|by left]. }
  assert (Hlast : ∀ w1, step_rel w w1 → step_rel w (set_previousTextForTracking text w1)).
  { intros w1 [Hc Hcfg Hf Hs]. wdestruct w1. by split. }
  apply Hlast. repeat case_match; try done.
  set (w1 := foldl _ _ _).
  destruct (same_foldl_trackKeystroke
              (codePoints (drop (length (previousTextForTracking w0)) text)) w0)
    as (K1&K2&K3&K4&K5&K6&_). fold w1 in K1, K2, K3, K4, K5, K6.
  pose proof (same_resetInactivityTimer w1) as [Hc Hp Hcfg Hf Hb Hs Ht].
  destruct H0 as [Hc0 Hcfg0 Hf0 Hs0]. split.
  - lia.
  - congruence.
  - eauto using flags_rel_trans.
  - assert (E : clock w0 = clock w) by (subst w0; by wdestruct w).
    destruct Hs0 as [[? ?]|(t & ? & ?)]; [left|right; exists t]; split; congruence.
Qed.

Lemma same_rearm f w :
  same w (set_timers (f <$> timers w) w).
Proof. same_prim w. Qed.


(** ** Timer handles *)

Lemma tm_ok_frame w w' :
  timers w' = timers w → nextTimer w' = nextTimer w →
  inactivityTimer w' = inactivityTimer w → tm_ok w → tm_ok w'.
Proof.
  unfold tm_ok, timers_ok, inactivity_ok. intros -> -> ->. done.
Qed.

Lemma tm_ok_on_tracker f w : tm_ok w → tm_ok (on_tracker f w).
Proof. apply tm_ok_frame; by wdestruct w. Qed.

Lemma tm_ok_emit o w : tm_ok w → tm_ok (emit o w).
Proof. apply tm_ok_frame; by wdestruct w. Qed.

Lemma tm_ok_set_isTrackerActive b w : tm_ok w → tm_ok (set_isTrackerActive b w).
Proof. apply tm_ok_frame; by wdestruct w. Qed.

Lemma tm_ok_set_velocityPollTimer v w : tm_ok w → tm_ok (set_velocityPollTimer v w).
Proof. apply tm_ok_frame; by wdestruct w. Qed.

Lemma tm_ok_set_typingVelocity v w : tm_ok w → tm_ok (set_typingVelocity v w).
Proof. apply tm_ok_frame; by wdestruct w. Qed.

Lemma tm_ok_set_promptText v w : tm_ok w → tm_ok (set_promptText v w).
Proof. apply tm_ok_frame; by wdestruct w. Qed.

Lemma tm_ok_set_previousTextForTracking v w :
  tm_ok w → tm_ok (set_previousTextForTracking v w).
Proof. apply tm_ok_frame; by wdestruct w. Qed.

Lemma tm_ok_set_clock v w : tm_ok w → tm_ok (set_clock v w).
Proof. apply tm_ok_frame; by wdestruct w. Qed.

Lemma timers_ok_add a d p w :
  timers_ok w →
  timers_ok (set_nextTimer (Pos.succ (nextTimer w))
     (set_timers (timers w ++ [{| tid := nextTimer w; due := d; repeat := p;
                                  action := a |}]) w)).
Proof.
  intros [Hfresh Hdup]. wdestruct w. unfold timers_ok in *. simpl in *. split.
  - rewrite Forall_app. split.
    + eapply Forall_impl; [done|]. simpl. lia.
    + repeat constructor. simpl. lia.
  - rewrite fmap_app. apply NoDup_app. split; [done|]. split.
    + intros x Hx ->%list_elem_of_singleton.
      apply list_elem_of_fmap in Hx as (t & Ht & Hin).
      rewrite Forall_forall in Hfresh. specialize (Hfresh t Hin). simpl in *. lia.
    + simpl. apply NoDup_singleton.
Qed.

Lemma tm_ok_add a d p w :
  a ≠ TInactivity → tm_ok w →
  tm_ok (set_nextTimer (Pos.succ (nextTimer w))
     (set_timers (timers w ++ [{| tid := nextTimer w; due := d; repeat := p;
                                  action := a |}]) w)).
Proof.
  intros Ha [Hok Hin]. split; [by apply timers_ok_add|].
  unfold inactivity_ok in *. wdestruct w. simpl in *.
  intros t [Ht|Ht]%elem_of_app; [by apply Hin|].
  apply list_elem_of_singleton in Ht as ->. unfold is_inactivity. simpl.
  by destruct a.
Qed.

Lemma timers_ok_sub ts w :
  ts `sublist_of` timers w → timers_ok w → timers_ok (set_timers ts w).
Proof.
  intros Hsub [Hfresh Hdup]. unfold timers_ok. wdestruct w. simpl in *. split.
  - rewrite Forall_forall in *. intros t Ht. apply Hfresh.
    by eapply elem_of_sublist.
  - eapply sublist_NoDup; [done|]. by apply fmap_sublist.
Qed.

Lemma tm_ok_clearTimeout id w : tm_ok w → tm_ok (clearTimeout id w).
Proof.
  intros [Hok Hin]. split.
  - apply timers_ok_sub; [|done]. apply sublist_filter.
  - unfold inactivity_ok, clearTimeout in *. wdestruct w. simpl in *.
    intros t [_ Ht]%list_elem_of_filter. by apply Hin.
Qed.

Lemma tm_ok_rearm (f : timer → timer) w :
  (∀ t, tid (f t) = tid t ∧ action (f t) = action t) →
  tm_ok w → tm_ok (set_timers (f <$> timers w) w).
Proof.
  intros Hf [[Hfresh Hdup] Hin]. unfold tm_ok, timers_ok, inactivity_ok.
  wdestruct w. simpl in *. split; [split|].
  - rewrite Forall_fmap. eapply Forall_impl; [done|].
    intros t Ht. simpl. by rewrite (proj1 (Hf t)).
  - rewrite <-list_fmap_compose.
    erewrite list_fmap_ext; [done|]. intros _ t _. simpl. apply Hf.
  - intros t' (t & -> & Ht)%list_elem_of_fmap Hi.
    rewrite (proj1 (Hf t)). apply Hin; [done|].
    unfold is_inactivity in *. by rewrite <-(proj2 (Hf t)).
Qed.

Lemma tm_ok_resetInactivityTimer w : tm_ok w → tm_ok (resetInactivityTimer w).
Proof.
  intros Hok. unfold resetInactivityTimer, setTimeout, add_timer.
  set (w1 := match inactivityTimer w with Some id => _ | None => _ end).
  assert (Hok1 : timers_ok w1).
  { subst w1. destruct (inactivityTimer w); [|apply Hok].
    by apply tm_ok_clearTimeout. }
  assert (Hnone : ∀ t, t ∈ timers w1 → is_inactivity t = false).
  { intros t Ht. destruct (is_inactivity t) eqn:E; [|done]. exfalso.
    destruct Hok as [_ Hin]. subst w1.
    destruct (inactivityTimer w) as [id|] eqn:Eid.
    - unfold clearTimeout in Ht.
      assert (t ∈ timers w ∧ tid t ≠ id) as [Hin' Hne].
      { revert Ht. wdestruct w. simpl. rewrite list_elem_of_filter. tauto. }
      specialize (Hin t Hin' E). congruence.
    - specialize (Hin t Ht E). congruence. }
  cbv beta iota zeta. split.
  - pose proof (timers_ok_add TInactivity (clock w1 + 15 * 60 * 1000)%Z None w1 Hok1)
      as Hadd.
    revert Hadd. unfold timers_ok. by wdestruct w1.
  - unfold inactivity_ok. wdestruct w1. simpl in *.
    intros t [Ht|Ht]%elem_of_app Hi.
    + specialize (Hnone t Ht). congruence.
    + by apply list_elem_of_singleton in Ht as ->.
Qed.

#[local] Hint Resolve tm_ok_on_tracker tm_ok_emit tm_ok_set_isTrackerActive
  tm_ok_set_velocityPollTimer tm_ok_set_typingVelocity tm_ok_set_promptText
  tm_ok_set_previousTextForTracking tm_ok_set_clock tm_ok_clearTimeout
  tm_ok_resetInactivityTimer : tm.
#[local] Hint Extern 1 (tm_ok (set_nextTimer _ (set_timers (_ ++ [_]) _))) =>
  apply tm_ok_add; [discriminate|] : tm.

Lemma tm_ok_start b w : tm_ok w → tm_ok (start b w).
Proof. intros. unfold start, setInterval, add_timer. tm_solve. Qed.

Lemma tm_ok_cancelCountdown w : tm_ok w → tm_ok (cancelCountdown w).
Proof. intros. unfold cancelCountdown. tm_solve. Qed.
#[local] Hint Resolve tm_ok_start tm_ok_cancelCountdown : tm.

Lemma tm_ok_stop w : tm_ok w → tm_ok (stop w).
Proof. intros. unfold stop. tm_solve. Qed.

Lemma tm_ok_trackKeystroke c w : tm_ok w → tm_ok (trackKeystroke c w).
Proof. intros. rewrite trackKeystroke_buffer. tm_solve. Qed.

Lemma tm_ok_setComposing b w : tm_ok w → tm_ok (setComposing b w).
Proof. intros. unfold setComposing. tm_solve. Qed.

Lemma tm_ok_notifyStateChange s o w : tm_ok w → tm_ok (notifyStateChange s o w).
Proof. intros. unfold notifyStateChange. tm_solve. Qed.
#[local] Hint Resolve tm_ok_stop tm_ok_trackKeystroke tm_ok_setComposing
  tm_ok_notifyStateChange : tm.

Lemma tm_ok_activateVelocityTracker w : tm_ok w → tm_ok (activateVelocityTracker w).
Proof. intros. unfold activateVelocityTracker, setInterval, add_timer. tm_solve. Qed.
#[local] Hint Resolve tm_ok_activateVelocityTracker : tm.

Lemma tm_ok_handleAssess textOverride w : tm_ok w → tm_ok (handleAssess textOverride w).
Proof. intros. unfold handleAssess. tm_solve. Qed.
#[local] Hint Resolve tm_ok_handleAssess : tm.

Lemma tm_ok_executeAssessment text w : tm_ok w → tm_ok (executeAssessment text w).
Proof. intros. unfold executeAssessment, onTrigger. tm_solve. Qed.
#[local] Hint Resolve tm_ok_executeAssessment : tm.

Lemma tm_ok_forceTrigger w : tm_ok w → tm_ok (forceTrigger w).
Proof. intros. unfold forceTrigger. tm_solve. Qed.

Lemma tm_ok_startCountdown w : tm_ok w → tm_ok (startCountdown w).
Proof. intros. unfold startCountdown, setTimeout, add_timer. tm_solve. Qed.
#[local] Hint Resolve tm_ok_forceTrigger tm_ok_startCountdown : tm.

Lemma tm_ok_onStateChange newState w : tm_ok w → tm_ok (onStateChange newState w).
Proof. intros. unfold onStateChange, setTimeout, add_timer. simpl. tm_solve. Qed.
#[local] Hint Resolve tm_ok_onStateChange : tm.

Lemma tm_ok_sampleVelocity w : tm_ok w → tm_ok (sampleVelocity w).
Proof. intros. unfold sampleVelocity. tm_solve. Qed.

Lemma tm_ok_graceCheck w : tm_ok w → tm_ok (graceCheck w).
Proof. intros. unfold graceCheck. tm_solve. Qed.

Lemma tm_ok_midpointTick w : tm_ok w → tm_ok (midpointTick w).
Proof. intros. unfold midpointTick. tm_solve. Qed.

Lemma tm_ok_velocityPoll w : tm_ok w → tm_ok (velocityPoll w).
Proof. intros. unfold velocityPoll. tm_solve. Qed.

Lemma tm_ok_inactivityExpiry w : tm_ok w → tm_ok (inactivityExpiry w).
Proof. intros. unfold inactivityExpiry. tm_solve. Qed.

Lemma tm_ok_foldl_trackKeystroke cs w :
  tm_ok w → tm_ok (foldl (λ w c, trackKeystroke c w) w cs).
Proof. revert w. induction cs; simpl; eauto with tm. Qed.
#[local] Hint Resolve tm_ok_sampleVelocity tm_ok_graceCheck tm_ok_midpointTick
  tm_ok_velocityPoll tm_ok_inactivityExpiry tm_ok_foldl_trackKeystroke : tm.

Lemma tm_ok_onTextChanged text w : tm_ok w → tm_ok (onTextChanged text w).
Proof. intros. unfold onTextChanged. tm_solve. Qed.

Lemma tm_ok_handleKeyboardShortcut w : tm_ok w → tm_ok (handleKeyboardShortcut w).
Proof. intros. unfold handleKeyboardShortcut. tm_solve. Qed.
#[local] Hint Resolve tm_ok_onTextChanged tm_ok_handleKeyboardShortcut : tm.

(** ** Arming a countdown *)

Lemma endsWithPunctuation_spec text :
  endsWithPunctuation text = true
  ↔ ∃ c, last (trim text) = Some c ∧ c ∈ PUNCTUATION.
Proof.
  unfold endsWithPunctuation, includes. destruct (last (trim text)) as [c|].
  - rewrite bool_decide_eq_true. split.
    + intros Hc. by exists c.
    + by intros (c' & [= <-] & Hc).
  - split; [done|]. by intros (c & ? & _).
Qed.

Lemma find_timer_unique w t :
  NoDup (tid <$> timers w) → t ∈ timers w → find_timer (tid t) w = Some t.
Proof.
  intros Hdup [i Hi]%list_elem_of_lookup. unfold find_timer.
  assert (H : list_find (λ t', tid t' = tid t) (timers w) = Some (i, t)).
  { apply list_find_Some. split; [done|]. split; [done|].
    intros j y Hj Hlt Heq.
    assert (i = j); [|lia].
    eapply NoDup_lookup; [done| |].
    - rewrite list_lookup_fmap, Hi. done.
    - rewrite list_lookup_fmap, Hj. simpl. by rewrite Heq. }
  by rewrite H.
Qed.

Lemma startCountdown_armed w :
  getCurrentText (tracker w) = true →
  let mid := nextTimer w in
  let id := Pos.succ (nextTimer w) in
  let wait := if endsWithPunctuation (promptText w)
              then naturalCompletionWait (config (tracker w))
              else planningPauseWait (config (tracker w)) in
  timers (startCountdown w) =
    timers w ++ [ {| tid := mid; due := clock w + 3000; repeat := None;
                     action := TMidpoint |};
                  {| tid := id; due := clock w + wait; repeat := None;
                     action := TCountdown mid |} ]
  ∧ countdownTimer (tracker (startCountdown w)) = Some id
  ∧ clock (startCountdown w) = clock w.
Proof.
  intros Hg. unfold startCountdown, setTimeout, add_timer. rewrite Hg.
  wdestruct w. simpl. by rewrite <-app_assoc.
Qed.


(** ** The classifier *)

Lemma onStateChange_currentState newState w :
  currentState (tracker (onStateChange newState w)) = newState
  ∧ charTimestamps (tracker (onStateChange newState w)) = charTimestamps (tracker w).
Proof.
  unfold onStateChange, notifyStateChange, cancelCountdown, setTimeout, add_timer,
    clearTimeout, emit.
  wdestruct w. simpl. destruct sc; simpl; repeat case_match; done.
Qed.

Lemma sampleVelocity_currentState w :
  currentState (tracker (sampleVelocity w)) =
    classify (config (tracker w))
      (length (recentChars (clock w) (charTimestamps (tracker w))))
  ∧ charTimestamps (tracker (sampleVelocity w)) = charTimestamps (tracker w).
Proof.
  unfold sampleVelocity.
  destruct (bool_decide_reflect
    (classify (config (tracker w))
       (length (recentChars (clock w) (charTimestamps (tracker w))))
     ≠ currentState (tracker w))) as [Hne|Heq].
  - apply onStateChange_currentState.
  - split; [|done]. by destruct (decide (classify (config (tracker w))
       (length (recentChars (clock w) (charTimestamps (tracker w))))
       = currentState (tracker w))).
Qed.

(** ** Handles are never issued twice *)

Lemma grows_refl w : grows w w.
Proof.
  split; [lia|]. split.
  - intros t Ht. left. by exists t.
  - intros id Hid. by left.
Qed.

Lemma grows_frame w0 w w' :
  timers w' = timers w → nextTimer w' = nextTimer w →
  countdownTimer (tracker w') = countdownTimer (tracker w) →
  grows w0 w → grows w0 w'.
Proof. unfold grows. intros -> -> ->. done. Qed.

Lemma grows_on_tracker w0 f w :
  (∀ t, countdownTimer (f t) = countdownTimer t) →
  grows w0 w → grows w0 (on_tracker f w).
Proof. intros Hf. apply grows_frame; try (by wdestruct w). wdestruct w. apply Hf. Qed.

Lemma grows_uncount w0 w :
  grows w0 w → grows w0 (on_tracker (set_countdownTimer None) w).
Proof.
  intros (Hn & Ht & Hc). split; [by wdestruct w|]. split.
  - revert Ht. by wdestruct w.
  - by wdestruct w.
Qed.

Lemma grows_emit w0 o w : grows w0 w → grows w0 (emit o w).
Proof. apply grows_frame; by wdestruct w. Qed.

Lemma grows_set_isTrackerActive w0 b w : grows w0 w → grows w0 (set_isTrackerActive b w).
Proof. apply grows_frame; by wdestruct w. Qed.

Lemma grows_set_velocityPollTimer w0 v w :
  grows w0 w → grows w0 (set_velocityPollTimer v w).
Proof. apply grows_frame; by wdestruct w. Qed.

Lemma grows_set_inactivityTimer w0 v w :
  grows w0 w → grows w0 (set_inactivityTimer v w).
Proof. apply grows_frame; by wdestruct w. Qed.

Lemma grows_set_typingVelocity w0 v w : grows w0 w → grows w0 (set_typingVelocity v w).
Proof. apply grows_frame; by wdestruct w. Qed.

Lemma grows_set_promptText w0 v w : grows w0 w → grows w0 (set_promptText v w).
Proof. apply grows_frame; by wdestruct w. Qed.

Lemma grows_set_previousTextForTracking w0 v w :
  grows w0 w → grows w0 (set_previousTextForTracking v w).
Proof. apply grows_frame; by wdestruct w. Qed.

Lemma grows_set_clock w0 v w : grows w0 w → grows w0 (set_clock v w).
Proof. apply grows_frame; by wdestruct w. Qed.

Lemma grows_add w0 a d p w :
  grows w0 w →
  grows w0 (set_nextTimer (Pos.succ (nextTimer w))
     (set_timers (timers w ++ [{| tid := nextTimer w; due := d; repeat := p;
                                  action := a |}]) w)).
Proof.
  intros (Hn & Ht & Hc). unfold grows. wdestruct w. simpl in *.
  split; [lia|]. split.
  - intros t [Hin| ->%list_elem_of_singleton]%elem_of_app.
    + destruct (Ht t Hin) as [?|?]; [by left|right; lia].
    + right. simpl. lia.
  - intros id Hid. destruct (Hc id Hid) as [?|?]; [by left|right; lia].
Qed.

Lemma grows_clearTimeout w0 id w : grows w0 w → grows w0 (clearTimeout id w).
Proof.
  intros (Hn & Ht & Hc). unfold grows, clearTimeout. wdestruct w. simpl in *.
  split; [done|]. split; [|done].
  intros t [_ Hin]%list_elem_of_filter. by apply Ht.
Qed.

Lemma grows_rearm w0 (f : timer → timer) w :
  (∀ t, tid (f t) = tid t) →
  grows w0 w → grows w0 (set_timers (f <$> timers w) w).
Proof.
  intros Hf (Hn & Ht & Hc). unfold grows. wdestruct w. simpl in *.
  split; [done|]. split; [|done].
  intros t' (t & -> & Hin)%list_elem_of_fmap. rewrite Hf. by apply Ht.
Qed.

#[local] Hint Resolve grows_uncount grows_emit grows_set_isTrackerActive
  grows_set_velocityPollTimer grows_set_inactivityTimer grows_set_typingVelocity
  grows_set_promptText grows_set_previousTextForTracking grows_set_clock
  grows_add grows_clearTimeout : gr.
#[local] Hint Extern 1 (grows _ (on_tracker _ _)) =>
  apply grows_on_tracker; [by intros []|] : gr.

Lemma grows_start w0 b w : grows w0 w → grows w0 (start b w).
Proof. intros. unfold start, setInterval, add_timer. gr_solve. Qed.

Lemma grows_cancelCountdown w0 w : grows w0 w → grows w0 (cancelCountdown w).
Proof. intros. unfold cancelCountdown. gr_solve. Qed.
#[local] Hint Resolve grows_start grows_cancelCountdown : gr.

Lemma grows_stop w0 w : grows w0 w → grows w0 (stop w).
Proof. intros. unfold stop. gr_solve. Qed.

Lemma grows_trackKeystroke w0 c w : grows w0 w → grows w0 (trackKeystroke c w).
Proof. intros. rewrite trackKeystroke_buffer. gr_solve. Qed.

Lemma grows_setComposing w0 b w : grows w0 w → grows w0 (setComposing b w).
Proof. intros. unfold setComposing. gr_solve. Qed.

Lemma grows_notifyStateChange w0 s o w : grows w0 w → grows w0 (notifyStateChange s o w).
Proof. intros. unfold notifyStateChange. gr_solve. Qed.

Lemma grows_resetInactivityTimer w0 w : grows w0 w → grows w0 (resetInactivityTimer w).
Proof. intros. unfold resetInactivityTimer, setTimeout, add_timer. gr_solve. Qed.
#[local] Hint Resolve grows_stop grows_trackKeystroke grows_setComposing
  grows_notifyStateChange grows_resetInactivityTimer : gr.

Lemma grows_activateVelocityTracker w0 w :
  grows w0 w → grows w0 (activateVelocityTracker w).
Proof. intros. unfold activateVelocityTracker, setInterval, add_timer. gr_solve. Qed.
#[local] Hint Resolve grows_activateVelocityTracker : gr.

Lemma grows_handleAssess w0 textOverride w :
  grows w0 w → grows w0 (handleAssess textOverride w).
Proof. intros. unfold handleAssess. gr_solve. Qed.
#[local] Hint Resolve grows_handleAssess : gr.

Lemma grows_executeAssessment w0 text w :
  grows w0 w → grows w0 (executeAssessment text w).
Proof. intros. unfold executeAssessment, onTrigger. gr_solve. Qed.
#[local] Hint Resolve grows_executeAssessment : gr.

Lemma grows_forceTrigger w0 w : grows w0 w → grows w0 (forceTrigger w).
Proof. intros. unfold forceTrigger. gr_solve. Qed.

(** [startCountdown] holds the handle it has just been issued. *)
Lemma grows_startCountdown w0 w : grows w0 w → grows w0 (startCountdown w).
Proof.
  intros (Hn & Ht & Hc). unfold startCountdown, setTimeout, add_timer.
  destruct (getCurrentText (tracker w)); [|done].
  unfold grows. wdestruct w. simpl in *. split; [lia|]. split.
  - intros t [[Hin| ->%list_elem_of_singleton]%elem_of_app
             | ->%list_elem_of_singleton]%elem_of_app.
    + destruct (Ht t Hin) as [?|?]; [by left|right; lia].
    + right. simpl. lia.
    + right. simpl. lia.
  - intros id [= <-]. right. lia.
Qed.
#[local] Hint Resolve grows_forceTrigger grows_startCountdown : gr.

Lemma grows_onStateChange w0 newState w : grows w0 w → grows w0 (onStateChange newState w).
Proof. intros. unfold onStateChange, setTimeout, add_timer. simpl. gr_solve. Qed.
#[local] Hint Resolve grows_onStateChange : gr.

Lemma grows_sampleVelocity w0 w : grows w0 w → grows w0 (sampleVelocity w).
Proof. intros. unfold sampleVelocity. gr_solve. Qed.

Lemma grows_graceCheck w0 w : grows w0 w → grows w0 (graceCheck w).
Proof. intros. unfold graceCheck. gr_solve. Qed.

Lemma grows_midpointTick w0 w : grows w0 w → grows w0 (midpointTick w).
Proof. intros. unfold midpointTick. gr_solve. Qed.

Lemma grows_velocityPoll w0 w : grows w0 w → grows w0 (velocityPoll w).
Proof. intros. unfold velocityPoll. gr_solve. Qed.

Lemma grows_inactivityExpiry w0 w : grows w0 w → grows w0 (inactivityExpiry w).
Proof. intros. unfold inactivityExpiry. gr_solve. Qed.

Lemma grows_foldl_trackKeystroke w0 cs w :
  grows w0 w → grows w0 (foldl (λ w c, trackKeystroke c w) w cs).
Proof. revert w. induction cs; simpl; eauto with gr. Qed.
#[local] Hint Resolve grows_sampleVelocity grows_graceCheck grows_midpointTick
  grows_velocityPoll grows_inactivityExpiry grows_foldl_trackKeystroke : gr.

Lemma grows_onTextChanged w0 text w : grows w0 w → grows w0 (onTextChanged text w).
Proof. intros. unfold onTextChanged. gr_solve. Qed.

Lemma grows_handleKeyboardShortcut w0 w : grows w0 w → grows w0 (handleKeyboardShortcut w).
Proof. intros. unfold handleKeyboardShortcut. gr_solve. Qed.
#[local] Hint Resolve grows_onTextChanged grows_handleKeyboardShortcut : gr.

(** A retired handle stays retired. *)
Lemma retired_grows id w0 w : grows w0 w → retired id w0 → retired id w.
Proof.
  intros (Hn & Ht & _) [Hlt Hout]. split; [lia|].
  intros t Hin Heq. destruct (Ht t Hin) as [(t0 & Hin0 & E)|?]; [|lia].
  apply (Hout t0 Hin0). congruence.
Qed.

Lemma retired_find_timer id w : retired id w → find_timer id w = None.
Proof.
  intros [_ Hout]. unfold find_timer.
  destruct (list_find _ _) as [[i t]|] eqn:E; [|done].
  apply list_find_Some in E as (Hi & Heq & _).
  destruct (Hout t); [|done]. by eapply list_elem_of_lookup_2.
Qed.

(** A transition to a state other than [STOPPED] retires the countdown the
    tracker holds. *)
Lemma onStateChange_retires id newState w :
  countdownTimer (tracker w) = Some id → (id < nextTimer w)%positive →
  newState ≠ STOPPED →
  retired id (onStateChange newState w)
  ∧ countdownTimer (tracker (onStateChange newState w)) = None.
Proof.
  intros Hid Hlt Hne.
  unfold onStateChange, notifyStateChange, cancelCountdown, clearTimeout, emit, retired.
  rewrite (bool_decide_eq_false_2 (newState = STOPPED)) by done.
  rewrite (bool_decide_eq_true_2 (newState ≠ STOPPED)) by done.
  wdestruct w. simpl in *. subst ct.
  destruct sc; simpl; (split; [split; [done|]|done]);
    intros t [Hne' _]%list_elem_of_filter; done.
Qed.

(** ** Trimming *)

Lemma trimStart_white ws s :
  Forall (λ c, isWhiteSpace c = true) ws → trimStart (ws ++ s) = trimStart s.
Proof. induction 1 as [|c ws Hc _ IH]; [done|]. simpl. by rewrite Hc. Qed.

Lemma trimStart_snoc s c :
  isWhiteSpace c = false → trimStart (s ++ [c]) = trimStart s ++ [c].
Proof.
  intros Hc. induction s as [|x s IH]; simpl; [by rewrite Hc|].
  by destruct (isWhiteSpace x).
Qed.

Lemma trimStart_app s c post :
  isWhiteSpace c = false →
  trimStart (s ++ c :: post) = trimStart (s ++ [c]) ++ post.
Proof.
  intros Hc. induction s as [|x s IH]; simpl; [by rewrite Hc|].
  destruct (isWhiteSpace x); [done|]. simpl. by rewrite <-app_assoc.
Qed.

Lemma trimEnd_white s ws :
  Forall (λ c, isWhiteSpace c = true) ws → trimEnd (s ++ ws) = trimEnd s.
Proof.
  intros Hws. unfold trimEnd. rewrite reverse_app, trimStart_white; [done|].
  by apply Forall_reverse.
Qed.

Lemma trimEnd_snoc s c : isWhiteSpace c = false → trimEnd (s ++ [c]) = s ++ [c].
Proof.
  intros Hc. unfold trimEnd. rewrite reverse_app, reverse_singleton. simpl.
  by rewrite Hc, reverse_cons, reverse_involutive.
Qed.

Lemma trimStart_idem s : trimStart (trimStart s) = trimStart s.
Proof.
  induction s as [|c s IH]; [done|]. simpl.
  destruct (isWhiteSpace c) eqn:Hc; [done|]. simpl. by rewrite Hc.
Qed.

Lemma trimEnd_idem s : trimEnd (trimEnd s) = trimEnd s.
Proof. unfold trimEnd. by rewrite reverse_involutive, trimStart_idem. Qed.

Lemma trimEnd_cons c s : isWhiteSpace c = false → trimEnd (c :: s) = c :: trimEnd s.
Proof.
  intros Hc. unfold trimEnd.
  by rewrite reverse_cons, trimStart_snoc, reverse_app, reverse_singleton.
Qed.

(** Trimming a trimmed string changes nothing. *)
Lemma trim_idem s : trim (trim s) = trim s.
Proof.
  unfold trim. induction s as [|c s IH]; [done|]. simpl.
  destruct (isWhiteSpace c) eqn:Hc; [done|].
  rewrite (trimEnd_cons c s Hc). simpl. rewrite Hc.
  by rewrite <-(trimEnd_cons c _ Hc), trimEnd_idem.
Qed.

(** What a detector hands to the callback is trimmed. *)
Lemma extractPromptText_trimmed input :
  trim (extractPromptText input) = extractPromptText input.
Proof.
  destruct input as [[tc v]|]; [|done]. unfold extractPromptText. simpl.
  destruct tc as [tc|]; simpl.
  - destruct (trim tc) as [|c s] eqn:E.
    + destruct v as [v|]; simpl; [|done].
      destruct (trim v) as [|c s] eqn:E'; [done|]. by rewrite <-E', trim_idem.
    + by rewrite <-E, trim_idem.
  - destruct v as [v|]; simpl; [|done].
    destruct (trim v) as [|c s] eqn:E'; [done|]. by rewrite <-E', trim_idem.
Qed.
Section EngineFacts.
Variable toLowerCase : list N → list N.
Local Abbreviation passesPreFilters := (passesPreFilters toLowerCase).
Local Abbreviation preFilterFailure := (preFilterFailure toLowerCase).
Local Abbreviation isThrowaway := (isThrowaway toLowerCase).
Local Abbreviation countdownExpiry := (countdownExpiry toLowerCase).
Local Abbreviation run_action := (run_action toLowerCase).
Local Abbreviation fire := (fire toLowerCase).
Local Abbreviation step := (step toLowerCase).
Local Abbreviation run := (run toLowerCase).
Local Abbreviation reachable := (reachable toLowerCase).

(** The expiry of a countdown either only clears its midpoint timer, or
    forwards the live text first. *)
Lemma countdownExpiry_cases mid w :
  cb_ok w →
  (countdownExpiry mid w = clearTimeout mid w
   ∧ (bool_decide (currentState (tracker w) = STOPPED)
      && getCurrentText (tracker w)
      && passesPreFilters (tracker w) (clock w) (promptText w)) = false)
  ∨ (forwards (promptText w) w (countdownExpiry mid w)
     ∧ currentState (tracker w) = STOPPED
     ∧ getCurrentText (tracker w) = true
     ∧ passesPreFilters (tracker w) (clock w) (promptText w) = true).
Proof.
  intros Hok. unfold_countdownExpiry.
  destruct (bool_decide_reflect (currentState (tracker w) = STOPPED)) as [Hs|Hs];
    simpl; [|by left].
  destruct (getCurrentText (tracker w)) eqn:Hg; simpl; [|by left].
  destruct (passesPreFilters (tracker w) (clock w) (promptText w)) eqn:Hp; [|by left].
  right. split; [|done].
  eapply forwards_same; [|apply same_clearTimeout].
  rewrite Hs.
  pose proof (same_notifyStateChange STOPPED 1 w) as Hn.
  eapply same_forwards; [done|]. rewrite <-(same_promptText _ _ Hn).
  apply forwards_executeAssessment.
  destruct (same_flags _ _ Hn) as [[_ ->]|[_ ?]]; auto.
Qed.

Lemma run_action_cases a w :
  cb_ok w → same w (run_action a w) ∨ ∃ text, forwards text w (run_action a w).
Proof.
  intros Hok. destruct a; simpl.
  - left. apply same_sampleVelocity.
  - left. apply same_graceCheck.
  - left. apply same_midpointTick.
  - destruct (countdownExpiry_cases midpointTimer w Hok) as [[-> _]|[Hf _]].
    + left. apply same_clearTimeout.
    + right. by eexists.
  - left. apply same_velocityPoll.
  - left. apply same_inactivityExpiry.
Qed.

Lemma fire_cases id w :
  cb_ok w → same w (fire id w) ∨ ∃ text, forwards text w (fire id w).
Proof.
  intros Hok. unfold_fire.
  destruct (find_timer id w) as [t|]; [|left; apply same_refl].
  case_match; [|left; apply same_refl].
  set (w1 := match repeat t with Some _ => _ | None => _ end).
  assert (H1 : same w w1).
  { subst w1. destruct (repeat t); [apply same_rearm|apply same_clearTimeout]. }
  destruct (run_action_cases (action t) w1) as [Hs|[text Hf]].
  - eapply cb_ok_flags; [|done]. apply H1.
  - left. by eapply same_trans.
  - right. exists text. by eapply same_forwards.
Qed.

Lemma step_rel_fire id w : cb_ok w → step_rel w (fire id w).
Proof.
  intros Hok. destruct (fire_cases id w Hok) as [Hs|[text Hf]].
  - by apply same_step_rel.
  - by eapply forwards_step_rel.
Qed.

Lemma step_rel_step e w : cb_ok w → step_rel w (step e w).
Proof.
  intros Hok. destruct e; simpl.
  - wdestruct w. split; simpl; [lia|done|by left|by left].
  - by apply step_rel_fire.
  - apply step_rel_onTextChanged.
  - apply same_step_rel, same_handleAssess.
  - unfold handleKeyboardShortcut. case_match; [|apply same_step_rel, same_refl].
    destruct (forceTrigger_cases w) as [[-> _]|[Hf _]].
    + apply same_step_rel, same_refl.
    + by eapply forwards_step_rel.
  - apply same_step_rel, same_setComposing.
Qed.

Lemma cb_ok_step e w : cb_ok w → cb_ok (step e w).
Proof. intros Hok. eapply cb_ok_flags; [|done]. by apply step_rel_step. Qed.

(** ** Invariants of every execution *)

Lemma tm_ok_countdownExpiry mid w : tm_ok w → tm_ok (countdownExpiry mid w).
Proof. intros. unfold_countdownExpiry. tm_solve. Qed.

Lemma tm_ok_run_action a w : tm_ok w → tm_ok (run_action a w).
Proof. intros. destruct a; simpl; eauto using tm_ok_countdownExpiry with tm. Qed.

Lemma tm_ok_fire id w : tm_ok w → tm_ok (fire id w).
Proof.
  intros. unfold_fire. repeat case_match; try done.
  - apply tm_ok_run_action, tm_ok_rearm; [|done]. intros t'.
    destruct (bool_decide_reflect (tid t' = id)) as [<-|?]; done.
  - apply tm_ok_run_action. auto with tm.
Qed.

Lemma tm_ok_step e w : tm_ok w → tm_ok (step e w).
Proof. intros. destruct e; simpl; eauto using tm_ok_fire with tm. Qed.

Lemma buffer_ok_same w w' : same w w' → buffer_ok w → buffer_ok w'.
Proof. intros [] Hb. unfold buffer_ok in *. congruence. Qed.

Lemma buffer_ok_forwards text w w' : forwards text w w' → buffer_ok w → buffer_ok w'.
Proof. intros [] Hb. unfold buffer_ok in *. congruence. Qed.

(** Appending then dropping the oldest entry on overflow keeps the cap. *)
Lemma buffer_ok_trackKeystroke c w : buffer_ok w → buffer_ok (trackKeystroke c w).
Proof.
  unfold buffer_ok. rewrite trackKeystroke_buffer. wdestruct w. simpl.
  intros Hb. destruct ic; [done|]. simpl.
  destruct (Nat.ltb_spec (charBufferSize cfg)
              (length (buf ++ [{| char := c; timestamp := clk |}]))) as [Hlt|Hle];
    [|done].
  rewrite length_app in Hlt. destruct buf; simpl in *; rewrite ?length_app; simpl; lia.
Qed.

Lemma buffer_ok_foldl_trackKeystroke cs w :
  buffer_ok w → buffer_ok (foldl (λ w c, trackKeystroke c w) w cs).
Proof. revert w. induction cs; simpl; eauto using buffer_ok_trackKeystroke. Qed.

Lemma buffer_ok_step e w : cb_ok w → buffer_ok w → buffer_ok (step e w).
Proof.
  intros Hok Hb. destruct e; simpl.
  - by wdestruct w.
  - destruct (fire_cases id w Hok) as [Hs|[text Hf]];
      eauto using buffer_ok_same, buffer_ok_forwards.
  - unfold onTextChanged.
    assert (H0 : buffer_ok (set_promptText text w)) by (by wdestruct w).
    assert (Hlast : ∀ w1, buffer_ok w1 → buffer_ok (set_previousTextForTracking text w1)).
    { intros w1. by wdestruct w1. }
    apply Hlast. repeat case_match; try done.
    eapply buffer_ok_same; [apply same_resetInactivityTimer|].
    by apply buffer_ok_foldl_trackKeystroke.
  - eapply buffer_ok_same; [apply same_handleAssess|done].
  - unfold handleKeyboardShortcut. case_match; [|done].
    destruct (forceTrigger_cases w) as [[-> _]|[Hf _]];
      eauto using buffer_ok_forwards.
  - eapply buffer_ok_same; [apply same_setComposing|done].
Qed.

Lemma Inv_init now : Inv (init now).
Proof.
  split; try done.
  - split; [constructor|]. simpl. constructor.
  - unfold buffer_ok. simpl. lia.
  - intros t Ht. by apply elem_of_nil in Ht.
Qed.

Lemma Inv_step e w : Inv w → Inv (step e w).
Proof.
  intros [Hcfg Hcb Htm Hbuf Hin].
  pose proof (step_rel_step e w Hcb) as [Hc Hcfg' Hf Hs].
  destruct (tm_ok_step e w (conj Htm Hin)) as [Htm' Hin'].
  split; [congruence|by eapply cb_ok_flags|done|by apply buffer_ok_step|done].
Qed.

Lemma reachable_Inv now w : reachable now w → Inv w.
Proof. induction 1; [apply Inv_init|by apply Inv_step]. Qed.

Lemma reachable_run now evs w : reachable now w → reachable now (run evs w).
Proof.
  revert w. induction evs as [|e evs IH]; intros w Hw; simpl; [done|].
  apply IH. by constructor.
Qed.

Lemma Inv_run evs w : Inv w → Inv (run evs w).
Proof.
  revert w. induction evs as [|e evs IH]; intros w Hw; simpl; [done|].
  apply IH. by apply Inv_step.
Qed.

(** In every execution at most one inactivity timer is pending:
    [resetInactivityTimer] clears the one it holds before it arms another. *)
Lemma filter_unique_tid (P : timer → Prop) `{∀ t, Decision (P t)} (l : list timer) h :
  NoDup (tid <$> l) → (∀ t, t ∈ l → P t → tid t = h) → length (filter P l) ≤ 1.
Proof.
  induction l as [|t l IH]; intros Hdup Hh; [simpl; lia|].
  rewrite fmap_cons in Hdup. apply NoDup_cons in Hdup as [Hnotin Hdup].
  rewrite filter_cons. destruct (decide (P t)) as [Ht|Ht].
  - assert (E : filter P l = []).
    { destruct (filter P l) as [|t' l'] eqn:Ef; [done|]. exfalso.
      assert (Hin' : t' ∈ filter P l) by (rewrite Ef; constructor).
      apply list_elem_of_filter in Hin' as [Ht' Hin].
      apply Hnotin. rewrite (Hh t) by (done || constructor).
      rewrite <-(Hh t') by (done || by constructor).
      by apply list_elem_of_fmap_2. }
    rewrite E. simpl. lia.
  - apply IH; [done|]. intros t' Hin. apply Hh. by constructor.
Qed.

Lemma inactivity_timer_unique now w :
  reachable now w → length (active_inactivity w) ≤ 1.
Proof.
  intros Hr. destruct (reachable_Inv _ _ Hr) as [_ _ [_ Hdup] _ Hin].
  unfold active_inactivity. destruct (inactivityTimer w) as [h|] eqn:E.
  - apply (filter_unique_tid _ _ h); [done|].
    intros t Ht Hi. specialize (Hin t Ht Hi). congruence.
  - apply (filter_unique_tid _ _ 1%positive); [done|].
    intros t Ht Hi. specialize (Hin t Ht Hi). congruence.
Qed.

(** ** What a transition out of [STOPPED] does cancel *)

Lemma grows_countdownExpiry w0 mid w : grows w0 w → grows w0 (countdownExpiry mid w).
Proof. intros. unfold_countdownExpiry. gr_solve. Qed.

Lemma grows_run_action w0 a w : grows w0 w → grows w0 (run_action a w).
Proof. intros. destruct a; simpl; eauto using grows_countdownExpiry with gr. Qed.

Lemma grows_fire w0 id w : grows w0 w → grows w0 (fire id w).
Proof.
  intros. unfold_fire. repeat case_match; try done.
  - apply grows_run_action, grows_rearm; [|done]. intros t'.
    destruct (bool_decide_reflect (tid t' = id)) as [<-|?]; done.
  - apply grows_run_action. auto with gr.
Qed.

Lemma grows_step w0 e w : grows w0 w → grows w0 (step e w).
Proof. intros. destruct e; simpl; eauto using grows_fire with gr. Qed.

Lemma grows_run w0 evs w : grows w0 w → grows w0 (run evs w).
Proof.
  revert w. induction evs as [|e evs IH]; intros w Hw; [done|].
  apply IH. by apply grows_step.
Qed.

Lemma reachable_grows now w : reachable now w → grows (init now) w.
Proof. induction 1; [apply grows_refl|by apply grows_step]. Qed.

(** The countdown handle the tracker holds was issued to it. *)
Lemma reachable_handle_issued now w id :
  reachable now w → countdownTimer (tracker w) = Some id →
  (id < nextTimer w)%positive.
Proof.
  intros Hr Hid. destruct (reachable_grows _ _ Hr) as (_ & _ & Hc).
  destruct (Hc id Hid) as [?|?]; [done|lia].
Qed.

(** A grace-period check that fires outside [STOPPED] does nothing. *)
Lemma graceCheck_outside_STOPPED w :
  currentState (tracker w) ≠ STOPPED → graceCheck w = w.
Proof. intros Hs. unfold graceCheck. by rewrite bool_decide_eq_false_2. Qed.

(** A sample that takes the classifier out of [STOPPED] cancels the
    countdown the tracker holds, for good: whatever happens next, that
    timer is not pending, and an attempt to fire it changes nothing. *)
Lemma held_countdown_cancelled now w id evs :
  reachable now w →
  countdownTimer (tracker w) = Some id →
  currentState (tracker w) = STOPPED →
  currentState (tracker (sampleVelocity w)) ≠ STOPPED →
  let w' := run evs (sampleVelocity w) in
  find_timer id w' = None ∧ step (EvFire id) w' = w'.
Proof.
  intros Hr Hid Hs Hs' w'.
  assert (Hret : retired id (sampleVelocity w)
                 ∧ countdownTimer (tracker (sampleVelocity w)) = None).
  { revert Hs'. unfold sampleVelocity. case_match; [|congruence].
    intros _. apply onStateChange_retires; [done| |].
    - by eapply reachable_handle_issued.
    - intros E. destruct (onStateChange_currentState STOPPED w) as [E' _].
      match goal with H : bool_decide _ = true |- _ =>
        apply bool_decide_eq_true in H; congruence end. }
  assert (Hfind : find_timer id w' = None).
  { apply retired_find_timer. eapply retired_grows; [|apply Hret].
    apply grows_run, grows_refl. }
  split; [done|]. simpl. unfold_fire. by rewrite Hfind.
Qed.

(** ** The gate *)

Lemma isThrowaway_spec text :
  isThrowaway text = true ↔ trim (toLowerCase text) ∈ THROWAWAY_PHRASES.
Proof.
  unfold_isThrowaway. unfold str_eqb. rewrite existsb_exists. split.
  - intros (phrase & Hin & Heq%bool_decide_eq_true). rewrite Heq.
    by apply list_elem_of_In.
  - intros Hin. exists (trim (toLowerCase text)).
    split; [by apply list_elem_of_In|by apply bool_decide_eq_true].
Qed.

Lemma Qltb_spec x y : Qltb x y = true ↔ ¬ (y <= x)%Q.
Proof.
  unfold Qltb. rewrite negb_true_iff, <-not_true_iff_false, Qle_bool_iff. done.
Qed.

(** C1. With the default configuration the Eligibility Gate accepts a
    candidate exactly when all four conditions hold: length at least 15, at
    least 30000 ms since the Last-Sent Timestamp, change distance to the
    Last-Sent Text at least 0.2 (which always holds when there is no
    Last-Sent Text), and the lower-cased, trimmed candidate not on the
    denylist.  The checks are made in this order and the message logged on
    rejection is that of the first check that fails. *)
Theorem C1_eligibility_gate (t : VelocityTracker) (now : Z) (text : list N) :
  config t = DEFAULT_CONFIG →
  let c1 := 15 ≤ length text in
  let c2 := (30000 ≤ now - lastAssessmentTime t)%Z in
  let c3 := (2 # 10 <= calculateChangePercent text (lastAssessedText t))%Q in
  let c4 := trim (toLowerCase text) ∉ THROWAWAY_PHRASES in
  (passesPreFilters t now text = true ↔ c1 ∧ c2 ∧ c3 ∧ c4)
  ∧ (preFilterFailure t now text = Some TooShort ↔ ¬ c1)
  ∧ (preFilterFailure t now text = Some CooldownActive ↔ c1 ∧ ¬ c2)
  ∧ (preFilterFailure t now text = Some InsufficientChange ↔ c1 ∧ c2 ∧ ¬ c3)
  ∧ (preFilterFailure t now text = Some ThrowawayPhrase ↔ c1 ∧ c2 ∧ c3 ∧ ¬ c4)
  ∧ (lastAssessedText t = [] → c3).
Proof.
  intros Hcfg c1 c2 c3 c4.
  assert (Hfirst : lastAssessedText t = [] → c3).
  { intros E. subst c3. by rewrite E. }
  unfold_gate.
  rewrite Hcfg. simpl.
  destruct (Nat.ltb_spec (length text) 15) as [H1|H1].
  { subst c1. gate_case. }
  destruct (Z.ltb_spec (now - lastAssessmentTime t) 30000) as [H2|H2].
  { subst c1 c2. gate_case. }
  destruct (Qltb (calculateChangePercent text (lastAssessedText t)) (2 # 10))
    eqn:H3.
  { apply Qltb_spec in H3. subst c1 c2 c3.
    gate_case. }
  assert (H3' : c3).
  { subst c3. apply not_true_iff_false in H3. rewrite Qltb_spec in H3.
    destruct (Qlt_le_dec (calculateChangePercent text (lastAssessedText t)) (2 # 10))
      as [Hlt|Hle]; [|done].
    destruct H3. by apply Qlt_not_le. }
  destruct (isThrowaway text) eqn:H4.
  { apply isThrowaway_spec in H4. subst c1 c2 c4.
    gate_case. }
  assert (H4' : c4).
  { subst c4. intros Hin. apply isThrowaway_spec in Hin. congruence. }
  subst c1 c2. gate_case.
Qed.

(** ** The countdown *)

(** The countdown [startCountdown] arms, on any text: when the text,
    trimmed of surrounding white space, ends with one of the marks
    [. ? ! 。 ？ ！], the countdown cannot fire before 6000 ms have passed
    since arming and its expiry runs once they have; otherwise the same
    holds with 8000 ms. *)
Lemma startCountdown_duration now w :
  reachable now w →
  getCurrentText (tracker w) = true →
  let w' := startCountdown w in
  let mid := nextTimer w in
  let id := Pos.succ (nextTimer w) in
  let wait := (if endsWithPunctuation (promptText w) then 6000 else 8000)%Z in
  (endsWithPunctuation (promptText w) = true
   ↔ ∃ c, last (trim (promptText w)) = Some c ∧ c ∈ PUNCTUATION)
  ∧ countdownTimer (tracker w') = Some id
  ∧ find_timer id w' = Some {| tid := id; due := clock w + wait; repeat := None;
                               action := TCountdown mid |}
  ∧ ∀ dt : N,
      let w'' := step (EvAdvance dt) w' in
      ((Z.of_N dt < wait)%Z → step (EvFire id) w'' = w'')
      ∧ ((wait ≤ Z.of_N dt)%Z →
         step (EvFire id) w'' = countdownExpiry mid (clearTimeout id w'')).
Proof.
  intros Hr Hg w' mid id wait.
  destruct (reachable_Inv _ _ Hr) as [Hcfg _ Htm _ Hin].
  destruct (startCountdown_armed w Hg) as (Htimers & Hct & Hclock).
  rewrite Hcfg in Htimers. simpl in Htimers. fold mid id wait w' in Htimers, Hct, Hclock.
  set (tc := {| tid := id; due := clock w + wait; repeat := None;
                action := TCountdown mid |}) in *.
  assert (Hok' : timers_ok w').
  { by apply (tm_ok_startCountdown w (conj Htm Hin)). }
  assert (Hfind : find_timer id w' = Some tc).
  { apply (find_timer_unique w' tc); [apply Hok'|].
    rewrite Htimers. apply elem_of_app. right. apply elem_of_cons. right.
    by apply list_elem_of_singleton. }
  split; [apply endsWithPunctuation_spec|]. split; [done|]. split; [done|].
  intros dt w''.
  assert (Hfind'' : find_timer id w'' = Some tc).
  { subst w''. simpl. revert Hfind. unfold find_timer. by wdestruct w'. }
  assert (Hclock'' : clock w'' = (clock w + Z.of_N dt)%Z).
  { subst w''. simpl. rewrite <-Hclock. by wdestruct w'. }
  simpl. unfold_fire. rewrite Hfind''. simpl. rewrite Hclock''. split.
  - intros Hlt. destruct (Z.leb_spec (clock w + wait) (clock w + Z.of_N dt)); [lia|done].
  - intros Hle. destruct (Z.leb_spec (clock w + wait) (clock w + Z.of_N dt)); [done|lia].
Qed.

(** *** The text the program observes *)

Local Abbreviation observed := (observed toLowerCase).

Lemma observed_reachable now w : observed now w → reachable now w.
Proof. induction 1; by constructor. Qed.

Lemma promptText_onTextChanged text w : promptText (onTextChanged text w) = text.
Proof.
  unfold onTextChanged.
  assert (Hlast : ∀ w1, promptText w1 = text →
            promptText (set_previousTextForTracking text w1) = text).
  { intros w1. by wdestruct w1. }
  assert (E0 : promptText (set_promptText text w) = text) by (by wdestruct w).
  apply Hlast. repeat case_match; try done.
  rewrite (same_promptText _ _ (same_resetInactivityTimer _)).
  by destruct (same_foldl_trackKeystroke
       (codePoints (drop (length (previousTextForTracking (set_promptText text w))) text))
       (set_promptText text w)) as (_ & -> & _).
Qed.

(** Only a change of the text writes the text the tracker reads. *)
Lemma promptText_step e w :
  cb_ok w →
  promptText (step e w)
  = match e with EvTextChanged text => text | _ => promptText w end.
Proof.
  intros Hok. destruct e; simpl.
  - by wdestruct w.
  - destruct (fire_cases id w Hok) as [Hs|[text Hf]]; [apply Hs|apply Hf].
  - apply promptText_onTextChanged.
  - apply same_handleAssess.
  - unfold handleKeyboardShortcut. case_match; [|done].
    destruct (forceTrigger_cases w) as [[-> _]|[Hf _]]; [done|apply Hf].
  - apply same_setComposing.
Qed.

(** The text the tracker reads is trimmed, in every execution. *)
Lemma observed_trimmed now w : observed now w → trim (promptText w) = promptText w.
Proof.
  induction 1 as [|e w Ho IH Hd]; [done|].
  destruct (reachable_Inv _ _ (observed_reachable _ _ Ho)) as [_ Hcb _ _ _].
  rewrite (promptText_step e w Hcb). destruct e; try done.
  destruct Hd as [input ->]. apply extractPromptText_trimmed.
Qed.


(** ** The buffer *)

(** C8, amended.  The Recent-History Buffer never holds more than 10
    entries: an accepted keystroke is appended, and when the buffer is full
    the oldest entry leaves first.  A classifier sample does not prune the
    buffer, it leaves it as it is; the rate, and the state the sample
    records, count only the entries that arrived less than 1000 ms ago. *)
Theorem C8_recent_history_buffer now w :
  reachable now w →
  let buf := charTimestamps (tracker w) in
  length buf ≤ 10
  ∧ (∀ c, let e := {| char := c; timestamp := clock w |} in
       charTimestamps (tracker (trackKeystroke c w)) =
         if isComposing (tracker w) then buf
         else if decide (length buf < 10) then buf ++ [e]
         else tail buf ++ [e])
  ∧ charTimestamps (tracker (sampleVelocity w)) = buf
  ∧ getCurrentVelocity w
      = length (filter (λ e, (clock w - timestamp e < 1000)%Z) buf)
  ∧ currentState (tracker (sampleVelocity w))
      = classify DEFAULT_CONFIG (getCurrentVelocity w).
Proof.
  intros Hr buf. destruct (reachable_Inv _ _ Hr) as [Hcfg _ _ Hbuf _].
  unfold buffer_ok in Hbuf. rewrite Hcfg in Hbuf. simpl in Hbuf. fold buf in Hbuf.
  split; [done|]. split; [|split; [apply sampleVelocity_currentState|]].
  - intros c e. rewrite trackKeystroke_buffer. fold buf. rewrite Hcfg.
    assert (E : ∀ v, charTimestamps (tracker (on_tracker (set_charTimestamps v) w)) = v).
    { intros v. by wdestruct w. }
    rewrite E. destruct (isComposing (tracker w)); [done|]. simpl.
    rewrite length_app. simpl. fold e.
    destruct (decide (length buf < 10)) as [Hlt|Hge].
    + destruct (Nat.ltb_spec 10 (length buf + 1)); [lia|done].
    + destruct (Nat.ltb_spec 10 (length buf + 1)); [|lia].
      destruct buf; [simpl in *; lia|done].
  - split; [done|].
    destruct (sampleVelocity_currentState w) as [-> _]. by rewrite Hcfg.
Qed.

(** ** Forwarding and the Last-Sent pair *)

(** C9.  When the gate rejects the candidate at countdown expiry the trigger
    is dropped silently: the expiry does nothing but clear its own midpoint
    timer, so nothing is handed to any consumer and Last-Sent Text and
    Last-Sent Timestamp keep their values.  When it accepts, the candidate
    is forwarded and both are updated, to the candidate and to the current
    time.  And whatever event happens, either nothing is forwarded and
    neither of the two changes, or one text is forwarded and both are
    updated to it and to the time of the forward. *)
Theorem C9_last_sent_atomic now w mid :
  reachable now w →
  let text := promptText w in
  let w' := countdownExpiry mid w in
  (passesPreFilters (tracker w) (clock w) text = false →
     w' = clearTimeout mid w
     ∧ out w' = out w ∧ triggers w' = triggers w ∧ last_sent w' = last_sent w)
  ∧ (passesPreFilters (tracker w) (clock w) text = true →
     currentState (tracker w) = STOPPED → getCurrentText (tracker w) = true →
     triggers w' = triggers w ++ [text] ∧ last_sent w' = (text, clock w))
  ∧ (triggers w' = triggers w ∧ last_sent w' = last_sent w
     ∨ triggers w' = triggers w ++ [text] ∧ last_sent w' = (text, clock w))
  ∧ ∀ e, sent_step w (step e w).
Proof.
  intros Hr text w'. destruct (reachable_Inv _ _ Hr) as [_ Hcb _ _ _].
  pose proof (countdownExpiry_cases mid w Hcb) as Hcases. fold w' text in Hcases.
  assert (Hclear : w' = clearTimeout mid w →
            w' = clearTimeout mid w
            ∧ out w' = out w ∧ triggers w' = triggers w ∧ last_sent w' = last_sent w).
  { intros ->. split; [done|]. by wdestruct w. }
  split; [|split; [|split]].
  - intros Hp. destruct Hcases as [[E _]|(_ & _ & _ & Hp')]; [auto|congruence].
  - intros Hp Hs Hg. destruct Hcases as [[_ E]|[Hf _]].
    + rewrite Hp, Hg, bool_decide_eq_true_2 in E by done. done.
    + split; apply Hf.
  - destruct Hcases as [[E _]|[Hf _]].
    + left. by apply Hclear in E as (_ & _ & ? & ?).
    + right. split; apply Hf.
  - intros e. by apply step_rel_step.
Qed.

(** ** Manual and automatic triggers *)

(** Between two forwards the Last-Sent pair does not move. *)
Lemma run_quiet evs w :
  cb_ok w →
  length (triggers w) ≤ length (triggers (run evs w))
  ∧ (clock w ≤ clock (run evs w))%Z
  ∧ config (tracker (run evs w)) = config (tracker w)
  ∧ cb_ok (run evs w)
  ∧ (triggers (run evs w) = triggers w → last_sent (run evs w) = last_sent w).
Proof.
  revert w. induction evs as [|e evs IH]; intros w Hcb.
  { repeat split; done || (simpl; lia). }
  change (run (e :: evs) w) with (run evs (step e w)).
  pose proof (step_rel_step e w Hcb) as [Hc Hcfg Hf Hs].
  destruct (IH (step e w)) as (Hlen & Hclock & Hcfg' & Hcb' & Hlast).
  { by eapply cb_ok_flags. }
  split; [|split; [lia|split; [congruence|split; [done|]]]].
  - destruct Hs as [[_ <-]|(t & _ & E)]; [done|].
    rewrite E, length_app in Hlen. simpl in Hlen. lia.
  - intros Heq. destruct Hs as [[Hl Ht]|(t & _ & E)].
    + rewrite <-Hl. apply Hlast. congruence.
    + rewrite Heq, E, length_app in Hlen. simpl in Hlen. lia.
Qed.

(** C6.  The manual fast path asks for the length floor of 10 only: with
    a text of at least 10 characters [forceTrigger] forwards it at once,
    in the call itself, whatever the Last-Sent pair holds (so whatever the
    cooldown and change-distance checks would say), and with a shorter
    text it does nothing.  Hence two manual triggers in a row both fire,
    however short the time between them, while of two automatic triggers
    in a row less than 30000 ms apart the second never fires. *)
Theorem C6_manual_fast_path now w :
  reachable now w →
  let text := promptText w in
  (getCurrentText (tracker w) = true → 10 ≤ length text →
     triggers (forceTrigger w) = triggers w ++ [text]
     ∧ last_sent (forceTrigger w) = (text, clock w)
     ∧ clock (forceTrigger w) = clock w)
  ∧ (length text < 10 → forceTrigger w = w)
  ∧ (getCurrentText (tracker w) = true → 10 ≤ length text →
     ∀ dt, triggers (forceTrigger (step (EvAdvance dt) (forceTrigger w)))
           = triggers w ++ [text; text])
  ∧ (∀ mid evs mid',
       let w1 := countdownExpiry mid w in
       let w2 := run evs w1 in
       triggers w1 ≠ triggers w →
       triggers w2 = triggers w1 →
       (clock w2 - clock w < 30000)%Z →
       triggers (countdownExpiry mid' w2) = triggers w2).
Proof.
  intros Hr text. subst text. destruct (reachable_Inv _ _ Hr) as [Hcfg Hcb _ _ _].
  assert (Hforce : ∀ w0, getCurrentText (tracker w0) = true →
            triggerCallback (tracker w0) = true → 10 ≤ length (promptText w0) →
            forwards (promptText w0) w0 (forceTrigger w0)).
  { intros w0 Hg Ht Hlen. destruct (forceTrigger_cases w0) as [[_ E]|[Hf _]]; [|done].
    rewrite Hg, Ht in E. cbn [andb] in E. apply Nat.leb_gt in E. lia. }
  split; [|split; [|split]].
  - intros Hg Hlen. by destruct (Hforce w Hg (Hcb Hg) Hlen).
  - intros Hlen. destruct (forceTrigger_cases w) as [[E _]|(_ & _ & _ & ?)]; [done|].
    lia.
  - intros Hg Hlen dt.
    pose proof (Hforce w Hg (Hcb Hg) Hlen) as [Hc Hp Hcf Hfl Hb Hs Ht].
    set (w1 := forceTrigger w) in *. set (w1' := step (EvAdvance dt) w1).
    assert (Hg1 : getCurrentText (tracker w1) = true
                  ∧ triggerCallback (tracker w1) = true).
    { destruct Hfl as [[-> ->]|[? ?]]; auto. }
    assert (H1' : promptText w1' = promptText w ∧ triggers w1' = triggers w1
                  ∧ getCurrentText (tracker w1') = true
                  ∧ triggerCallback (tracker w1') = true).
    { subst w1'. revert Hp Hg1. simpl. by wdestruct w1. }
    destruct H1' as (Hp' & Ht' & Hg' & Htc').
    destruct (Hforce w1' Hg' Htc') as [_ _ _ _ _ _ Ht2]; [rewrite Hp'; done|].
    rewrite Ht2, Hp', Ht', Ht, <-app_assoc. done.
  - intros mid evs mid' w1 w2 Hfired Hquiet Hclose.
    destruct (countdownExpiry_cases mid w Hcb) as [[E _]|[Hf _]].
    { destruct Hfired. unfold w1. rewrite E. by wdestruct w. }
    fold w1 in Hf. destruct Hf as [Hc Hp Hcf Hfl Hb Hs Ht].
    assert (Hcb1 : cb_ok w1) by (by eapply cb_ok_flags).
    destruct (run_quiet evs w1 Hcb1) as (_ & _ & Hcfg2 & Hcb2 & Hlast).
    fold w2 in Hcfg2, Hcb2, Hlast.
    specialize (Hlast Hquiet). rewrite Hs in Hlast.
    destruct (countdownExpiry_cases mid' w2 Hcb2) as [[E _]|(_ & _ & _ & Hpass)].
    { rewrite E. by wdestruct w2. }
    exfalso. unfold_gate_in Hpass.
    rewrite Hcfg2, Hcf, Hcfg in Hpass. simpl in Hpass.
    injection Hlast as _ Htime. rewrite Htime in Hpass.
    destruct (length (promptText w2) <? 15)%nat; [done|].
    destruct (Z.ltb_spec (clock w2 - clock w) 30000); [done|lia].
Qed.

(** C10.  The manual fast path makes no denylist check: with a text of at
    least 10 characters [forceTrigger] forwards it even when its lower-cased,
    trimmed form is a denylisted phrase, a text the automatic gate never
    accepts.  ['testing'] followed by three spaces is such a text. *)
Theorem C10_manual_path_skips_denylist w :
  (∀ s, Forall (λ c, (c < 128)%N) s → toLowerCase s = lower_basic_latin <$> s) →
  getCurrentText (tracker w) = true →
  triggerCallback (tracker w) = true →
  10 ≤ length (promptText w) →
  triggers (forceTrigger w) = triggers w ++ [promptText w]
  ∧ (isThrowaway (promptText w) = true →
     ∀ t now', passesPreFilters t now' (promptText w) = false)
  ∧ length testing_padded = 10
  ∧ isThrowaway testing_padded = true.
Proof.
  intros Hlower Hg Ht Hlen. split; [|split; [|split]].
  - destruct (forceTrigger_cases w) as [[_ E]|[Hf _]]; [|apply Hf].
    rewrite Hg, Ht in E. cbn [andb] in E. apply Nat.leb_gt in E. lia.
  - intros Hthrow t now'.
    unfold_gate.
    rewrite Hthrow. by repeat case_match.
  - done.
  - unfold_isThrowaway. rewrite Hlower.
    + by vm_compute.
    + unfold testing_padded. repeat constructor.
Qed.
End EngineFacts.

(** ** The claims at concrete inputs *)

Lemma reachable_trace evs :
  reachable toLowerCase_basic_latin epoch (run toLowerCase_basic_latin evs (init epoch)).
Proof. apply reachable_run, reachable_init. Qed.

(** The gate accepts [draft] on a fresh tracker. *)
Lemma C1_witness :
  passesPreFilters toLowerCase_basic_latin (new_tracker DEFAULT_CONFIG) epoch draft = true
  ↔ 15 ≤ length draft
    ∧ (30000 ≤ epoch - 0)%Z
    ∧ (2 # 10 <= calculateChangePercent draft [])%Q
    ∧ trim (toLowerCase_basic_latin draft) ∉ THROWAWAY_PHRASES.
Proof.
  exact (proj1 (C1_eligibility_gate toLowerCase_basic_latin
                  (new_tracker DEFAULT_CONFIG) epoch draft eq_refl)).
Defined.

(** The activation scenario is an execution of the program: [draft] is the
    content of a text area, which a detector reads and trims. *)
Lemma observed_activation_trace :
  observed toLowerCase_basic_latin epoch
    (run toLowerCase_basic_latin activation_trace (init epoch)).
Proof.
  apply (observed_step _ _ EvAssessClick); [|exact I].
  apply (observed_step _ _ (EvTextChanged draft)); [constructor|].
  by exists (Some {| textContent := None; value := Some draft |}).
Qed.


Lemma C4_witness :
  ∃ d : nat, is_edit_distance (lit "kitten") (lit "sitting") d
    ∧ (calculateChangePercent (lit "kitten") (lit "sitting")
       == inject_Z (Z.of_nat d) / inject_Z 7)%Q.
Proof.
  destruct (C4_change_distance (lit "kitten") (lit "sitting"))
    as (d & Hd & _ & Hq & _).
  exists d. split; [exact Hd|]. apply Hq. discriminate.
Defined.

Lemma C5_witness :
  (calculateChangePercent draft draft == 0)%Q
  ∧ calculateChangePercent draft [] = 1%Q.
Proof.
  destruct (C5_change_distance_identities draft) as (H0 & H1 & _).
  split; [apply H0; discriminate|exact H1].
Defined.

(** From the empty string to itself the change distance is 1, not 0. *)
Lemma C5_counterexample :
  calculateChangePercent [] [] = 1%Q ∧ ¬ (calculateChangePercent [] [] == 0)%Q.
Proof. split; [done|]. by intros H. Qed.

(** Two manual triggers one second apart both fire. *)
Lemma C6_witness :
  let w := run toLowerCase_basic_latin activation_trace (init epoch) in
  triggers (forceTrigger (step toLowerCase_basic_latin (EvAdvance 1000) (forceTrigger w)))
  = [draft; draft].
Proof.
  intros w.
  destruct (C6_manual_fast_path toLowerCase_basic_latin epoch w
              (reachable_trace activation_trace)) as (_ & _ & H & _).
  apply (H eq_refl). vm_compute. lia.
Defined.

Lemma C8_witness :
  let w := run toLowerCase_basic_latin old_entry_trace (init epoch) in
  length (charTimestamps (tracker w)) ≤ 10
  ∧ charTimestamps (tracker (sampleVelocity w)) = charTimestamps (tracker w).
Proof.
  intros w.
  destruct (C8_recent_history_buffer toLowerCase_basic_latin epoch w
              (reachable_trace old_entry_trace)) as (H1 & _ & H2 & _).
  split; [exact H1|exact H2].
Defined.

(** Right after a sampling tick the buffer still holds an entry that
    arrived 1400 ms ago, and another sample leaves it there. *)
Lemma C8_counterexample :
  let w := run toLowerCase_basic_latin old_entry_trace (init epoch) in
  action <$> find_timer 1 w = Some TSample
  ∧ (λ e, clock w - timestamp e)%Z <$> charTimestamps (tracker w) = [1400%Z]
  ∧ (λ e, clock w - timestamp e)%Z <$> charTimestamps (tracker (sampleVelocity w))
    = [1400%Z].
Proof. done. Qed.

Lemma C9_witness :
  let w := run toLowerCase_basic_latin late_trigger_trace (init epoch) in
  sent_step w (step toLowerCase_basic_latin (EvFire 9) w).
Proof.
  intros w.
  destruct (C9_last_sent_atomic toLowerCase_basic_latin epoch w 1
              (reachable_trace late_trigger_trace)) as (_ & _ & _ & H).
  exact (H (EvFire 9)).
Defined.

Lemma C10_witness :
  let w := run toLowerCase_basic_latin testing_trace (init epoch) in
  promptText w = testing_padded
  ∧ triggers (forceTrigger w) = [testing_padded]
  ∧ isThrowaway toLowerCase_basic_latin testing_padded = true.
Proof.
  intros w.
  destruct (C10_manual_path_skips_denylist toLowerCase_basic_latin w)
    as (H1 & _ & _ & H2).
  - intros s _. reflexivity.
  - reflexivity.
  - reflexivity.
  - vm_compute. lia.
  - split; [reflexivity|]. split; [exact H1|exact H2].
Defined.

(** ** Stale timers *)

(** C2 at a failing execution.  The classifier leaves [STOPPED] during the
    grace period of check 5 and the check stays pending; it fires after the
    classifier has re-entered [STOPPED] and arms countdown 9, 497 ms after
    the re-entry instead of 1500.  Check 7 arms countdown 11 over it.  The user resumes
    typing: the classifier leaves [STOPPED], [cancelCountdown] clears
    countdown 11 and countdown 9 stays pending.  The user pauses again, and
    when countdown 9 fires, [onTrigger] is called. *)
Theorem C2_stale_countdown_fires :
  let at_ evs := run toLowerCase_basic_latin evs (init epoch) in
  (* the grace check survives the transition out of STOPPED *)
  (currentState (tracker (at_ stopped_once_trace)) = STOPPED
   ∧ tid <$> pending_grace (at_ stopped_once_trace) = [5%positive]
   ∧ currentState (tracker (at_ left_stopped_trace)) = EDITING
   ∧ tid <$> pending_grace (at_ left_stopped_trace) = [5%positive])
  (* and arms a countdown 497 ms after STOPPED is entered again *)
  ∧ (currentState (tracker (at_ stopped_again_trace)) = STOPPED
     ∧ clock (at_ stopped_again_trace) = (epoch + 2504)%Z
     ∧ (λ t, (tid t, due t - epoch)%Z) <$> active_countdowns (at_ stale_grace_trace)
       = [(9%positive, 11001%Z)])
  (* the countdown survives the next transition out of STOPPED *)
  ∧ (currentState (tracker (at_ two_countdowns_trace)) = STOPPED
     ∧ currentState (tracker (at_ resumed_trace)) = EDITING
     ∧ countdownTimer (tracker (at_ resumed_trace)) = None
     ∧ tid <$> active_countdowns (at_ resumed_trace) = [9%positive])
  (* and calls onTrigger when it fires *)
  ∧ (clock (at_ late_trigger_trace) = (epoch + 11004)%Z
     ∧ triggers (at_ late_trigger_trace) = []
     ∧ triggers (step toLowerCase_basic_latin (EvFire 9) (at_ late_trigger_trace))
       = [draft ++ lit " Wh"]).
Proof. vm_compute. repeat split. Qed.

(** C7 at a failing execution.  Grace check 5, scheduled before countdown
    11 was armed, and grace check 7 both fire while the classifier is in
    [STOPPED]: two countdown timers are pending at once, [startCountdown]
    having overwritten the handle of the first without clearing it, and
    [cancelCountdown] clears only the second. *)
Theorem C7_two_countdowns_pending :
  let w := run toLowerCase_basic_latin two_countdowns_trace (init epoch) in
  tid <$> active_countdowns w = [9%positive; 11%positive]
  ∧ countdownTimer (tracker w) = Some 11%positive
  ∧ tid <$> active_countdowns (cancelCountdown w) = [9%positive]
  ∧ tid <$> active_inactivity w = [6%positive].
Proof. vm_compute. repeat split. Qed.

(** * Further properties of the code *)

(** ** [levenshteinDistance] is a metric *)

Section EditDistanceMetric.
Context {A : Type} `{EqDecision A}.
Implicit Types a b c : list A.

Lemma es_sym a b n : edit_script a b n → edit_script b a n.
Proof. induction 1; by constructor. Qed.

Lemma es_zero a b : edit_script a b 0 → a = b.
Proof.
  intros Hs. remember 0 as n eqn:E. induction Hs; try done. f_equal. auto.
Qed.

(** Two scripts in a row are worth one script that costs no more. *)
Lemma es_trans a b c n m :
  edit_script a b n → edit_script b c m → ∃ k, k ≤ n + m ∧ edit_script a c k.
Proof.
  remember (length a + length b + length c) as s eqn:Hs.
  revert a b c n m Hs. induction (lt_wf s) as [s _ IH].
  intros a b c n m -> H1 H2.
  assert (Hrec : ∀ a' b' c' n' m',
            length a' + length b' + length c' < length a + length b + length c →
            edit_script a' b' n' → edit_script b' c' m' →
            ∃ k, k ≤ n' + m' ∧ edit_script a' c' k).
  { intros a' b' c' n' m' Hlt. by eapply IH. }
  inversion H1 as [|x a1 b1 n1 H1'|x y a1 b1 n1 H1'|x a1 b1 n1 H1'|y a1 b1 n1 H1'];
    subst.
  - (* nothing left of [a] and [b] *)
    exists m. split; [lia|done].
  - (* keep [x] *)
    inversion H2 as [|x2 a2 c2 m2 H2'|x2 z a2 c2 m2 H2'|x2 a2 c2 m2 H2'
                     |z a2 c2 m2 H2']; subst.
    + destruct (Hrec a1 b1 c2 n m) as (k & Hk & Hs); [simpl; lia|done..|].
      exists k. split; [lia|by constructor].
    + destruct (Hrec a1 b1 c2 n m2) as (k & Hk & Hs); [simpl; lia|done..|].
      exists (S k). split; [lia|by constructor].
    + destruct (Hrec a1 b1 c n m2) as (k & Hk & Hs); [simpl; lia|done..|].
      exists (S k). split; [lia|by constructor].
    + destruct (Hrec (x :: a1) (x :: b1) c2 n m2) as (k & Hk & Hs);
        [simpl; lia|done..|].
      exists (S k). split; [lia|by constructor].
  - (* substitute [y] for [x] *)
    inversion H2 as [|x2 a2 c2 m2 H2'|x2 z a2 c2 m2 H2'|x2 a2 c2 m2 H2'
                     |z a2 c2 m2 H2']; subst.
    + destruct (Hrec a1 b1 c2 n1 m) as (k & Hk & Hs); [simpl; lia|done..|].
      exists (S k). split; [lia|by constructor].
    + destruct (Hrec a1 b1 c2 n1 m2) as (k & Hk & Hs); [simpl; lia|done..|].
      exists (S k). split; [lia|by constructor].
    + destruct (Hrec a1 b1 c n1 m2) as (k & Hk & Hs); [simpl; lia|done..|].
      exists (S k). split; [lia|by constructor].
    + destruct (Hrec (x :: a1) (y :: b1) c2 (S n1) m2) as (k & Hk & Hs);
        [simpl; lia|done..|].
      exists (S k). split; [lia|by constructor].
  - (* delete [x] *)
    destruct (Hrec a1 b c n1 m) as (k & Hk & Hs); [simpl; lia|done..|].
    exists (S k). split; [lia|by constructor].
  - (* insert [y] *)
    inversion H2 as [|x2 a2 c2 m2 H2'|x2 z a2 c2 m2 H2'|x2 a2 c2 m2 H2'
                     |z a2 c2 m2 H2']; subst.
    + destruct (Hrec a b1 c2 n1 m) as (k & Hk & Hs); [simpl; lia|done..|].
      exists (S k). split; [lia|by constructor].
    + destruct (Hrec a b1 c2 n1 m2) as (k & Hk & Hs); [simpl; lia|done..|].
      exists (S k). split; [lia|by constructor].
    + destruct (Hrec a b1 c n1 m2) as (k & Hk & Hs); [simpl; lia|done..|].
      exists k. split; [lia|done].
    + destruct (Hrec a (y :: b1) c2 (S n1) m2) as (k & Hk & Hs);
        [simpl; lia|done..|].
      exists (S k). split; [lia|by constructor].
Qed.

(** Appending [s] to a string is [length s] edits away, and no fewer. *)
Lemma es_append a s : edit_script a (a ++ s) (length s).
Proof.
  induction a as [|x a IH]; simpl; [apply es_insert_all|by constructor].
Qed.

End EditDistanceMetric.

Lemma levenshteinDistance_sym (a b : list N) :
  levenshteinDistance a b = levenshteinDistance b a.
Proof.
  pose proof (levenshteinDistance_is_edit_distance a b) as [Hab Hab'].
  pose proof (levenshteinDistance_is_edit_distance b a) as [Hba Hba'].
  apply es_sym in Hab. apply es_sym in Hba.
  apply Hba' in Hab. apply Hab' in Hba. lia.
Qed.

Lemma levenshteinDistance_append (a s : list N) :
  levenshteinDistance (a ++ s) a = length s.
Proof.
  rewrite levenshteinDistance_sym.
  pose proof (levenshteinDistance_is_edit_distance a (a ++ s)) as [Hs Hmin].
  apply es_length in Hs. rewrite length_app in Hs.
  specialize (Hmin _ (es_append a s)). lia.
Qed.

(** X1.  [levenshteinDistance] is a metric on strings: it is 0 exactly
    between equal strings, it is symmetric, and it satisfies the triangle
    inequality. *)
Theorem X1_levenshteinDistance_metric (a b c : list N) :
  (levenshteinDistance a b = 0 ↔ a = b)
  ∧ levenshteinDistance a b = levenshteinDistance b a
  ∧ levenshteinDistance a c ≤ levenshteinDistance a b + levenshteinDistance b c.
Proof.
  pose proof (levenshteinDistance_is_edit_distance a b) as [Hab Hab'].
  pose proof (levenshteinDistance_is_edit_distance b a) as [Hba Hba'].
  pose proof (levenshteinDistance_is_edit_distance b c) as [Hbc _].
  pose proof (levenshteinDistance_is_edit_distance a c) as [_ Hac'].
  split; [|split].
  - split.
    + intros E. rewrite E in Hab. by apply es_zero.
    + intros <-. specialize (Hab' 0 (es_refl a)). lia.
  - apply levenshteinDistance_sym.
  - destruct (es_trans _ _ _ _ _ Hab Hbc) as (k & Hk & Hs).
    apply Hac' in Hs. lia.
Qed.

(** X2.  [levenshteinDistance] lies between the difference of the two
    lengths and the larger of them, and when one string extends the other
    it is the number of characters added. *)
Theorem X2_levenshteinDistance_bounds (a b s : list N) :
  length a - length b ≤ levenshteinDistance a b
  ∧ length b - length a ≤ levenshteinDistance a b
  ∧ levenshteinDistance a b ≤ length a `max` length b
  ∧ levenshteinDistance a (a ++ s) = length s
  ∧ levenshteinDistance (a ++ s) a = length s.
Proof.
  pose proof (levenshteinDistance_is_edit_distance a b) as Hd.
  pose proof (es_length _ _ _ (proj1 Hd)) as Hlen.
  split; [lia|]. split; [lia|]. split; [by apply is_edit_distance_max|].
  split; [|apply levenshteinDistance_append].
  rewrite levenshteinDistance_sym. apply levenshteinDistance_append.
Qed.

(** ** Sentence-terminal marks *)

(** X18.  [endsWithPunctuation] looks at the last character that is not
    white space, wherever it stands: the answer is whether that character
    is one of the six marks; a text of white space only, the empty text
    included, has none. *)
Theorem X18_endsWithPunctuation_last_visible_character (s post : list N) (c : N) :
  Forall (λ d, isWhiteSpace d = true) post →
  (isWhiteSpace c = false →
   endsWithPunctuation (s ++ c :: post) = bool_decide (c ∈ PUNCTUATION))
  ∧ endsWithPunctuation post = false.
Proof.
  intros Hpost. split.
  - intros Hc. unfold endsWithPunctuation, trim.
    rewrite trimStart_app, trimEnd_white, trimStart_snoc, trimEnd_snoc by done.
    by rewrite last_snoc.
  - unfold endsWithPunctuation, trim.
    rewrite <-(app_nil_r post), trimStart_white by done. done.
Qed.

(** ** The classifier and its intervals *)

(** With the default thresholds a rate of 0 is [STOPPED], a rate of 1 is
    [EDITING] and anything above is [FLOW]. *)
Lemma classify_default n :
  classify DEFAULT_CONFIG n =
    match n with 0 => STOPPED | 1 => EDITING | _ => FLOW end.
Proof.
  unfold classify, Qgeb. simpl.
  destruct n as [|[|n]]; [done..|].
  assert (H : Qle_bool 2 (inject_Z (Z.of_nat (S (S n)))) = true); [|by rewrite H].
  apply Qle_bool_iff. unfold Qle. simpl. lia.
Qed.

Lemma Kinv_frame w w' :
  tracker w' = tracker w → timers w' = timers w →
  velocityPollTimer w' = velocityPollTimer w →
  isTrackerActive w' = isTrackerActive w →
  Kinv w → Kinv w'.
Proof.
  intros Et Etm Ev Ea [? ? ? (Hs & Hp & Hi)].
  split; rewrite ?Et; try done.
  unfold intervals_ok. rewrite Et, Etm, Ev, Ea. done.
Qed.

Lemma Kinv_on_tracker f w :
  (∀ t, config (f t) = config t ∧ currentState (f t) = currentState t
        ∧ previousState (f t) = previousState t
        ∧ sampleTimer (f t) = sampleTimer t) →
  Kinv w → Kinv (on_tracker f w).
Proof.
  intros Hf [? ? ? (Hs & Hp & Hi)].
  destruct (Hf (tracker w)) as (E1 & E2 & E3 & E4).
  wdestruct w. simpl in *. split; simpl; try congruence.
  unfold intervals_ok. simpl. rewrite E4. done.
Qed.

Lemma Kinv_emit o w : Kinv w → Kinv (emit o w).
Proof. apply Kinv_frame; by wdestruct w. Qed.

Lemma Kinv_set_typingVelocity v w : Kinv w → Kinv (set_typingVelocity v w).
Proof. apply Kinv_frame; by wdestruct w. Qed.

Lemma Kinv_set_promptText v w : Kinv w → Kinv (set_promptText v w).
Proof. apply Kinv_frame; by wdestruct w. Qed.

Lemma Kinv_set_previousTextForTracking v w :
  Kinv w → Kinv (set_previousTextForTracking v w).
Proof. apply Kinv_frame; by wdestruct w. Qed.

Lemma Kinv_set_clock v w : Kinv w → Kinv (set_clock v w).
Proof. apply Kinv_frame; by wdestruct w. Qed.

Lemma Kinv_set_inactivityTimer v w : Kinv w → Kinv (set_inactivityTimer v w).
Proof. apply Kinv_frame; by wdestruct w. Qed.

Lemma Kinv_add a d p w :
  a ≠ TSample → a ≠ TVelocityPoll →
  Kinv w →
  Kinv (set_nextTimer (Pos.succ (nextTimer w))
     (set_timers (timers w ++ [{| tid := nextTimer w; due := d; repeat := p;
                                  action := a |}]) w)).
Proof.
  intros Ha1 Ha2 [? ? ? (Hs & Hp & Hi)]. wdestruct w. simpl in *.
  split; try done. unfold intervals_ok. simpl. split; [|split; [|done]].
  - intros t [Hin| ->%list_elem_of_singleton]%elem_of_app; [by apply Hs|].
    unfold is_sample. simpl. by destruct a.
  - intros t [Hin| ->%list_elem_of_singleton]%elem_of_app; [by apply Hp|].
    unfold is_poll. simpl. by destruct a.
Qed.

Lemma Kinv_clearTimeout id w : Kinv w → Kinv (clearTimeout id w).
Proof.
  intros [? ? ? (Hs & Hp & Hi)]. unfold clearTimeout. wdestruct w. simpl in *.
  split; try done. unfold intervals_ok. simpl. split; [|split; [|done]].
  - intros t [_ Hin]%list_elem_of_filter. by apply Hs.
  - intros t [_ Hin]%list_elem_of_filter. by apply Hp.
Qed.

Lemma Kinv_rearm (f : timer → timer) w :
  (∀ t, tid (f t) = tid t ∧ action (f t) = action t) →
  Kinv w → Kinv (set_timers (f <$> timers w) w).
Proof.
  intros Hf [? ? ? (Hs & Hp & Hi)]. wdestruct w. simpl in *.
  split; try done. unfold intervals_ok. simpl. split; [|split; [|done]].
  - intros t' (t & -> & Hin)%list_elem_of_fmap. destruct (Hf t) as [-> Ea].
    unfold is_sample. rewrite Ea. by apply Hs.
  - intros t' (t & -> & Hin)%list_elem_of_fmap. destruct (Hf t) as [-> Ea].
    unfold is_poll. rewrite Ea. by apply Hp.
Qed.

#[local] Hint Resolve Kinv_emit Kinv_set_typingVelocity Kinv_set_promptText
  Kinv_set_previousTextForTracking Kinv_set_clock Kinv_set_inactivityTimer
  Kinv_clearTimeout : kinv.
#[local] Hint Extern 1 (Kinv (on_tracker _ _)) =>
  apply Kinv_on_tracker; [by intros []|] : kinv.
#[local] Hint Extern 1 (Kinv (set_nextTimer _ (set_timers (_ ++ [_]) _))) =>
  apply Kinv_add; [discriminate|discriminate|] : kinv.

Lemma Kinv_cancelCountdown w : Kinv w → Kinv (cancelCountdown w).
Proof. intros. unfold cancelCountdown. kinv_solve. Qed.

Lemma Kinv_trackKeystroke c w : Kinv w → Kinv (trackKeystroke c w).
Proof. intros. rewrite trackKeystroke_buffer. kinv_solve. Qed.

Lemma Kinv_setComposing b w : Kinv w → Kinv (setComposing b w).
Proof. intros. unfold setComposing. kinv_solve. Qed.

Lemma Kinv_notifyStateChange s o w : Kinv w → Kinv (notifyStateChange s o w).
Proof. intros. unfold notifyStateChange. kinv_solve. Qed.

Lemma Kinv_resetInactivityTimer w : Kinv w → Kinv (resetInactivityTimer w).
Proof. intros. unfold resetInactivityTimer, setTimeout, add_timer. kinv_solve. Qed.
#[local] Hint Resolve Kinv_cancelCountdown Kinv_trackKeystroke Kinv_setComposing
  Kinv_notifyStateChange Kinv_resetInactivityTimer : kinv.

(** [stop] clears the sampling interval it holds, which is the only one. *)
Lemma Kinv_stop w : Kinv w → Kinv (stop w).
Proof.
  intros HK. unfold stop. apply Kinv_cancelCountdown.
  destruct HK as [? ? ? (Hs & Hp & Hi)].
  unfold clearTimeout. wdestruct w. simpl in *. destruct st as [id|].
  - split; try done. unfold intervals_ok. simpl. split; [|split].
    + intros t [Hne Hin]%list_elem_of_filter Ht. specialize (Hs t Hin Ht). congruence.
    + intros t [_ Hin]%list_elem_of_filter. by apply Hp.
    + intros Ha. by destruct (Hi Ha).
  - by split.
Qed.

(** [activateVelocityTracker] starts the two intervals only when the engine
    is inactive, when none is pending. *)
Lemma Kinv_activateVelocityTracker w : Kinv w → Kinv (activateVelocityTracker w).
Proof.
  intros HK. unfold activateVelocityTracker.
  destruct (isTrackerActive w) eqn:Ha; [by apply Kinv_resetInactivityTimer|].
  unfold start, setInterval, add_timer. cbv beta iota zeta.
  apply Kinv_resetInactivityTimer.
  destruct HK as [? ? ? (Hs & Hp & Hi)]. destruct (Hi Ha) as [Est Evt].
  wdestruct w. simpl in *. subst.
  split; try done. unfold intervals_ok. simpl. split; [|split; [|done]].
  - intros t [[Hin| ->%list_elem_of_singleton]%elem_of_app
             | ->%list_elem_of_singleton]%elem_of_app Ht; try done.
    by specialize (Hs t Hin Ht).
  - intros t [[Hin| ->%list_elem_of_singleton]%elem_of_app
             | ->%list_elem_of_singleton]%elem_of_app Ht; try done.
    by specialize (Hp t Hin Ht).
Qed.
#[local] Hint Resolve Kinv_stop Kinv_activateVelocityTracker : kinv.

Lemma Kinv_handleAssess textOverride w : Kinv w → Kinv (handleAssess textOverride w).
Proof. intros. unfold handleAssess. kinv_solve. Qed.
#[local] Hint Resolve Kinv_handleAssess : kinv.

Lemma Kinv_executeAssessment text w : Kinv w → Kinv (executeAssessment text w).
Proof. intros. unfold executeAssessment, onTrigger. kinv_solve. Qed.
#[local] Hint Resolve Kinv_executeAssessment : kinv.

Lemma Kinv_forceTrigger w : Kinv w → Kinv (forceTrigger w).
Proof. intros. unfold forceTrigger. kinv_solve. Qed.

Lemma Kinv_startCountdown w : Kinv w → Kinv (startCountdown w).
Proof. intros. unfold startCountdown, setTimeout, add_timer. kinv_solve. Qed.
#[local] Hint Resolve Kinv_forceTrigger Kinv_startCountdown : kinv.

Lemma Kinv_onStateChange newState w :
  newState ≠ REVIEWING → Kinv w → Kinv (onStateChange newState w).
Proof.
  intros Hn HK. unfold onStateChange, setTimeout, add_timer.
  assert (H1 : Kinv (on_tracker (set_currentState newState)
                 (on_tracker (λ t, set_previousState (currentState t) t) w))).
  { destruct HK as [? ? ? (Hs & Hp & Hi)]. wdestruct w. by split. }
  revert H1. generalize (on_tracker (set_currentState newState)
                 (on_tracker (λ t, set_previousState (currentState t) t) w)).
  intros w1 H1. simpl. kinv_solve.
Qed.

Lemma Kinv_sampleVelocity w : Kinv w → Kinv (sampleVelocity w).
Proof.
  intros HK. unfold sampleVelocity. case_match; [|done].
  apply Kinv_onStateChange; [|done].
  rewrite (k_config _ HK), classify_default. by repeat case_match.
Qed.

Lemma Kinv_graceCheck w : Kinv w → Kinv (graceCheck w).
Proof. intros. unfold graceCheck. kinv_solve. Qed.

Lemma Kinv_midpointTick w : Kinv w → Kinv (midpointTick w).
Proof. intros. unfold midpointTick. kinv_solve. Qed.

Lemma Kinv_velocityPoll w : Kinv w → Kinv (velocityPoll w).
Proof. intros. unfold velocityPoll. kinv_solve. Qed.

(** The expiry of the inactivity timer clears both intervals. *)
Lemma Kinv_inactivityExpiry w : Kinv w → Kinv (inactivityExpiry w).
Proof.
  intros HK. unfold inactivityExpiry, stop. apply Kinv_cancelCountdown.
  destruct HK as [? ? ? (Hs & Hp & Hi)].
  unfold clearTimeout. wdestruct w. simpl in *.
  destruct vt as [idv|], st as [ids|]; simpl;
    (split; [done|done|done|]); unfold intervals_ok; simpl;
    (split; [|split; [|done]]).
  all: intros t Hin Ht; repeat (apply list_elem_of_filter in Hin as [? Hin]).
  all: try (specialize (Hs t Hin Ht)); try (specialize (Hp t Hin Ht)); congruence.
Qed.

Lemma Kinv_foldl_trackKeystroke cs w :
  Kinv w → Kinv (foldl (λ w c, trackKeystroke c w) w cs).
Proof. revert w. induction cs; simpl; eauto with kinv. Qed.
#[local] Hint Resolve Kinv_sampleVelocity Kinv_graceCheck Kinv_midpointTick
  Kinv_velocityPoll Kinv_inactivityExpiry Kinv_foldl_trackKeystroke : kinv.

Lemma Kinv_onTextChanged text w : Kinv w → Kinv (onTextChanged text w).
Proof. intros. unfold onTextChanged. kinv_solve. Qed.

Lemma Kinv_handleKeyboardShortcut w : Kinv w → Kinv (handleKeyboardShortcut w).
Proof. intros. unfold handleKeyboardShortcut. kinv_solve. Qed.
#[local] Hint Resolve Kinv_onTextChanged Kinv_handleKeyboardShortcut : kinv.

(** ** What the consumers receive *)

Lemma says_refl w : says [] w w.
Proof. intros H. rewrite app_nil_r. auto. Qed.

Lemma says_frame os w0 w w' :
  stateChangeCallback (tracker w') = stateChangeCallback (tracker w) →
  out w' = out w → typingVelocity w' = typingVelocity w →
  says os w0 w → says os w0 w'.
Proof. intros E1 E2 E3 H H0. rewrite E1, E2, E3. by apply H. Qed.

Lemma says_trans os1 os2 w0 w1 w2 :
  says os1 w0 w1 → says os2 w1 w2 → says (os1 ++ os2) w0 w2.
Proof.
  intros H1 H2 H0. destruct (H1 H0) as (Hc1 & E1 & T1).
  destruct (H2 Hc1) as (Hc2 & E2 & T2).
  split; [done|]. split; [by rewrite E2, E1, app_assoc|].
  destruct T2 as [T2|T2]; [rewrite T2; exact T1|by right].
Qed.

Lemma says_on_tracker os w0 f w :
  (∀ t, stateChangeCallback (f t) = stateChangeCallback t) →
  says os w0 w → says os w0 (on_tracker f w).
Proof. intros Hf. apply says_frame; try (by wdestruct w). wdestruct w. apply Hf. Qed.

(** [start] called without a state-change consumer. *)
Lemma says_unregister os w0 w :
  says os w0 w → says os w0 (on_tracker (set_stateChangeCallback false) w).
Proof. intros H H0. destruct (H H0) as (? & ? & ?). by wdestruct w. Qed.

Lemma says_set_isTrackerActive os w0 b w :
  says os w0 w → says os w0 (set_isTrackerActive b w).
Proof. apply says_frame; by wdestruct w. Qed.

Lemma says_set_velocityPollTimer os w0 v w :
  says os w0 w → says os w0 (set_velocityPollTimer v w).
Proof. apply says_frame; by wdestruct w. Qed.

Lemma says_set_inactivityTimer os w0 v w :
  says os w0 w → says os w0 (set_inactivityTimer v w).
Proof. apply says_frame; by wdestruct w. Qed.

Lemma says_set_promptText os w0 v w : says os w0 w → says os w0 (set_promptText v w).
Proof. apply says_frame; by wdestruct w. Qed.

Lemma says_set_previousTextForTracking os w0 v w :
  says os w0 w → says os w0 (set_previousTextForTracking v w).
Proof. apply says_frame; by wdestruct w. Qed.

Lemma says_set_clock os w0 v w : says os w0 w → says os w0 (set_clock v w).
Proof. apply says_frame; by wdestruct w. Qed.

Lemma says_set_timers os w0 v w : says os w0 w → says os w0 (set_timers v w).
Proof. apply says_frame; by wdestruct w. Qed.

Lemma says_set_nextTimer os w0 v w : says os w0 w → says os w0 (set_nextTimer v w).
Proof. apply says_frame; by wdestruct w. Qed.

Lemma says_clearTimeout os w0 id w : says os w0 w → says os w0 (clearTimeout id w).
Proof. apply says_set_timers. Qed.

(** The displayed velocity is set to a value of at most 10. *)
Lemma says_set_typingVelocity os w0 v w :
  v ≤ 10 → says os w0 w → says os w0 (set_typingVelocity v w).
Proof.
  intros Hv H H0. destruct (H H0) as (? & ? & ?).
  wdestruct w. simpl in *. auto.
Qed.

Lemma says_emit os w0 o w : says os w0 w → says (os ++ [o]) w0 (emit o w).
Proof.
  intros H H0. destruct (H H0) as (? & E & ?).
  wdestruct w. simpl in *. by rewrite E, app_assoc.
Qed.

(** No consumer being registered, a notification reaches nobody. *)
Lemma says_notifyStateChange os w0 s o w :
  says os w0 w → says os w0 (notifyStateChange s o w).
Proof.
  intros H H0. destruct (H H0) as (Hc & ? & ?).
  unfold notifyStateChange. by rewrite Hc.
Qed.

#[local] Hint Resolve says_refl says_unregister says_set_isTrackerActive
  says_set_velocityPollTimer says_set_inactivityTimer says_set_promptText
  says_set_previousTextForTracking says_set_clock says_set_timers
  says_set_nextTimer says_clearTimeout says_notifyStateChange : says.
#[local] Hint Extern 1 (says _ _ (on_tracker _ _)) =>
  apply says_on_tracker; [by intros []|] : says.

Lemma says_start os w0 w : says os w0 w → says os w0 (start false w).
Proof. intros. unfold start, setInterval, add_timer. says_solve. Qed.

Lemma says_cancelCountdown os w0 w : says os w0 w → says os w0 (cancelCountdown w).
Proof. intros. unfold cancelCountdown. says_solve. Qed.
#[local] Hint Resolve says_start says_cancelCountdown : says.

Lemma says_stop os w0 w : says os w0 w → says os w0 (stop w).
Proof. intros. unfold stop. says_solve. Qed.

Lemma says_trackKeystroke os w0 c w : says os w0 w → says os w0 (trackKeystroke c w).
Proof. intros. rewrite trackKeystroke_buffer. says_solve. Qed.

Lemma says_setComposing os w0 b w : says os w0 w → says os w0 (setComposing b w).
Proof. intros. unfold setComposing. says_solve. Qed.

Lemma says_resetInactivityTimer os w0 w :
  says os w0 w → says os w0 (resetInactivityTimer w).
Proof. intros. unfold resetInactivityTimer, setTimeout, add_timer. says_solve. Qed.
#[local] Hint Resolve says_stop says_trackKeystroke says_setComposing
  says_resetInactivityTimer : says.

Lemma says_activateVelocityTracker os w0 w :
  says os w0 w → says os w0 (activateVelocityTracker w).
Proof. intros. unfold activateVelocityTracker, setInterval, add_timer. says_solve. Qed.

Lemma says_startCountdown os w0 w : says os w0 w → says os w0 (startCountdown w).
Proof. intros. unfold startCountdown, setTimeout, add_timer. says_solve. Qed.
#[local] Hint Resolve says_activateVelocityTracker says_startCountdown : says.

Lemma says_onStateChange os w0 newState w :
  says os w0 w → says os w0 (onStateChange newState w).
Proof. intros. unfold onStateChange, setTimeout, add_timer. simpl. says_solve. Qed.
#[local] Hint Resolve says_onStateChange : says.

Lemma says_sampleVelocity os w0 w : says os w0 w → says os w0 (sampleVelocity w).
Proof. intros. unfold sampleVelocity. says_solve. Qed.

Lemma says_graceCheck os w0 w : says os w0 w → says os w0 (graceCheck w).
Proof. intros. unfold graceCheck. says_solve. Qed.

Lemma says_midpointTick os w0 w : says os w0 w → says os w0 (midpointTick w).
Proof. intros. unfold midpointTick. says_solve. Qed.

Lemma says_foldl_trackKeystroke os w0 cs w :
  says os w0 w → says os w0 (foldl (λ w c, trackKeystroke c w) w cs).
Proof. revert w. induction cs; simpl; eauto with says. Qed.
#[local] Hint Resolve says_sampleVelocity says_graceCheck says_midpointTick
  says_foldl_trackKeystroke : says.

Lemma says_onTextChanged os w0 text w :
  says os w0 w → says os w0 (onTextChanged text w).
Proof. intros. unfold onTextChanged. says_solve. Qed.

(** The velocity poll displays a count of buffer entries. *)
Lemma says_velocityPoll os w0 w :
  length (charTimestamps (tracker w)) ≤ 10 →
  says os w0 w → says os w0 (velocityPoll w).
Proof.
  intros Hb H. unfold velocityPoll. case_match; [|done].
  apply says_set_typingVelocity; [|done].
  unfold getCurrentVelocity, recentChars.
  etrans; [apply length_filter|done].
Qed.

Lemma says_inactivityExpiry os w0 w : says os w0 w → says os w0 (inactivityExpiry w).
Proof.
  intros H. unfold inactivityExpiry.
  assert (H1 : says os w0 (set_typingVelocity 0 (set_isTrackerActive false w))).
  { apply says_set_typingVelocity; [lia|]. by apply says_set_isTrackerActive. }
  revert H1. generalize (set_typingVelocity 0 (set_isTrackerActive false w)).
  intros w1 H1. says_solve.
Qed.

(** [handleAssess] reports an error on a text of fewer than 10 characters
    and asks for the assessment of any other. *)
Lemma says_handleAssess os w0 textOverride w :
  says os w0 w →
  let text := match textOverride with
              | Some ((_ :: _) as t) => t
              | _ => promptText w
              end in
  says (os ++ [if (length text <? 10)%nat then OutError else OutAssess text])
    w0 (handleAssess textOverride w).
Proof.
  intros H text. unfold handleAssess. fold text.
  destruct (length text <? 10)%nat; apply says_emit; eauto with says.
Qed.

(** [executeAssessment] on a text of at least 10 characters: the text goes
    to the trigger consumer, which asks for its assessment. *)
Lemma says_executeAssessment os w0 text w :
  10 ≤ length text → says os w0 w →
  says os w0 (executeAssessment text w)
  ∨ says (os ++ forwarded text) w0 (executeAssessment text w).
Proof.
  intros Hlen H. unfold executeAssessment.
  set (w1 := on_tracker (set_lastAssessmentTime _) _).
  assert (H1 : says os w0 w1) by (subst w1; says_solve).
  clearbody w1. destruct (triggerCallback (tracker w1)); [right|by left].
  unfold onTrigger.
  pose proof (says_handleAssess _ _ (Some text) _ (says_emit _ _ (OutTrigger text) _ H1))
    as H2.
  destruct text as [|c text]; [simpl in Hlen; lia|].
  cbv zeta in H2.
  destruct (Nat.ltb_spec (length (c :: text)) 10); [lia|].
  rewrite <-app_assoc in H2. exact H2.
Qed.

Lemma says_forceTrigger w :
  says [] w (forceTrigger w)
  ∨ says (forwarded (promptText w)) w (forceTrigger w).
Proof.
  unfold forceTrigger. case_match; [left; apply says_refl|].
  destruct (Nat.leb_spec 10 (length (promptText w))); [|left; apply says_refl].
  apply (says_executeAssessment [] w (promptText w)); [done|].
  apply says_cancelCountdown, says_refl.
Qed.

(** ** What keeps the engine active *)

Lemma stays_refl w : stays w w.
Proof. by intros H. Qed.

Lemma stays_frame w0 w w' :
  isTrackerActive w' = isTrackerActive w → stays w0 w → stays w0 w'.
Proof. intros E H H0. rewrite E. by apply H. Qed.

Lemma stays_on_tracker w0 f w : stays w0 w → stays w0 (on_tracker f w).
Proof. apply stays_frame. by wdestruct w. Qed.

Lemma stays_activate w0 w : stays w0 (set_isTrackerActive true w).
Proof. intros _. by wdestruct w. Qed.

Lemma stays_emit w0 o w : stays w0 w → stays w0 (emit o w).
Proof. apply stays_frame. by wdestruct w. Qed.

Lemma stays_set_velocityPollTimer w0 v w :
  stays w0 w → stays w0 (set_velocityPollTimer v w).
Proof. apply stays_frame. by wdestruct w. Qed.

Lemma stays_set_inactivityTimer w0 v w :
  stays w0 w → stays w0 (set_inactivityTimer v w).
Proof. apply stays_frame. by wdestruct w. Qed.

Lemma stays_set_typingVelocity w0 v w :
  stays w0 w → stays w0 (set_typingVelocity v w).
Proof. apply stays_frame. by wdestruct w. Qed.

Lemma stays_set_promptText w0 v w : stays w0 w → stays w0 (set_promptText v w).
Proof. apply stays_frame. by wdestruct w. Qed.

Lemma stays_set_previousTextForTracking w0 v w :
  stays w0 w → stays w0 (set_previousTextForTracking v w).
Proof. apply stays_frame. by wdestruct w. Qed.

Lemma stays_set_clock w0 v w : stays w0 w → stays w0 (set_clock v w).
Proof. apply stays_frame. by wdestruct w. Qed.

Lemma stays_set_timers w0 v w : stays w0 w → stays w0 (set_timers v w).
Proof. apply stays_frame. by wdestruct w. Qed.

Lemma stays_set_nextTimer w0 v w : stays w0 w → stays w0 (set_nextTimer v w).
Proof. apply stays_frame. by wdestruct w. Qed.

Lemma stays_clearTimeout w0 id w : stays w0 w → stays w0 (clearTimeout id w).
Proof. apply stays_set_timers. Qed.

#[local] Hint Resolve stays_refl stays_on_tracker stays_activate stays_emit
  stays_set_velocityPollTimer stays_set_inactivityTimer stays_set_typingVelocity
  stays_set_promptText stays_set_previousTextForTracking stays_set_clock
  stays_set_timers stays_set_nextTimer stays_clearTimeout : stays.

Lemma stays_start w0 b w : stays w0 w → stays w0 (start b w).
Proof. intros. unfold start, setInterval, add_timer. stays_solve. Qed.

Lemma stays_cancelCountdown w0 w : stays w0 w → stays w0 (cancelCountdown w).
Proof. intros. unfold cancelCountdown. stays_solve. Qed.
#[local] Hint Resolve stays_start stays_cancelCountdown : stays.

Lemma stays_trackKeystroke w0 c w : stays w0 w → stays w0 (trackKeystroke c w).
Proof. intros. rewrite trackKeystroke_buffer. stays_solve. Qed.

Lemma stays_setComposing w0 b w : stays w0 w → stays w0 (setComposing b w).
Proof. intros. unfold setComposing. stays_solve. Qed.

Lemma stays_notifyStateChange w0 s o w :
  stays w0 w → stays w0 (notifyStateChange s o w).
Proof. intros. unfold notifyStateChange. stays_solve. Qed.

Lemma stays_resetInactivityTimer w0 w :
  stays w0 w → stays w0 (resetInactivityTimer w).
Proof. intros. unfold resetInactivityTimer, setTimeout, add_timer. stays_solve. Qed.
#[local] Hint Resolve stays_trackKeystroke stays_setComposing
  stays_notifyStateChange stays_resetInactivityTimer : stays.

Lemma stays_activateVelocityTracker w0 w :
  stays w0 w → stays w0 (activateVelocityTracker w).
Proof. intros. unfold activateVelocityTracker, setInterval, add_timer. stays_solve. Qed.
#[local] Hint Resolve stays_activateVelocityTracker : stays.

Lemma stays_handleAssess w0 textOverride w :
  stays w0 w → stays w0 (handleAssess textOverride w).
Proof. intros. unfold handleAssess. stays_solve. Qed.
#[local] Hint Resolve stays_handleAssess : stays.

Lemma stays_executeAssessment w0 text w :
  stays w0 w → stays w0 (executeAssessment text w).
Proof. intros. unfold executeAssessment, onTrigger. stays_solve. Qed.
#[local] Hint Resolve stays_executeAssessment : stays.

Lemma stays_forceTrigger w0 w : stays w0 w → stays w0 (forceTrigger w).
Proof. intros. unfold forceTrigger. stays_solve. Qed.

Lemma stays_startCountdown w0 w : stays w0 w → stays w0 (startCountdown w).
Proof. intros. unfold startCountdown, setTimeout, add_timer. stays_solve. Qed.
#[local] Hint Resolve stays_forceTrigger stays_startCountdown : stays.

Lemma stays_onStateChange w0 newState w :
  stays w0 w → stays w0 (onStateChange newState w).
Proof. intros. unfold onStateChange, setTimeout, add_timer. simpl. stays_solve. Qed.
#[local] Hint Resolve stays_onStateChange : stays.

Lemma stays_sampleVelocity w0 w : stays w0 w → stays w0 (sampleVelocity w).
Proof. intros. unfold sampleVelocity. stays_solve. Qed.

Lemma stays_graceCheck w0 w : stays w0 w → stays w0 (graceCheck w).
Proof. intros. unfold graceCheck. stays_solve. Qed.

Lemma stays_midpointTick w0 w : stays w0 w → stays w0 (midpointTick w).
Proof. intros. unfold midpointTick. stays_solve. Qed.

Lemma stays_velocityPoll w0 w : stays w0 w → stays w0 (velocityPoll w).
Proof. intros. unfold velocityPoll. stays_solve. Qed.

Lemma stays_foldl_trackKeystroke w0 cs w :
  stays w0 w → stays w0 (foldl (λ w c, trackKeystroke c w) w cs).
Proof. revert w. induction cs; simpl; eauto with stays. Qed.
#[local] Hint Resolve stays_sampleVelocity stays_graceCheck stays_midpointTick
  stays_velocityPoll stays_foldl_trackKeystroke : stays.

Lemma stays_onTextChanged w0 text w : stays w0 w → stays w0 (onTextChanged text w).
Proof. intros. unfold onTextChanged. stays_solve. Qed.

Lemma stays_handleKeyboardShortcut w0 w :
  stays w0 w → stays w0 (handleKeyboardShortcut w).
Proof. intros. unfold handleKeyboardShortcut. stays_solve. Qed.
#[local] Hint Resolve stays_onTextChanged stays_handleKeyboardShortcut : stays.

(** ** The change check *)

Lemma Qle_fifth_div_nat (k m : nat) :
  0 < m →
  ((2 # 10 <= inject_Z (Z.of_nat k) / inject_Z (Z.of_nat m))%Q ↔ m ≤ 5 * k).
Proof.
  intros Hm.
  assert (Hpos : (0 < inject_Z (Z.of_nat m))%Q).
  { replace 0%Q with (inject_Z 0) by done. rewrite <-Zlt_Qlt. lia. }
  assert (E : (2 # 10 <= inject_Z (Z.of_nat k) / inject_Z (Z.of_nat m))%Q
              ↔ ((2 # 10) * inject_Z (Z.of_nat m) <= inject_Z (Z.of_nat k))%Q).
  { split.
    - intros H. apply (Qmult_le_compat_r _ _ (inject_Z (Z.of_nat m))) in H;
        [|by apply Qlt_le_weak].
      rewrite Qmult_comm, (Qmult_comm (_ / _)), Qmult_div_r in H; [|].
      + by rewrite Qmult_comm.
      + intros E0. rewrite E0 in Hpos. by apply Qlt_irrefl in Hpos.
    - intros H. by apply Qle_shift_div_l. }
  rewrite E. unfold Qle, Qmult, inject_Z. simpl. lia.
Qed.

Section MoreEngineFacts.
Variable toLowerCase : list N → list N.
Local Abbreviation passesPreFilters := (passesPreFilters toLowerCase).
Local Abbreviation preFilterFailure := (preFilterFailure toLowerCase).
Local Abbreviation isThrowaway := (isThrowaway toLowerCase).
Local Abbreviation countdownExpiry := (countdownExpiry toLowerCase).
Local Abbreviation run_action := (run_action toLowerCase).
Local Abbreviation fire := (fire toLowerCase).
Local Abbreviation step := (step toLowerCase).
Local Abbreviation run := (run toLowerCase).
Local Abbreviation reachable := (reachable toLowerCase).

(** X3.  When the candidate is the Last-Sent Text with [s] appended, the
    change distance is the share of the appended characters in the new
    length, so the change check passes exactly when [s] is at least a
    quarter as long as the Last-Sent Text; below that, and in particular
    for an unchanged text, the gate rejects the candidate at any time. *)
Theorem X3_change_check_on_appended_text (last s : list N) :
  last ≠ [] →
  (calculateChangePercent (last ++ s) last
     == inject_Z (Z.of_nat (length s))
        / inject_Z (Z.of_nat (length last + length s)))%Q
  ∧ ((2 # 10 <= calculateChangePercent (last ++ s) last)%Q
     ↔ length last ≤ 4 * length s)
  ∧ (∀ t now, config t = DEFAULT_CONFIG → lastAssessedText t = last →
       4 * length s < length last →
       passesPreFilters t now (last ++ s) = false).
Proof.
  intros Hne.
  assert (E : calculateChangePercent (last ++ s) last
              = (inject_Z (Z.of_nat (length s))
                 / inject_Z (Z.of_nat (length last + length s)))%Q).
  { rewrite calculateChangePercent_nonempty by done.
    rewrite levenshteinDistance_append, length_app. do 3 f_equal. lia. }
  assert (Hlen : 0 < length last + length s).
  { destruct last; [done|simpl; lia]. }
  assert (Hiff : (2 # 10 <= calculateChangePercent (last ++ s) last)%Q
                 ↔ length last ≤ 4 * length s).
  { rewrite E, Qle_fifth_div_nat by done. lia. }
  split; [by rewrite E|]. split; [done|].
  intros t now Hcfg Hlast Hshort.
  unfold_gate. rewrite Hcfg, Hlast. simpl.
  destruct (length (last ++ s) <? 15)%nat; [done|].
  destruct (now - lastAssessmentTime t <? 30000)%Z; [done|].
  destruct (Qltb (calculateChangePercent (last ++ s) last) (2 # 10)) eqn:Hq; [done|].
  exfalso. apply not_true_iff_false in Hq. apply Hq, Qltb_spec.
  rewrite Hiff. lia.
Qed.

(** ** Invariants of every execution, continued *)

Lemma Kinv_countdownExpiry mid w : Kinv w → Kinv (countdownExpiry mid w).
Proof. intros. unfold_countdownExpiry. kinv_solve. Qed.

Lemma Kinv_run_action a w : Kinv w → Kinv (run_action a w).
Proof. intros. destruct a; simpl; eauto using Kinv_countdownExpiry with kinv. Qed.

Lemma Kinv_fire id w : Kinv w → Kinv (fire id w).
Proof.
  intros. unfold_fire. repeat case_match; try done.
  - apply Kinv_run_action, Kinv_rearm; [|done]. intros t'.
    destruct (bool_decide_reflect (tid t' = id)) as [<-|?]; done.
  - apply Kinv_run_action. auto with kinv.
Qed.

Lemma Kinv_step e w : Kinv w → Kinv (step e w).
Proof. intros. destruct e; simpl; eauto using Kinv_fire with kinv. Qed.

Lemma Kinv_init now : Kinv (init now).
Proof.
  split; try done. split; [|split; [|done]]; intros t Ht; by apply elem_of_nil in Ht.
Qed.

Lemma reachable_Kinv now w : reachable now w → Kinv w.
Proof. induction 1; [apply Kinv_init|by apply Kinv_step]. Qed.

(** X4.  With the default thresholds the classifier never reports
    [REVIEWING]: in every execution the current and the previous state are
    [FLOW], [EDITING] or [STOPPED], and a sample records [STOPPED] for a
    rate of 0, [EDITING] for a rate of 1 and [FLOW] for any higher rate. *)
Theorem X4_classifier_never_reviewing now w :
  reachable now w →
  currentState (tracker w) ≠ REVIEWING
  ∧ previousState (tracker w) ≠ REVIEWING
  ∧ currentState (tracker (sampleVelocity w))
    = match getCurrentVelocity w with 0 => STOPPED | 1 => EDITING | _ => FLOW end.
Proof.
  intros Hr. destruct (reachable_Kinv _ _ Hr) as [Hcfg Hc Hp _].
  split; [done|]. split; [done|].
  destruct (sampleVelocity_currentState w) as [-> _].
  by rewrite Hcfg, classify_default.
Qed.

Lemma filter_none_tid (P : timer → Prop) `{∀ t, Decision (P t)} (l : list timer) :
  (∀ t, t ∈ l → ¬ P t) → filter P l = [].
Proof.
  intros Hn. destruct (filter P l) as [|t l'] eqn:E; [done|].
  assert (Hin : t ∈ filter P l) by (rewrite E; constructor).
  apply list_elem_of_filter in Hin as [Ht Hin]. by destruct (Hn t Hin).
Qed.

(** X5.  In every execution at most one sampling interval, at most one
    velocity poll and at most one inactivity timer are pending, and while
    the engine is inactive no sampling interval and no velocity poll is
    pending at all. *)
Theorem X5_one_timer_of_each_kind now w :
  reachable now w →
  length (active_samples w) ≤ 1
  ∧ length (active_polls w) ≤ 1
  ∧ length (active_inactivity w) ≤ 1
  ∧ (isTrackerActive w = false → active_samples w = [] ∧ active_polls w = []).
Proof.
  intros Hr. destruct (reachable_Kinv _ _ Hr) as [_ _ _ (Hs & Hp & Hi)].
  destruct (reachable_Inv _ _ _ Hr) as [_ _ [_ Hdup] _ _].
  assert (Hone : ∀ (P : timer → bool) (h : option positive),
            (∀ t, t ∈ timers w → P t = true → h = Some (tid t)) →
            length (filter (λ t, P t = true) (timers w)) ≤ 1).
  { intros P h Hh. destruct h as [id|].
    - apply (filter_unique_tid _ _ id); [done|].
      intros t Ht HP. specialize (Hh t Ht HP). congruence.
    - apply (filter_unique_tid _ _ 1%positive); [done|].
      intros t Ht HP. specialize (Hh t Ht HP). congruence. }
  split; [by eapply Hone|]. split; [by eapply Hone|].
  split; [by eapply inactivity_timer_unique|].
  intros Ha. destruct (Hi Ha) as [Es Ep]. split; apply filter_none_tid.
  - intros t Ht HP. specialize (Hs t Ht HP). congruence.
  - intros t Ht HP. specialize (Hp t Ht HP). congruence.
Qed.

(** ** The Last-Sent Timestamp *)

Lemma last_sent_time_le_clock now w :
  (0 ≤ now)%Z → reachable now w →
  (lastAssessmentTime (tracker w) ≤ clock w)%Z.
Proof.
  intros Hnow. induction 1 as [|e w Hr IH]; [done|].
  destruct (reachable_Inv _ _ _ Hr) as [_ Hcb _ _ _].
  destruct (step_rel_step toLowerCase e w Hcb) as [Hc _ _ Hs].
  destruct Hs as [[E _]|(text & E & _)].
  - injection E as _ ->. lia.
  - injection E as _ ->. lia.
Qed.

(** X6.  The Last-Sent Timestamp never lies in the future and never goes
    back: no event decreases it. *)
Theorem X6_last_sent_time_monotone now w e :
  (0 ≤ now)%Z → reachable now w →
  (lastAssessmentTime (tracker w) ≤ clock w)%Z
  ∧ (lastAssessmentTime (tracker w) ≤ lastAssessmentTime (tracker (step e w)))%Z.
Proof.
  intros Hnow Hr. pose proof (last_sent_time_le_clock _ _ Hnow Hr) as Hle.
  split; [done|].
  destruct (reachable_Inv _ _ _ Hr) as [_ Hcb _ _ _].
  destruct (step_rel_step toLowerCase e w Hcb) as [_ _ _ Hs].
  destruct Hs as [[E _]|(text & E & _)].
  - injection E as _ ->. lia.
  - injection E as _ ->. lia.
Qed.

(** ** What is forwarded *)

Lemma passes_long t now text :
  config t = DEFAULT_CONFIG → passesPreFilters t now text = true →
  15 ≤ length text.
Proof.
  intros Hcfg. unfold_gate. rewrite Hcfg. simpl.
  destruct (Nat.ltb_spec (length text) 15); [done|lia].
Qed.

Lemma run_action_forwards a w :
  cb_ok w → config (tracker w) = DEFAULT_CONFIG →
  same w (run_action a w)
  ∨ (forwards (promptText w) w (run_action a w) ∧ 15 ≤ length (promptText w)).
Proof.
  intros Hok Hcfg. destruct a; simpl.
  - left. apply same_sampleVelocity.
  - left. apply same_graceCheck.
  - left. apply same_midpointTick.
  - destruct (countdownExpiry_cases toLowerCase midpointTimer w Hok)
      as [[-> _]|(Hf & _ & _ & Hp)].
    + left. apply same_clearTimeout.
    + right. split; [done|]. by eapply passes_long.
  - left. apply same_velocityPoll.
  - left. apply same_inactivityExpiry.
Qed.

Lemma fire_forwards id w :
  cb_ok w → config (tracker w) = DEFAULT_CONFIG →
  same w (fire id w)
  ∨ (forwards (promptText w) w (fire id w) ∧ 15 ≤ length (promptText w)).
Proof.
  intros Hok Hcfg. unfold_fire.
  destruct (find_timer id w) as [t|]; [|left; apply same_refl].
  case_match; [|left; apply same_refl].
  set (w1 := match repeat t with Some _ => _ | None => _ end).
  assert (H1 : same w w1).
  { subst w1. destruct (repeat t); [apply same_rearm|apply same_clearTimeout]. }
  destruct (run_action_forwards (action t) w1) as [Hs|[Hf Hlen]].
  - eapply cb_ok_flags; [|done]. apply H1.
  - by rewrite (same_config _ _ H1).
  - left. by eapply same_trans.
  - right. rewrite (same_promptText _ _ H1) in Hf, Hlen.
    split; [|done]. by eapply same_forwards.
Qed.

(** An event forwards nothing, or the text the field holds when it
    happens, of at least 10 characters. *)
Lemma step_forwards e w :
  cb_ok w → config (tracker w) = DEFAULT_CONFIG →
  triggers (step e w) = triggers w
  ∨ (triggers (step e w) = triggers w ++ [promptText w]
     ∧ 10 ≤ length (promptText w)).
Proof.
  intros Hok Hcfg. destruct e; simpl.
  - left. by wdestruct w.
  - destruct (fire_forwards id w Hok Hcfg) as [Hs|[Hf Hlen]].
    + left. apply Hs.
    + right. split; [apply Hf|lia].
  - left. destruct (step_rel_onTextChanged text w) as [_ _ _ [[_ E]|(t & _ & E)]];
      [done|].
    exfalso. revert E. unfold onTextChanged.
    set (w0 := set_promptText text w).
    assert (E0 : triggers w0 = triggers w) by (subst w0; by wdestruct w).
    assert (Hlast : ∀ w1, triggers (set_previousTextForTracking text w1) = triggers w1).
    { intros w1. by wdestruct w1. }
    rewrite Hlast. repeat case_match; rewrite <-?E0;
      rewrite ?(same_triggers _ _ (same_resetInactivityTimer _));
      rewrite ?(proj1 (proj2 (proj2 (proj2 (proj2 (proj2
                 (same_foldl_trackKeystroke _ _)))))));
      intros E; apply (f_equal length) in E; rewrite length_app in E;
      simpl in E; lia.
  - left. apply same_handleAssess.
  - unfold handleKeyboardShortcut. case_match; [|by left].
    destruct (forceTrigger_cases w) as [[-> _]|(Hf & _ & _ & Hlen)]; [by left|].
    right. split; [apply Hf|done].
  - left. apply same_setComposing.
Qed.

(** X7.  Every text handed to [onTrigger], by a countdown or by the manual
    path, is at least 10 characters long, and it is the text the field held
    at the moment of the forward. *)
Theorem X7_forwarded_texts now w :
  reachable now w →
  Forall (λ text, 10 ≤ length text) (triggers w)
  ∧ ∀ e, triggers (step e w) = triggers w
         ∨ (triggers (step e w) = triggers w ++ [promptText w]
            ∧ 10 ≤ length (promptText w)).
Proof.
  intros Hr.
  assert (Hall : Forall (λ text, 10 ≤ length text) (triggers w)).
  { induction Hr as [|e w Hr IH]; [constructor|].
    destruct (reachable_Inv _ _ _ Hr) as [Hcfg Hcb _ _ _].
    destruct (step_forwards e w Hcb Hcfg) as [->|[-> Hlen]]; [done|].
    apply Forall_app. split; [done|]. by constructor. }
  split; [done|]. intros e.
  destruct (reachable_Inv _ _ _ Hr) as [Hcfg Hcb _ _ _].
  by apply step_forwards.
Qed.

(** X8.  Any forward, manual ones included, starts the cooldown of the
    automatic path: if an event forwards a text and nothing is forwarded
    afterwards, a countdown that expires less than 30000 ms after that
    event forwards nothing. *)
Theorem X8_cooldown_after_any_forward now w e evs mid :
  reachable now w →
  triggers (step e w) ≠ triggers w →
  triggers (run evs (step e w)) = triggers (step e w) →
  (clock (run evs (step e w)) - clock w < 30000)%Z →
  triggers (countdownExpiry mid (run evs (step e w))) = triggers (run evs (step e w)).
Proof.
  intros Hr Hfired Hquiet Hclose.
  destruct (reachable_Inv _ _ _ Hr) as [Hcfg Hcb _ _ _].
  destruct (step_rel_step toLowerCase e w Hcb) as [_ Hcfg1 Hfl Hs].
  destruct Hs as [[_ E]|(text & Hlast & _)]; [done|].
  assert (Hcb1 : cb_ok (step e w)) by (by eapply cb_ok_flags).
  destruct (run_quiet toLowerCase evs (step e w) Hcb1)
    as (_ & _ & Hcfg2 & Hcb2 & Hsame).
  specialize (Hsame Hquiet). rewrite Hlast in Hsame.
  set (w2 := run evs (step e w)) in *.
  destruct (countdownExpiry_cases toLowerCase mid w2 Hcb2)
    as [[E _]|(_ & _ & _ & Hpass)].
  { rewrite E. by wdestruct w2. }
  exfalso. unfold_gate_in Hpass.
  rewrite Hcfg2, Hcfg1, Hcfg in Hpass. simpl in Hpass.
  injection Hsame as _ Htime. rewrite Htime in Hpass.
  destruct (length (promptText w2) <? 15)%nat; [done|].
  destruct (Z.ltb_spec (clock w2 - clock w) 30000); [done|lia].
Qed.

(** ** What reaches the buffer *)

Lemma codePoints_cons2 (c d : N) (s : list N) :
  codePoints (c :: d :: s)
  = if isHighSurrogate c && isLowSurrogate d
    then [c; d] :: codePoints s else [c] :: codePoints (d :: s).
Proof. done. Qed.

Lemma codePoints_join_le n (s : list N) :
  length s ≤ n → mjoin (codePoints s) = s.
Proof.
  revert s. induction n as [|n IH]; intros s Hlen.
  { destruct s; [done|simpl in Hlen; lia]. }
  destruct s as [|c [|d s]]; [done..|].
  rewrite codePoints_cons2. destruct (isHighSurrogate c && isLowSurrogate d).
  - change (mjoin ([c; d] :: codePoints s)) with (c :: d :: mjoin (codePoints s)).
    rewrite IH; [done|]. simpl in *. lia.
  - change (mjoin ([c] :: codePoints (d :: s))) with (c :: mjoin (codePoints (d :: s))).
    rewrite IH; [done|]. simpl in *. lia.
Qed.

Lemma codePoints_join (s : list N) : mjoin (codePoints s) = s.
Proof. by apply (codePoints_join_le (length s)). Qed.

(** Tracking keystrokes one after the other keeps the newest entries, as
    many as the buffer takes. *)
Lemma foldl_trackKeystroke_buffer cs w :
  isComposing (tracker w) = false →
  length (charTimestamps (tracker w)) ≤ charBufferSize (config (tracker w)) →
  let l := charTimestamps (tracker w)
           ++ ((λ c, {| char := c; timestamp := clock w |}) <$> cs) in
  charTimestamps (tracker (foldl (λ w c, trackKeystroke c w) w cs))
  = drop (length l - charBufferSize (config (tracker w))) l.
Proof.
  revert w. induction cs as [|c cs IH]; intros w Hic Hlen l.
  { subst l. simpl. rewrite app_nil_r.
    replace (_ - _) with 0 by lia. done. }
  simpl foldl.
  pose proof (buffer_ok_trackKeystroke c w Hlen) as Hlen1. unfold buffer_ok in Hlen1.
  assert (Hw1 : clock (trackKeystroke c w) = clock w
                ∧ config (tracker (trackKeystroke c w)) = config (tracker w)
                ∧ isComposing (tracker (trackKeystroke c w)) = false
                ∧ charTimestamps (tracker (trackKeystroke c w))
                  = let buf := charTimestamps (tracker w)
                                 ++ [{| char := c; timestamp := clock w |}] in
                    if (charBufferSize (config (tracker w)) <? length buf)%nat
                    then tail buf else buf).
  { rewrite trackKeystroke_buffer, Hic. revert Hic. by wdestruct w. }
  destruct Hw1 as (Ec & Ecfg & Eic & Ebuf).
  rewrite IH by done. rewrite Ec, Ecfg, Ebuf. rewrite Ecfg, Ebuf in Hlen1.
  subst l. cbv zeta in *.
  set (buf := charTimestamps (tracker w)) in *.
  set (e := {| char := c; timestamp := clock w |}) in *.
  set (es := (λ c0, {| char := c0; timestamp := clock w |}) <$> cs).
  set (n := charBufferSize (config (tracker w))) in *.
  rewrite fmap_cons. fold e es.
  destruct (Nat.ltb_spec n (length (buf ++ [e]))) as [Hlt|Hge].
  - rewrite length_app in Hlt. simpl in Hlt.
    assert (Et : tail (buf ++ [e]) ++ es = drop 1 (buf ++ e :: es)).
    { destruct buf; simpl; [done|]. by rewrite <-app_assoc. }
    rewrite Et, drop_drop. f_equal.
    rewrite length_drop, !length_app. simpl. lia.
  - rewrite <-app_assoc. done.
Qed.

Lemma onTextChanged_buffer text w :
  charTimestamps (tracker (onTextChanged text w))
  = if (length (previousTextForTracking w) <? length text)%nat
       && isTrackerActive w
    then charTimestamps (tracker
           (foldl (λ w c, trackKeystroke c w) (set_promptText text w)
              (codePoints (drop (length (previousTextForTracking w)) text))))
    else charTimestamps (tracker w).
Proof.
  unfold onTextChanged.
  assert (Hlast : ∀ w1, charTimestamps (tracker (set_previousTextForTracking text w1))
                        = charTimestamps (tracker w1)).
  { intros w1. by wdestruct w1. }
  assert (E0 : previousTextForTracking (set_promptText text w) = previousTextForTracking w
               ∧ isTrackerActive (set_promptText text w) = isTrackerActive w
               ∧ charTimestamps (tracker (set_promptText text w))
                 = charTimestamps (tracker w)).
  { by wdestruct w. }
  destruct E0 as (-> & -> & E0). rewrite Hlast.
  destruct (length (previousTextForTracking w) <? length text)%nat; [|done].
  destruct (isTrackerActive w); [|done]. simpl.
  apply (same_buffer _ _ (same_resetInactivityTimer _)).
Qed.

(** X10.  When the engine is active and no composition is open, a change
    that makes the text longer appends to the buffer one entry for each
    character beyond the previous length, stamped with the current time,
    and keeps the 10 newest entries of the result. *)
Theorem X10_buffer_is_a_sliding_window now text w :
  reachable now w →
  isTrackerActive w = true →
  isComposing (tracker w) = false →
  length (previousTextForTracking w) < length text →
  let l := charTimestamps (tracker w) ++ new_entries text w in
  charTimestamps (tracker (onTextChanged text w)) = drop (length l - 10) l
  ∧ mjoin (char <$> new_entries text w)
    = drop (length (previousTextForTracking w)) text.
Proof.
  intros Hr Ha Hic Hlen l.
  destruct (reachable_Inv _ _ _ Hr) as [Hcfg _ _ Hbuf _]. split.
  - rewrite onTextChanged_buffer, Ha.
    destruct (Nat.ltb_spec (length (previousTextForTracking w)) (length text));
      [|lia].
    simpl. rewrite foldl_trackKeystroke_buffer.
    + subst l. unfold new_entries.
      replace (config (tracker (set_promptText text w))) with DEFAULT_CONFIG
        by (rewrite <-Hcfg; by wdestruct w).
      by wdestruct w.
    + revert Hic. by wdestruct w.
    + revert Hbuf. unfold buffer_ok. by wdestruct w.
  - unfold new_entries. rewrite <-list_fmap_compose.
    rewrite (list_fmap_ext _ id); [|done].
    by rewrite list_fmap_id, codePoints_join.
Qed.

(** ** What cancels a countdown *)

Lemma cancelCountdown_retires id w :
  countdownTimer (tracker w) = Some id → (id < nextTimer w)%positive →
  retired id (cancelCountdown w)
  ∧ countdownTimer (tracker (cancelCountdown w)) = None.
Proof.
  intros Hid Hlt. unfold cancelCountdown, clearTimeout, retired. rewrite Hid.
  wdestruct w. simpl in *. split; [split; [done|]|done].
  by intros t [Hne _]%list_elem_of_filter.
Qed.

Lemma executeAssessment_countdownTimer text w :
  countdownTimer (tracker (executeAssessment text w)) = countdownTimer (tracker w).
Proof.
  unfold executeAssessment, onTrigger, handleAssess, activateVelocityTracker, start,
    resetInactivityTimer, setInterval, setTimeout, add_timer, clearTimeout, emit.
  wdestruct w. simpl. destruct tc; [|done]. simpl.
  repeat (case_match; simpl); done.
Qed.

Lemma retired_run id evs w :
  retired id w → find_timer id (run evs w) = None ∧ step (EvFire id) (run evs w) = run evs w.
Proof.
  intros Hret.
  assert (Hfind : find_timer id (run evs w) = None).
  { apply retired_find_timer. eapply retired_grows; [|done].
    apply grows_run, grows_refl. }
  split; [done|]. simpl. unfold_fire. by rewrite Hfind.
Qed.

(** X11.  A manual trigger cancels the countdown the tracker holds: after
    [forceTrigger] has forwarded the text the tracker holds no countdown,
    and whatever happens next the timer it held is not pending and cannot
    fire. *)
Theorem X11_manual_trigger_cancels_countdown now w id evs :
  reachable now w →
  getCurrentText (tracker w) = true →
  10 ≤ length (promptText w) →
  countdownTimer (tracker w) = Some id →
  countdownTimer (tracker (forceTrigger w)) = None
  ∧ find_timer id (run evs (forceTrigger w)) = None
  ∧ step (EvFire id) (run evs (forceTrigger w)) = run evs (forceTrigger w).
Proof.
  intros Hr Hg Hlen Hid.
  destruct (reachable_Inv _ _ _ Hr) as [_ Hcb _ _ _].
  pose proof (reachable_handle_issued _ _ _ _ Hr Hid) as Hlt.
  destruct (cancelCountdown_retires id w Hid Hlt) as [Hret Hnone].
  assert (E : forceTrigger w = executeAssessment (promptText w) (cancelCountdown w)).
  { unfold forceTrigger. rewrite Hg, (Hcb Hg). cbn [negb orb].
    destruct (10 <=? length (promptText w))%nat eqn:El; [done|].
    apply Nat.leb_gt in El. lia. }
  rewrite E. split; [by rewrite executeAssessment_countdownTimer|].
  apply retired_run. eapply retired_grows; [|done].
  apply grows_executeAssessment, grows_refl.
Qed.

(** X12.  A sample that takes the classifier out of [STOPPED] cancels the
    countdown the tracker holds: afterwards the tracker holds no countdown,
    whatever happens next that timer is not pending and cannot fire, and a
    grace-period check that fires while the state is not [STOPPED] changes
    nothing. *)
Theorem X12_resumed_activity_cancels_countdown now w id evs :
  reachable now w →
  countdownTimer (tracker w) = Some id →
  currentState (tracker w) = STOPPED →
  currentState (tracker (sampleVelocity w)) ≠ STOPPED →
  countdownTimer (tracker (sampleVelocity w)) = None
  ∧ find_timer id (run evs (sampleVelocity w)) = None
  ∧ step (EvFire id) (run evs (sampleVelocity w)) = run evs (sampleVelocity w)
  ∧ graceCheck (sampleVelocity w) = sampleVelocity w.
Proof.
  intros Hr Hid Hs Hs'.
  destruct (held_countdown_cancelled toLowerCase now w id evs Hr Hid Hs Hs')
    as [Hfind Hfire].
  split; [|split; [done|split; [done|by apply graceCheck_outside_STOPPED]]].
  revert Hs'. unfold sampleVelocity. case_match; [|congruence]. intros Hs'.
  eapply (λ H1 H2 H3, proj2 (onStateChange_retires id _ w H1 H2 H3));
    [done|by eapply reachable_handle_issued|].
  intros E. rewrite E in Hs'.
  by destruct (onStateChange_currentState STOPPED w) as [E' _].
Qed.

(** ** Deactivation *)

Lemma inactive_no_intervals w :
  Kinv w → isTrackerActive w = false → active_samples w = [] ∧ active_polls w = [].
Proof.
  intros [_ _ _ (Hs & Hp & Hi)] Ha. destruct (Hi Ha) as [Es Ep].
  split; apply filter_none_tid.
  - intros t Ht HP. specialize (Hs t Ht HP). congruence.
  - intros t Ht HP. specialize (Hp t Ht HP). congruence.
Qed.

Lemma inactivityExpiry_inactive w :
  isTrackerActive (inactivityExpiry w) = false
  ∧ typingVelocity (inactivityExpiry w) = 0
  ∧ countdownTimer (tracker (inactivityExpiry w)) = None.
Proof.
  unfold inactivityExpiry, stop, cancelCountdown, clearTimeout.
  wdestruct w. simpl. destruct vt, st, ct; done.
Qed.

(** While the engine is inactive, what the user does to the field and the
    keyboard leaves the tracker, the timers and the consumers alone. *)
Lemma inactive_input_step e w :
  isTrackerActive w = false → is_input e = true →
  isTrackerActive (step e w) = false
  ∧ charTimestamps (tracker (step e w)) = charTimestamps (tracker w)
  ∧ timers (step e w) = timers w
  ∧ out (step e w) = out w
  ∧ last_sent (step e w) = last_sent w.
Proof.
  intros Ha He. destruct e; try done; simpl.
  - revert Ha. by wdestruct w.
  - unfold onTextChanged.
    assert (E : isTrackerActive (set_promptText text w) = false)
      by (revert Ha; by wdestruct w).
    rewrite E. revert Ha. wdestruct w. simpl. by case_match.
  - unfold handleKeyboardShortcut. by rewrite Ha.
  - revert Ha. by wdestruct w.
Qed.

Lemma inactive_input_run evs w :
  isTrackerActive w = false → Forall (λ e, is_input e = true) evs →
  isTrackerActive (run evs w) = false
  ∧ charTimestamps (tracker (run evs w)) = charTimestamps (tracker w)
  ∧ timers (run evs w) = timers w
  ∧ out (run evs w) = out w
  ∧ last_sent (run evs w) = last_sent w.
Proof.
  revert w. induction evs as [|e evs IH]; intros w Ha Hin; [done|].
  apply Forall_cons in Hin as [He Hin].
  change (run (e :: evs) w) with (run evs (step e w)).
  destruct (inactive_input_step e w Ha He) as (Ha' & E1 & E2 & E3 & E4).
  destruct (IH (step e w) Ha' Hin) as (? & ? & ? & ? & ?).
  repeat split; congruence.
Qed.

(** X13.  When the inactivity timer fires the engine is deactivated: it is
    marked inactive, the displayed velocity is 0, the tracker holds no
    countdown, and no sampling interval or velocity poll is pending.  From
    then on, whatever the user types and however long it takes, as long as
    no timer fires and no assessment is asked for, the engine stays
    inactive and the buffer, the timers and the consumers see nothing. *)
Theorem X13_inactivity_deactivates now w id t :
  reachable now w →
  find_timer id w = Some t → action t = TInactivity → (due t ≤ clock w)%Z →
  let w' := step (EvFire id) w in
  isTrackerActive w' = false
  ∧ typingVelocity w' = 0
  ∧ countdownTimer (tracker w') = None
  ∧ active_samples w' = [] ∧ active_polls w' = []
  ∧ ∀ evs, Forall (λ e, is_input e = true) evs →
      isTrackerActive (run evs w') = false
      ∧ charTimestamps (tracker (run evs w')) = charTimestamps (tracker w')
      ∧ timers (run evs w') = timers w'
      ∧ out (run evs w') = out w'.
Proof.
  intros Hr Hfind Hact Hdue w'.
  pose proof (reachable_Kinv _ _ (reachable_step _ _ (EvFire id) _ Hr)) as HK.
  fold w' in HK.
  assert (E : ∃ w1, w' = inactivityExpiry w1).
  { subst w'. simpl. unfold_fire. rewrite Hfind.
    destruct (Z.leb_spec (due t) (clock w)); [|lia].
    rewrite Hact. simpl. by eexists. }
  destruct E as [w1 E].
  destruct (inactivityExpiry_inactive w1) as (Ha & Hv & Hc). rewrite <-E in Ha, Hv, Hc.
  destruct (inactive_no_intervals w' HK Ha) as [Hs Hp].
  repeat (split; [done|]).
  intros evs Hin.
  by destruct (inactive_input_run evs w' Ha Hin) as (? & ? & ? & ? & _).
Qed.

(** ** What every event hands to the consumers *)

Lemma says_countdownExpiry mid w :
  config (tracker w) = DEFAULT_CONFIG →
  says [] w (countdownExpiry mid w)
  ∨ says (forwarded (promptText w)) w (countdownExpiry mid w).
Proof.
  intros Hcfg. unfold_countdownExpiry.
  destruct (bool_decide (currentState (tracker w) = STOPPED)
            && getCurrentText (tracker w)).
  2: { left. apply says_clearTimeout, says_refl. }
  destruct (passesPreFilters (tracker w) (clock w) (promptText w)) eqn:Hp.
  2: { left. apply says_clearTimeout, says_refl. }
  apply passes_long in Hp; [|done].
  destruct (says_executeAssessment [] w (promptText w)
              (notifyStateChange (currentState (tracker w)) 1 w)) as [H|H].
  - lia.
  - apply says_notifyStateChange, says_refl.
  - left. by apply says_clearTimeout.
  - right. by apply says_clearTimeout.
Qed.

Lemma says_run_action a w :
  config (tracker w) = DEFAULT_CONFIG → buffer_ok w →
  says [] w (run_action a w) ∨ says (forwarded (promptText w)) w (run_action a w).
Proof.
  intros Hcfg Hb. destruct a; simpl.
  - left. apply says_sampleVelocity, says_refl.
  - left. apply says_graceCheck, says_refl.
  - left. apply says_midpointTick, says_refl.
  - by apply says_countdownExpiry.
  - left. apply says_velocityPoll; [|apply says_refl].
    unfold buffer_ok in Hb. by rewrite Hcfg in Hb.
  - left. apply says_inactivityExpiry, says_refl.
Qed.

Lemma says_fire id w :
  config (tracker w) = DEFAULT_CONFIG → buffer_ok w →
  says [] w (fire id w) ∨ says (forwarded (promptText w)) w (fire id w).
Proof.
  intros Hcfg Hb. unfold_fire.
  destruct (find_timer id w) as [t|]; [|left; apply says_refl].
  case_match; [|left; apply says_refl].
  set (w1 := match repeat t with Some _ => _ | None => _ end).
  assert (H1 : says [] w w1).
  { subst w1. destruct (repeat t); [apply says_set_timers|apply says_clearTimeout];
      apply says_refl. }
  assert (Hs : same w w1).
  { subst w1. destruct (repeat t); [apply same_rearm|apply same_clearTimeout]. }
  destruct (says_run_action (action t) w1) as [H2|H2].
  - by rewrite (same_config _ _ Hs).
  - unfold buffer_ok. by rewrite (same_buffer _ _ Hs), (same_config _ _ Hs).
  - left. exact (says_trans [] [] _ _ _ H1 H2).
  - right. rewrite (same_promptText _ _ Hs) in H2.
    exact (says_trans [] _ _ _ _ H1 H2).
Qed.

(** A request by hand is answered with an error or with the assessment of
    the text in the field; any other event hands on nothing, or the text in
    the field to the trigger consumer and then to the assessment. *)
Lemma says_step e w :
  config (tracker w) = DEFAULT_CONFIG → buffer_ok w →
  match e with
  | EvAssessClick =>
      says [if (length (promptText w) <? 10)%nat
            then OutError else OutAssess (promptText w)] w (step e w)
  | _ => says [] w (step e w) ∨ says (forwarded (promptText w)) w (step e w)
  end.
Proof.
  intros Hcfg Hb. destruct e; simpl.
  - left. apply says_set_clock, says_refl.
  - by apply says_fire.
  - left. apply says_onTextChanged, says_refl.
  - exact (says_handleAssess [] w None w (says_refl w)).
  - unfold handleKeyboardShortcut. case_match; [apply says_forceTrigger|].
    left. apply says_refl.
  - left. apply says_setComposing, says_refl.
Qed.

(** ** Arrival times and the displayed velocity *)

Lemma stamps_ok_same w w' : same w w' → stamps_ok w → stamps_ok w'.
Proof. intros Hs. unfold stamps_ok. by rewrite (same_buffer _ _ Hs), (same_clock _ _ Hs). Qed.

Lemma stamps_ok_forwards text w w' : forwards text w w' → stamps_ok w → stamps_ok w'.
Proof. intros Hf. unfold stamps_ok. by rewrite (fw_buffer _ _ _ Hf), (fw_clock _ _ _ Hf). Qed.

Lemma stamps_ok_trackKeystroke c w : stamps_ok w → stamps_ok (trackKeystroke c w).
Proof.
  rewrite trackKeystroke_buffer. unfold stamps_ok. wdestruct w. simpl.
  intros H. destruct ic; [done|].
  assert (H1 : Forall (λ e, (timestamp e ≤ clk)%Z)
                 (buf ++ [{| char := c; timestamp := clk |}])).
  { apply Forall_app. split; [done|]. apply Forall_singleton. simpl. lia. }
  case_match; [|done].
  destruct (buf ++ _) as [|e l]; [done|]. simpl. by apply Forall_cons in H1 as [_ H1].
Qed.

Lemma stamps_ok_foldl_trackKeystroke cs w :
  stamps_ok w → stamps_ok (foldl (λ w c, trackKeystroke c w) w cs).
Proof. revert w. induction cs; simpl; eauto using stamps_ok_trackKeystroke. Qed.

Lemma stamps_ok_later w w' :
  (clock w ≤ clock w')%Z → charTimestamps (tracker w') = charTimestamps (tracker w) →
  stamps_ok w → stamps_ok w'.
Proof.
  intros Hc Hb. unfold stamps_ok. rewrite Hb. intros H.
  eapply Forall_impl; [exact H|]. intros e. simpl. lia.
Qed.

Lemma stamps_ok_step e w : cb_ok w → stamps_ok w → stamps_ok (step e w).
Proof.
  intros Hok Hst. destruct e; simpl.
  - eapply stamps_ok_later; [| |done]; wdestruct w; simpl; [lia|done].
  - destruct (fire_cases toLowerCase id w Hok) as [Hs|[text Hf]];
      eauto using stamps_ok_same, stamps_ok_forwards.
  - pose proof (sr_clock _ _ (step_rel_onTextChanged text w)) as Hc.
    pose proof (onTextChanged_buffer text w) as Hb.
    destruct ((length (previousTextForTracking w) <? length text)%nat
              && isTrackerActive w).
    + unfold stamps_ok. rewrite Hb.
      pose proof (stamps_ok_foldl_trackKeystroke
        (codePoints (drop (length (previousTextForTracking w)) text))
        (set_promptText text w)) as Hf.
      destruct (same_foldl_trackKeystroke
        (codePoints (drop (length (previousTextForTracking w)) text))
        (set_promptText text w)) as (Hck & _).
      unfold stamps_ok in Hf. rewrite Hck in Hf.
      eapply Forall_impl; [apply Hf; revert Hst; by wdestruct w|].
      intros e He. simpl in He. revert He Hc. wdestruct w. simpl. lia.
    + by eapply stamps_ok_later.
  - eauto using stamps_ok_same, same_handleAssess.
  - unfold handleKeyboardShortcut. case_match; [|done].
    destruct (forceTrigger_cases w) as [[-> _]|[Hf _]];
      eauto using stamps_ok_forwards.
  - eauto using stamps_ok_same, same_setComposing.
Qed.

Lemma Vinv_says os w w' :
  Forall (λ o, is_state_change o = false) os →
  says os w w' → stamps_ok w' → Vinv w → Vinv w'.
Proof.
  intros Hos Hsays Hst [Hc Ho _ Hv]. destruct (Hsays Hc) as (Hc' & Eo & Hv').
  split; [done| |done|].
  - rewrite Eo. by apply Forall_app.
  - destruct Hv' as [->|?]; done.
Qed.

Lemma Vinv_step e w : Inv w → Vinv w → Vinv (step e w).
Proof.
  intros [Hcfg Hcb _ Hbuf _] HV.
  pose proof (stamps_ok_step e w Hcb (v_stamps _ HV)) as Hst.
  pose proof (says_step e w Hcfg Hbuf) as Hs.
  assert (Hf : Forall (λ o, is_state_change o = false) (forwarded (promptText w))).
  { by repeat constructor. }
  destruct e; simpl in Hs.
  4: { eapply Vinv_says; [|exact Hs|exact Hst|exact HV].
       apply Forall_singleton. by case_match. }
  all: destruct Hs as [Hs|Hs];
    (eapply Vinv_says; [|exact Hs|exact Hst|exact HV]); [constructor|exact Hf].
Qed.

Lemma Vinv_init now : Vinv (init now).
Proof. split; try done; [constructor..|simpl; lia]. Qed.

Lemma reachable_Vinv now w : reachable now w → Vinv w.
Proof.
  induction 1 as [|e w Hr IH]; [apply Vinv_init|].
  apply Vinv_step; [by eapply reachable_Inv|done].
Qed.

(** X14.  No state-change consumer is ever registered, so none of the
    opacity notifications reaches anybody.  A request by hand is answered
    with the error [PROMPT_TOO_SHORT] when the field holds fewer than 10
    characters and with a request for assessment of the text otherwise;
    any other event hands on nothing, or hands the text in the field to
    [onTrigger], which asks for its assessment: a triggered text is never
    answered with the error. *)
Theorem X14_what_the_consumers_receive now w e :
  reachable now w →
  Forall (λ o, is_state_change o = false) (out w)
  ∧ match e with
    | EvAssessClick =>
        out (step e w)
        = out w ++ [if (length (promptText w) <? 10)%nat
                    then OutError else OutAssess (promptText w)]
    | _ =>
        out (step e w) = out w
        ∨ out (step e w)
          = out w ++ [OutTrigger (promptText w); OutAssess (promptText w)]
    end.
Proof.
  intros Hr. destruct (reachable_Vinv _ _ Hr) as [Hc Ho _ _].
  destruct (reachable_Inv _ _ _ Hr) as [Hcfg _ _ Hbuf _].
  split; [done|].
  pose proof (says_step e w Hcfg Hbuf) as Hs.
  destruct e;
    try (destruct Hs as [Hs|Hs]; destruct (Hs Hc) as (_ & E & _);
         [left; by rewrite E, app_nil_r|right; exact E]).
  by destruct (Hs Hc) as (_ & E & _).
Qed.

Lemma length_filter_impl {A} (P Q : A → Prop) `{∀ x, Decision (P x)}
    `{∀ x, Decision (Q x)} (l : list A) :
  (∀ x, P x → Q x) → length (filter P l) ≤ length (filter Q l).
Proof.
  intros HPQ. induction l as [|x l IH]; [done|].
  rewrite !filter_cons. destruct (decide (P x)) as [HP|HP].
  - rewrite decide_True by auto. simpl. lia.
  - destruct (decide (Q x)); simpl; lia.
Qed.

(** X15.  The velocity is a count of buffer entries, so it never exceeds
    10 characters per second however fast the text grows; neither does the
    velocity on display; and while time passes the velocity can only
    fall. *)
Theorem X15_velocity_at_most_10 now w :
  reachable now w →
  getCurrentVelocity w ≤ 10
  ∧ typingVelocity w ≤ 10
  ∧ ∀ dt, getCurrentVelocity (step (EvAdvance dt) w) ≤ getCurrentVelocity w.
Proof.
  intros Hr. destruct (reachable_Inv _ _ _ Hr) as [Hcfg _ _ Hbuf _].
  unfold buffer_ok in Hbuf. rewrite Hcfg in Hbuf. simpl in Hbuf.
  split; [|split].
  - unfold getCurrentVelocity, recentChars. etrans; [apply length_filter|done].
  - apply (reachable_Vinv _ _ Hr).
  - intros dt. simpl. unfold getCurrentVelocity, recentChars.
    replace (charTimestamps (tracker (set_clock (clock w + Z.of_N dt) w)))
      with (charTimestamps (tracker w)) by (by wdestruct w).
    replace (clock (set_clock (clock w + Z.of_N dt) w))
      with (clock w + Z.of_N dt)%Z by (by wdestruct w).
    apply length_filter_impl. intros t. lia.
Qed.

(** Only a change of the text touches the buffer. *)
Lemma buffer_kept_step e w :
  cb_ok w → is_text_change e = false →
  charTimestamps (tracker (step e w)) = charTimestamps (tracker w).
Proof.
  intros Hok He. destruct e; try done; simpl.
  - by wdestruct w.
  - destruct (fire_cases toLowerCase id w Hok) as [Hs|[text Hf]];
      [apply Hs|apply Hf].
  - apply same_handleAssess.
  - unfold handleKeyboardShortcut. case_match; [|done].
    destruct (forceTrigger_cases w) as [[-> _]|[Hf _]]; [done|apply Hf].
  - apply same_setComposing.
Qed.

Lemma buffer_kept_run now evs w :
  reachable now w → Forall (λ e, is_text_change e = false) evs →
  charTimestamps (tracker (run evs w)) = charTimestamps (tracker w).
Proof.
  revert w. induction evs as [|e evs IH]; intros w Hr Hev; [done|].
  apply Forall_cons in Hev as [He Hev].
  change (run (e :: evs) w) with (run evs (step e w)).
  rewrite IH; [|by constructor|done].
  apply buffer_kept_step; [|done]. by destruct (reachable_Inv _ _ _ Hr).
Qed.

(** X16.  Once a second has passed without a change of the text, however
    many timers fired and whatever was asked for meanwhile, the velocity is
    0 and a sample records [STOPPED]. *)
Theorem X16_velocity_decays now w evs :
  reachable now w →
  Forall (λ e, is_text_change e = false) evs →
  (clock w + 1000 ≤ clock (run evs w))%Z →
  getCurrentVelocity (run evs w) = 0
  ∧ currentState (tracker (sampleVelocity (run evs w))) = STOPPED.
Proof.
  intros Hr Hev Hclk.
  pose proof (v_stamps _ (reachable_Vinv _ _ Hr)) as Hst.
  pose proof (buffer_kept_run now evs w Hr Hev) as Hb.
  assert (Hr' : reachable now (run evs w)) by (by apply reachable_run).
  destruct (reachable_Inv _ _ _ Hr') as [Hcfg _ _ _ _].
  assert (E : recentChars (clock (run evs w)) (charTimestamps (tracker (run evs w))) = []).
  { rewrite Hb. clear Hb. unfold recentChars. unfold stamps_ok in Hst. revert Hst.
    induction (charTimestamps (tracker w)) as [|t l IH]; intros Hst; [done|].
    apply Forall_cons in Hst as [Ht Hl]. simpl in Ht.
    rewrite filter_cons, decide_False by lia. by apply IH. }
  split.
  - unfold getCurrentVelocity. by rewrite E.
  - destruct (sampleVelocity_currentState (run evs w)) as [-> _].
    by rewrite E, Hcfg.
Qed.

(** ** The inactivity deadline *)

Lemma resetInactivityTimer_rearmed w :
  tm_ok w → rearmed (clock w) (resetInactivityTimer w).
Proof.
  intros [[Hlt Hdup] Hin]. exists (nextTimer w).
  unfold resetInactivityTimer, setTimeout, add_timer, clearTimeout, active_inactivity.
  unfold inactivity_ok in Hin.
  destruct (inactivityTimer w) as [id|] eqn:E; wdestruct w; simpl in *;
    (split; [|done]); rewrite filter_app.
  - rewrite (filter_none_tid _ (filter _ tms)); [done|].
    intros t [Hne Ht]%list_elem_of_filter Hi. specialize (Hin t Ht Hi). congruence.
  - rewrite (filter_none_tid _ tms); [done|].
    intros t Ht Hi. by specialize (Hin t Ht Hi).
Qed.

Lemma rearmed_frame now w w' :
  timers w' = timers w → inactivityTimer w' = inactivityTimer w →
  rearmed now w → rearmed now w'.
Proof. unfold rearmed, active_inactivity. intros -> ->. done. Qed.

Lemma activateVelocityTracker_rearmed w :
  tm_ok w →
  isTrackerActive (activateVelocityTracker w) = true
  ∧ rearmed (clock w) (activateVelocityTracker w).
Proof.
  intros Htm. unfold activateVelocityTracker.
  destruct (isTrackerActive w) eqn:Ha.
  - split; [|by apply resetInactivityTimer_rearmed].
    revert Ha. unfold resetInactivityTimer, setTimeout, add_timer, clearTimeout.
    wdestruct w. simpl. by destruct it.
  - unfold setInterval, add_timer. cbv beta iota zeta.
    set (w2 := set_velocityPollTimer _ _).
    assert (Htm2 : tm_ok w2).
    { subst w2. apply tm_ok_set_velocityPollTimer, tm_ok_add; [done|].
      by apply tm_ok_start, tm_ok_set_isTrackerActive. }
    assert (Hc2 : clock w2 = clock w ∧ isTrackerActive w2 = true).
    { subst w2. unfold start, setInterval, add_timer. by wdestruct w. }
    destruct Hc2 as [Hc2 Ha2]. clearbody w2. split.
    + revert Ha2. unfold resetInactivityTimer, setTimeout, add_timer, clearTimeout.
      wdestruct w2. simpl. by destruct it.
    + rewrite <-Hc2. by apply resetInactivityTimer_rearmed.
Qed.

(** X17.  A request for assessment that is accepted, and every change that
    makes the text longer while the engine is active, leave exactly one
    inactivity timer pending, due 15 minutes after the event; a change that
    does not make the text longer, or that arrives while the engine is
    inactive, leaves the timers as they are. *)
Theorem X17_inactivity_timer_rearmed now w text :
  reachable now w →
  (10 ≤ length (promptText w) →
   isTrackerActive (step EvAssessClick w) = true
   ∧ rearmed (clock w) (step EvAssessClick w))
  ∧ (isTrackerActive w = true →
     length (previousTextForTracking w) < length text →
     rearmed (clock w) (step (EvTextChanged text) w))
  ∧ (isTrackerActive w = false ∨ length text ≤ length (previousTextForTracking w) →
     timers (step (EvTextChanged text) w) = timers w).
Proof.
  intros Hr. destruct (reachable_Inv _ _ _ Hr) as [_ _ Htm _ Hin].
  pose proof (conj Htm Hin : tm_ok w) as Hok.
  split; [|split].
  - intros Hlen. simpl. unfold handleAssess.
    destruct (Nat.ltb_spec (length (promptText w)) 10); [lia|].
    destruct (activateVelocityTracker_rearmed w Hok) as [Ha Hre].
    split.
    + rewrite <-Ha. by destruct (activateVelocityTracker w).
    + eapply rearmed_frame; [| |exact Hre]; by destruct (activateVelocityTracker w).
  - intros Ha Hlen. simpl. unfold onTextChanged.
    replace (previousTextForTracking (set_promptText text w))
      with (previousTextForTracking w) by (by wdestruct w).
    replace (isTrackerActive (set_promptText text w))
      with (isTrackerActive w) by (by wdestruct w).
    destruct (Nat.ltb_spec (length (previousTextForTracking w)) (length text)); [|lia].
    rewrite Ha.
    set (w1 := foldl _ _ _).
    destruct (same_foldl_trackKeystroke
      (codePoints (drop (length (previousTextForTracking w)) text))
      (set_promptText text w)) as (Hc1 & _).
    fold w1 in Hc1.
    assert (Htm1 : tm_ok w1).
    { subst w1. by apply tm_ok_foldl_trackKeystroke, tm_ok_set_promptText. }
    assert (Hc : clock w1 = clock w) by (rewrite Hc1; by wdestruct w).
    clearbody w1.
    eapply rearmed_frame; [| |rewrite <-Hc; by apply resetInactivityTimer_rearmed];
      by destruct (resetInactivityTimer w1).
  - intros Hno. simpl. unfold onTextChanged.
    replace (previousTextForTracking (set_promptText text w))
      with (previousTextForTracking w) by (by wdestruct w).
    replace (isTrackerActive (set_promptText text w))
      with (isTrackerActive w) by (by wdestruct w).
    destruct (Nat.ltb_spec (length (previousTextForTracking w)) (length text)).
    + destruct Hno as [->|?]; [|lia]. by wdestruct w.
    + by wdestruct w.
Qed.

(** ** Handlers that do nothing the second time *)

Lemma cancelCountdown_idem w : cancelCountdown (cancelCountdown w) = cancelCountdown w.
Proof.
  unfold cancelCountdown at 1.
  replace (countdownTimer (tracker (cancelCountdown w))) with (@None positive); [done|].
  unfold cancelCountdown. wdestruct w. simpl. by destruct ct.
Qed.

(** X19.  Sampling twice at the same instant, cancelling the countdown
    twice and stopping the tracker twice are each the same as doing it
    once. *)
Theorem X19_idempotent_handlers w :
  sampleVelocity (sampleVelocity w) = sampleVelocity w
  ∧ cancelCountdown (cancelCountdown w) = cancelCountdown w
  ∧ stop (stop w) = stop w.
Proof.
  split; [|split; [apply cancelCountdown_idem|]].
  - destruct (sampleVelocity_currentState w) as [Hs Hb].
    pose proof (same_sampleVelocity w) as Hsame.
    unfold sampleVelocity at 1.
    rewrite Hb, (same_clock _ _ Hsame), (same_config _ _ Hsame), Hs.
    by rewrite bool_decide_false by auto.
  - unfold stop at 1.
    assert (E : sampleTimer (tracker (stop w)) = None).
    { unfold stop, cancelCountdown, clearTimeout. wdestruct w. simpl.
      by destruct st, ct. }
    rewrite E. unfold stop at 2. apply cancelCountdown_idem.
Qed.

(** ** What causes a forward *)

Lemma onTextChanged_triggers now text w :
  reachable now w → triggers (onTextChanged text w) = triggers w.
Proof.
  intros Hr. destruct (reachable_Vinv _ _ Hr) as [Hc _ _ _].
  destruct (says_onTextChanged [] w text w (says_refl w) Hc) as (_ & E & _).
  unfold triggers. by rewrite E, app_nil_r.
Qed.

(** X20.  Only two things forward a text: a countdown that fires when it
    is due, while the state is [STOPPED], on a text that passes the gate;
    and the keyboard shortcut, while the engine is active, on a text of at
    least 10 characters.  The passing of time, a change of the text, a
    composition, a request by hand and the other timers never do. *)
Theorem X20_causes_of_a_forward now w e :
  reachable now w →
  triggers (step e w) ≠ triggers w →
  match e with
  | EvFire id =>
      ∃ t mid, find_timer id w = Some t ∧ action t = TCountdown mid
        ∧ (due t ≤ clock w)%Z
        ∧ currentState (tracker w) = STOPPED
        ∧ passesPreFilters (tracker w) (clock w) (promptText w) = true
  | EvShortcut => isTrackerActive w = true ∧ 10 ≤ length (promptText w)
  | _ => False
  end.
Proof.
  intros Hr Hne. destruct (reachable_Inv _ _ _ Hr) as [_ Hcb _ _ _].
  destruct e; simpl in Hne.
  - destruct Hne. by wdestruct w.
  - revert Hne. unfold_fire.
    destruct (find_timer id w) as [t|] eqn:Hfind; [|done].
    destruct (Z.leb_spec (due t) (clock w)) as [Hdue|]; [|done].
    set (w1 := match repeat t with Some _ => _ | None => _ end).
    assert (H1 : same w w1).
    { subst w1. destruct (repeat t); [apply same_rearm|apply same_clearTimeout]. }
    assert (Hcb1 : cb_ok w1) by (eapply cb_ok_flags; [|done]; apply H1).
    assert (Ht1 : tracker w1 = tracker w).
    { subst w1. unfold clearTimeout. destruct (repeat t); by wdestruct w. }
    clearbody w1. intros Hne.
    assert (Hsame : ∀ w2, same w1 w2 → triggers w2 ≠ triggers w → False).
    { intros w2 H2 Hn. apply Hn.
      by rewrite (same_triggers _ _ H2), (same_triggers _ _ H1). }
    destruct (action t) as [| | |mid| |] eqn:Ha; simpl in Hne.
    + destruct (Hsame _ (same_sampleVelocity w1) Hne).
    + destruct (Hsame _ (same_graceCheck w1) Hne).
    + destruct (Hsame _ (same_midpointTick w1) Hne).
    + exists t, mid. split; [done|]. split; [done|]. split; [done|].
      destruct (countdownExpiry_cases toLowerCase mid w1 Hcb1)
        as [[E _]|(_ & Hs & _ & Hp)].
      * rewrite E in Hne. destruct (Hsame _ (same_clearTimeout mid w1) Hne).
      * rewrite Ht1, (same_clock _ _ H1), (same_promptText _ _ H1) in Hp.
        rewrite Ht1 in Hs. done.
    + destruct (Hsame _ (same_velocityPoll w1) Hne).
    + destruct (Hsame _ (same_inactivityExpiry w1) Hne).
  - destruct Hne. by eapply onTextChanged_triggers.
  - destruct Hne. apply (same_triggers _ _ (same_handleAssess None w)).
  - revert Hne. unfold handleKeyboardShortcut.
    destruct (isTrackerActive w); [|done]. intros Hne. split; [done|].
    destruct (forceTrigger_cases w) as [[E _]|(_ & _ & _ & Hlen)]; [|done].
    by rewrite E in Hne.
  - destruct Hne. apply (same_triggers _ _ (same_setComposing b w)).
Qed.

(** ** The Last-Sent pair and the forwards *)

(** The text of the most recent forward, the empty text before the first. *)
Lemma last_sent_text_step w w' :
  sent_step w w' →
  lastAssessedText (tracker w) = default [] (last (triggers w)) →
  lastAssessedText (tracker w') = default [] (last (triggers w')).
Proof.
  unfold last_sent. intros [[E1 E2]|(text & E1 & E2)] H.
  - rewrite E2. injection E1 as -> _. done.
  - rewrite E2, last_snoc. by injection E1 as -> _.
Qed.

(** X21.  The Last-Sent Text is always the text of the most recent
    forward, manual ones included, and the empty text before the first
    forward; until then the Last-Sent Timestamp is 0. *)
Theorem X21_last_sent_is_last_forward now w :
  reachable now w →
  lastAssessedText (tracker w) = default [] (last (triggers w))
  ∧ (triggers w = [] → lastAssessmentTime (tracker w) = 0%Z).
Proof.
  induction 1 as [|e w Hr [IH1 IH2]]; [done|].
  destruct (reachable_Inv _ _ _ Hr) as [_ Hcb _ _ _].
  pose proof (sr_sent _ _ (step_rel_step toLowerCase e w Hcb)) as Hs.
  split; [by apply (last_sent_text_step w)|].
  intros Hnil. destruct Hs as [[E1 E2]|(text & E1 & E2)].
  - unfold last_sent in E1. injection E1 as _ ->. apply IH2. by rewrite <-E2.
  - rewrite E2 in Hnil. by destruct (triggers w).
Qed.

(** ** What deactivates the engine *)

Lemma stays_countdownExpiry w0 mid w : stays w0 w → stays w0 (countdownExpiry mid w).
Proof. intros. unfold_countdownExpiry. stays_solve. Qed.

(** X22.  Only the inactivity timer deactivates the engine: an event after
    which an active engine is inactive is the firing of a pending, due
    timer whose callback is the inactivity expiry.  Neither a pause, nor a
    forward, nor the countdown, nor a deletion does it. *)
Theorem X22_only_inactivity_deactivates w e :
  isTrackerActive w = true →
  isTrackerActive (step e w) = false →
  ∃ id t, e = EvFire id ∧ find_timer id w = Some t
          ∧ action t = TInactivity ∧ (due t ≤ clock w)%Z.
Proof.
  intros Ha Hoff.
  assert (Hst : ∀ w', stays w w' → isTrackerActive w' = false → False).
  { intros w' Hs. rewrite (Hs Ha). done. }
  destruct e; simpl in Hoff.
  - destruct (Hst _ (stays_set_clock w _ w (stays_refl w)) Hoff).
  - exists id. revert Hoff. unfold_fire.
    destruct (find_timer id w) as [t|] eqn:Hfind; [|congruence].
    destruct (Z.leb_spec (due t) (clock w)) as [Hdue|]; [|congruence].
    set (w1 := match repeat t with Some _ => _ | None => _ end).
    assert (H1 : stays w w1).
    { subst w1. destruct (repeat t); eauto with stays. }
    clearbody w1. intros Hoff. exists t.
    destruct (action t) eqn:Eact; simpl in Hoff; [..|done].
    + destruct (Hst _ (stays_sampleVelocity w w1 H1) Hoff).
    + destruct (Hst _ (stays_graceCheck w w1 H1) Hoff).
    + destruct (Hst _ (stays_midpointTick w w1 H1) Hoff).
    + destruct (Hst _ (stays_countdownExpiry w midpointTimer w1 H1) Hoff).
    + destruct (Hst _ (stays_velocityPoll w w1 H1) Hoff).
  - destruct (Hst _ (stays_onTextChanged w text w (stays_refl w)) Hoff).
  - destruct (Hst _ (stays_handleAssess w None w (stays_refl w)) Hoff).
  - destruct (Hst _ (stays_handleKeyboardShortcut w w (stays_refl w)) Hoff).
  - destruct (Hst _ (stays_setComposing w b w (stays_refl w)) Hoff).
Qed.

(** ** The grace period *)

Lemma sampleVelocity_enters_STOPPED w :
  config (tracker w) = DEFAULT_CONFIG →
  stateChangeCallback (tracker w) = false →
  currentState (tracker w) ≠ STOPPED → getCurrentVelocity w = 0 →
  currentState (tracker (sampleVelocity w)) = STOPPED
  ∧ previousState (tracker (sampleVelocity w)) = currentState (tracker w)
  ∧ timers (sampleVelocity w) = timers w ++ [grace_timer (nextTimer w) (clock w)]
  ∧ countdownTimer (tracker (sampleVelocity w)) = countdownTimer (tracker w)
  ∧ clock (sampleVelocity w) = clock w.
Proof.
  intros Hcfg Hsc Hs Hv. unfold sampleVelocity.
  unfold getCurrentVelocity in Hv. rewrite Hcfg, Hv, classify_default.
  rewrite bool_decide_true by congruence.
  unfold onStateChange, notifyStateChange, setTimeout, add_timer, grace_timer.
  wdestruct w. simpl in *. subst. simpl.
  rewrite bool_decide_true by done. done.
Qed.

(** X23.  A sample that finds no keystroke of the last second while the
    state is not [STOPPED] records [STOPPED] and schedules one grace-period
    check, 1500 ms ahead, leaving the countdown handle as it is.  The check
    cannot run before 1500 ms have passed; when it runs after that, the
    state still being [STOPPED], it starts the countdown. *)
Theorem X23_grace_period now w :
  reachable now w →
  currentState (tracker w) ≠ STOPPED → getCurrentVelocity w = 0 →
  let w' := sampleVelocity w in
  let id := nextTimer w in
  currentState (tracker w') = STOPPED
  ∧ timers w' = timers w ++ [grace_timer id (clock w)]
  ∧ countdownTimer (tracker w') = countdownTimer (tracker w)
  ∧ ∀ dt : N,
      let w'' := step (EvAdvance dt) w' in
      ((Z.of_N dt < 1500)%Z → step (EvFire id) w'' = w'')
      ∧ ((1500 ≤ Z.of_N dt)%Z →
         step (EvFire id) w'' = startCountdown (clearTimeout id w'')).
Proof.
  intros Hr Hs Hv w' id.
  destruct (reachable_Inv _ _ _ Hr) as [Hcfg _ Htm _ Hin].
  destruct (reachable_Vinv _ _ Hr) as [Hsc _ _ _].
  destruct (sampleVelocity_enters_STOPPED w Hcfg Hsc Hs Hv)
    as (Hs' & _ & Htimers & Hct & Hclock).
  fold w' in Hs', Htimers, Hct, Hclock. fold id in Htimers.
  split; [done|]. split; [done|]. split; [done|].
  intros dt w''.
  assert (Hok' : timers_ok w').
  { by apply (tm_ok_sampleVelocity w (conj Htm Hin)). }
  assert (Hfind : find_timer id w' = Some (grace_timer id (clock w))).
  { apply (find_timer_unique w' (grace_timer id (clock w))); [apply Hok'|].
    rewrite Htimers. apply elem_of_app. right. by apply list_elem_of_singleton. }
  assert (Hfind'' : find_timer id w'' = Some (grace_timer id (clock w))).
  { subst w''. simpl. revert Hfind. unfold find_timer. by wdestruct w'. }
  assert (Hclock'' : clock w'' = (clock w + Z.of_N dt)%Z).
  { subst w''. simpl. rewrite <-Hclock. by wdestruct w'. }
  assert (Hs'' : currentState (tracker (clearTimeout id w'')) = STOPPED).
  { subst w''. simpl. rewrite <-Hs'. unfold clearTimeout. by wdestruct w'. }
  simpl. unfold_fire. rewrite Hfind''. simpl. rewrite Hclock''. split.
  - intros Hlt. destruct (Z.leb_spec (clock w + 1500) (clock w + Z.of_N dt)); [lia|done].
  - intros Hle. destruct (Z.leb_spec (clock w + 1500) (clock w + Z.of_N dt)); [|lia].
    unfold graceCheck. by rewrite Hs'', bool_decide_true.
Qed.
End MoreEngineFacts.

(** ** The further properties at concrete inputs *)

(** Five characters appended to the 21 of [draft] are less than a quarter:
    the change check fails. *)
Lemma X3_witness :
  (2 # 10 <= calculateChangePercent (draft ++ lit " What") draft)%Q
  ↔ length draft ≤ 4 * length (lit " What").
Proof.
  refine (proj1 (proj2 (X3_change_check_on_appended_text toLowerCase_basic_latin
                          draft (lit " What") _))).
  vm_compute. discriminate.
Defined.

Lemma X4_witness :
  let w := run toLowerCase_basic_latin keystroke_trace (init epoch) in
  currentState (tracker (sampleVelocity w))
  = match getCurrentVelocity w with 0 => STOPPED | 1 => EDITING | _ => FLOW end.
Proof.
  intros w.
  exact (proj2 (proj2 (X4_classifier_never_reviewing toLowerCase_basic_latin epoch w
                         (reachable_trace keystroke_trace)))).
Defined.

Lemma X5_witness :
  let w := run toLowerCase_basic_latin two_countdowns_trace (init epoch) in
  length (active_samples w) ≤ 1
  ∧ length (active_polls w) ≤ 1
  ∧ length (active_inactivity w) ≤ 1.
Proof.
  intros w.
  destruct (X5_one_timer_of_each_kind toLowerCase_basic_latin epoch w
              (reachable_trace two_countdowns_trace)) as (H1 & H2 & H3 & _).
  exact (conj H1 (conj H2 H3)).
Defined.

Lemma X6_witness :
  let w := run toLowerCase_basic_latin late_trigger_trace (init epoch) in
  (lastAssessmentTime (tracker w) ≤ clock w)%Z
  ∧ (lastAssessmentTime (tracker w)
     ≤ lastAssessmentTime (tracker (step toLowerCase_basic_latin (EvFire 9) w)))%Z.
Proof.
  intros w.
  apply (X6_last_sent_time_monotone toLowerCase_basic_latin epoch w (EvFire 9)).
  - unfold epoch. lia.
  - apply reachable_trace.
Defined.

Lemma X7_witness :
  let w := run toLowerCase_basic_latin late_trigger_trace (init epoch) in
  triggers (step toLowerCase_basic_latin (EvFire 9) w) = triggers w
  ∨ (triggers (step toLowerCase_basic_latin (EvFire 9) w) = triggers w ++ [promptText w]
     ∧ 10 ≤ length (promptText w)).
Proof.
  intros w.
  exact (proj2 (X7_forwarded_texts toLowerCase_basic_latin epoch w
                  (reachable_trace late_trigger_trace)) (EvFire 9)).
Defined.

(** A manual trigger, then a countdown that expires a second later. *)
Lemma X8_witness :
  let w := run toLowerCase_basic_latin activation_trace (init epoch) in
  let w' := run toLowerCase_basic_latin [EvAdvance 1000]
              (step toLowerCase_basic_latin EvShortcut w) in
  triggers (countdownExpiry toLowerCase_basic_latin 1 w') = triggers w'.
Proof.
  intros w w'.
  apply (X8_cooldown_after_any_forward toLowerCase_basic_latin epoch w EvShortcut
           [EvAdvance 1000] 1).
  - apply reachable_trace.
  - vm_compute. discriminate.
  - vm_compute. reflexivity.
  - vm_compute. reflexivity.
Defined.

Lemma X10_witness :
  let w := run toLowerCase_basic_latin keystroke_trace (init epoch) in
  let text := draft ++ lit " Wh" in
  let l := charTimestamps (tracker w) ++ new_entries text w in
  charTimestamps (tracker (onTextChanged text w)) = drop (length l - 10) l
  ∧ mjoin (char <$> new_entries text w)
    = drop (length (previousTextForTracking w)) text.
Proof.
  intros w text.
  apply (X10_buffer_is_a_sliding_window toLowerCase_basic_latin epoch text w).
  - apply reachable_trace.
  - vm_compute. reflexivity.
  - vm_compute. reflexivity.
  - vm_compute. lia.
Defined.

Lemma X11_witness :
  let w := run toLowerCase_basic_latin two_countdowns_trace (init epoch) in
  let w' := run toLowerCase_basic_latin [EvAdvance 8000] (forceTrigger w) in
  countdownTimer (tracker (forceTrigger w)) = None
  ∧ find_timer 11 w' = None
  ∧ step toLowerCase_basic_latin (EvFire 11) w' = w'.
Proof.
  intros w w'.
  apply (X11_manual_trigger_cancels_countdown toLowerCase_basic_latin epoch w 11
           [EvAdvance 8000]).
  - apply reachable_trace.
  - vm_compute. reflexivity.
  - vm_compute. lia.
  - vm_compute. reflexivity.
Defined.

Lemma X12_witness :
  let w := run toLowerCase_basic_latin typing_resumed_trace (init epoch) in
  let w' := run toLowerCase_basic_latin [EvAdvance 8000] (sampleVelocity w) in
  countdownTimer (tracker (sampleVelocity w)) = None
  ∧ find_timer 11 w' = None
  ∧ step toLowerCase_basic_latin (EvFire 11) w' = w'
  ∧ graceCheck (sampleVelocity w) = sampleVelocity w.
Proof.
  intros w w'.
  apply (X12_resumed_activity_cancels_countdown toLowerCase_basic_latin epoch w 11
           [EvAdvance 8000]).
  - apply reachable_trace.
  - vm_compute. reflexivity.
  - vm_compute. reflexivity.
  - vm_compute. discriminate.
Defined.

Lemma X13_witness :
  let w' := step toLowerCase_basic_latin (EvFire 3)
              (run toLowerCase_basic_latin idle_trace (init epoch)) in
  isTrackerActive w' = false
  ∧ typingVelocity w' = 0
  ∧ countdownTimer (tracker w') = None
  ∧ active_samples w' = [] ∧ active_polls w' = [].
Proof.
  intros w'.
  destruct (X13_inactivity_deactivates toLowerCase_basic_latin epoch
              (run toLowerCase_basic_latin idle_trace (init epoch)) 3
              (inactivity_timer 3 epoch))
    as (H1 & H2 & H3 & H4 & H5 & _).
  - apply reachable_trace.
  - vm_compute. reflexivity.
  - reflexivity.
  - vm_compute. discriminate.
  - exact (conj H1 (conj H2 (conj H3 (conj H4 H5)))).
Defined.

Lemma X14_witness :
  let w := run toLowerCase_basic_latin late_trigger_trace (init epoch) in
  out (step toLowerCase_basic_latin (EvFire 9) w) = out w
  ∨ out (step toLowerCase_basic_latin (EvFire 9) w)
    = out w ++ [OutTrigger (promptText w); OutAssess (promptText w)].
Proof.
  intros w.
  exact (proj2 (X14_what_the_consumers_receive toLowerCase_basic_latin epoch w
                  (EvFire 9) (reachable_trace late_trigger_trace))).
Defined.

Lemma X15_witness :
  let w := run toLowerCase_basic_latin keystroke_trace (init epoch) in
  getCurrentVelocity w ≤ 10 ∧ typingVelocity w ≤ 10.
Proof.
  intros w.
  destruct (X15_velocity_at_most_10 toLowerCase_basic_latin epoch w
              (reachable_trace keystroke_trace)) as (H1 & H2 & _).
  exact (conj H1 H2).
Defined.

(** A second after the keystroke, a sample and a poll later, the velocity
    is 0. *)
Lemma X16_witness :
  let w := run toLowerCase_basic_latin keystroke_trace (init epoch) in
  let w' := run toLowerCase_basic_latin
              [EvAdvance 400; EvFire 1; EvAdvance 600; EvFire 2] w in
  getCurrentVelocity w' = 0
  ∧ currentState (tracker (sampleVelocity w')) = STOPPED.
Proof.
  intros w w'.
  apply (X16_velocity_decays toLowerCase_basic_latin epoch w
           [EvAdvance 400; EvFire 1; EvAdvance 600; EvFire 2]).
  - apply reachable_trace.
  - repeat constructor.
  - vm_compute. discriminate.
Defined.

Lemma X17_witness :
  let w := run toLowerCase_basic_latin keystroke_trace (init epoch) in
  rearmed (clock w)
    (step toLowerCase_basic_latin (EvTextChanged (draft ++ lit " Wh")) w).
Proof.
  intros w.
  apply (proj1 (proj2 (X17_inactivity_timer_rearmed toLowerCase_basic_latin epoch w
                         (draft ++ lit " Wh") (reachable_trace keystroke_trace)))).
  - vm_compute. reflexivity.
  - vm_compute. lia.
Defined.

(** ['All done.  '] ends with a mark, two spaces do not. *)
Lemma X18_witness :
  endsWithPunctuation (lit "All done" ++ 46%N :: [32%N; 32%N])
  = bool_decide (46%N ∈ PUNCTUATION)
  ∧ endsWithPunctuation [32%N; 32%N] = false.
Proof.
  destruct (X18_endsWithPunctuation_last_visible_character
              (lit "All done") [32%N; 32%N] 46%N) as [H1 H2].
  - repeat constructor.
  - exact (conj (H1 eq_refl) H2).
Defined.

Lemma X20_witness :
  let w := run toLowerCase_basic_latin late_trigger_trace (init epoch) in
  ∃ t mid, find_timer 9 w = Some t ∧ action t = TCountdown mid
    ∧ (due t ≤ clock w)%Z
    ∧ currentState (tracker w) = STOPPED
    ∧ passesPreFilters toLowerCase_basic_latin (tracker w) (clock w) (promptText w)
      = true.
Proof.
  intros w.
  apply (X20_causes_of_a_forward toLowerCase_basic_latin epoch w (EvFire 9)).
  - apply reachable_trace.
  - vm_compute. discriminate.
Defined.

Lemma X21_witness :
  let w := run toLowerCase_basic_latin triggered_trace (init epoch) in
  lastAssessedText (tracker w) = default [] (last (triggers w)).
Proof.
  intros w.
  exact (proj1 (X21_last_sent_is_last_forward toLowerCase_basic_latin epoch w
                  (reachable_trace triggered_trace))).
Defined.

Lemma X22_witness :
  let w := run toLowerCase_basic_latin idle_trace (init epoch) in
  ∃ id t, EvFire 3 = EvFire id ∧ find_timer id w = Some t
          ∧ action t = TInactivity ∧ (due t ≤ clock w)%Z.
Proof.
  intros w.
  apply (X22_only_inactivity_deactivates toLowerCase_basic_latin w (EvFire 3)).
  - vm_compute. reflexivity.
  - vm_compute. reflexivity.
Defined.

(** The sample at 1500 ms finds the keystroke 1400 ms old: the state goes
    from [EDITING] to [STOPPED] and grace check 5 is scheduled. *)
Lemma X23_witness :
  let w := run toLowerCase_basic_latin pause_trace (init epoch) in
  currentState (tracker (sampleVelocity w)) = STOPPED
  ∧ timers (sampleVelocity w) = timers w ++ [grace_timer 5 (clock w)].
Proof.
  intros w.
  destruct (X23_grace_period toLowerCase_basic_latin epoch w) as (H1 & H2 & _).
  - apply reachable_trace.
  - vm_compute. discriminate.
  - vm_compute. reflexivity.
  - exact (conj H1 H2).
Defined.
